(** * An MBO order-book engine and its snapshot fan-out, embedded in Rocq

    The development follows the C++ sources:
    - [mbo_order_book.cpp]   the price-time-priority book ([MboOrderBook]);
    - [pow2_histogram.hpp]   the power-of-two latency histogram;
    - [tcp_main_ws.cpp]      the engine driver, the line framing and the
                             replay session, the bounded writer queue and
                             the writer thread;
    - [csv_parser.cpp]       the CSV line parser;
    - [jsonl_writer.cpp]     the feed writer;
    - [ws_server.cpp]        the push-server session: control plane and
                             snapshot push loop;
    - [snapshot_store.cpp]   the latest-snapshot store.

    Definitions come first, one module per translation unit; the theorems
    follow. *)

From Stdlib Require Import ZArith Ascii String List Lia.
From Stdlib.Floats Require Import PrimFloat SpecFloat FloatOps.
From Stdlib Require Import QArith Qround.
From stdpp Require Import base option list gmap strings pretty sorting.

Open Scope Z_scope.

(** ** Machine integers *)

(** [int32_t] values are integers in [[-2^31, 2^31)]; [wrap32] is the
    two's-complement reduction applied to the result of an operation. *)
Definition int32_min : Z := - 2 ^ 31.
Definition int32_max : Z := 2 ^ 31 - 1.
Definition in_int32 (z : Z) : Prop := int32_min <= z <= int32_max.
Definition wrap32 (z : Z) : Z := (z + 2 ^ 31) mod 2 ^ 32 - 2 ^ 31.

Definition uint64_max : Z := 2 ^ 64 - 1.
Definition wrap64u (z : Z) : Z := z mod 2 ^ 64.

(** ** Events ([mbo_event.hpp]) *)

Record MboEvent := mkEvent {
  e_ts_event : string;
  e_action : ascii;
  e_side : ascii;
  e_price : Z;       (* int64_t, fixed-point ticks *)
  e_size : Z;        (* int32_t *)
  e_order_id : Z;    (* int64_t *)
  e_symbol : string
}.

(** ** The order book ([order_types.hpp], [mbo_order_book.cpp]) *)

(** A [std::list<Order>] owns heap nodes and a [std::list<Order>::iterator]
    is the address of one of them.  The embedding keeps that picture: a
    level is the sequence of node handles in FIFO order, the nodes live in
    one store shared by all levels, and an [OrderRef] holds a handle.
    Reading through a handle that designates no live node, or erasing a
    handle from a list that does not hold it, is undefined behaviour in the
    source; the operations return [None] there.  The allocator hands out
    [next_], an address that no live node has; the proofs below use nothing
    else about the address chosen. *)
Abbreviation handle := nat (only parsing).

Record Order := mkOrder {
  o_order_id : Z;
  o_price : Z;
  o_qty : Z          (* int32_t *)
}.

Record OrderRef := mkOrderRef {
  r_is_buy : bool;
  r_price : Z;
  r_it : handle
}.

Record MboOrderBook := mkBook {
  symbol_ : string;
  bids_ : gmap Z (list handle);
  asks_ : gmap Z (list handle);
  index_ : gmap Z OrderRef;
  nodes_ : gmap handle Order;
  next_ : handle     (* the next node address handed out by the allocator *)
}.

#[global] Instance Order_eq_dec : EqDecision Order.
Proof. solve_decision. Defined.
#[global] Instance OrderRef_eq_dec : EqDecision OrderRef.
Proof. solve_decision. Defined.

Module Book.

(** [MboOrderBook::MboOrderBook(std::string sym)] *)
Definition new (sym : string) : MboOrderBook :=
  mkBook sym ∅ ∅ ∅ ∅ 0%nat.

Definition is_buy_side (side : ascii) : bool := Ascii.eqb side "B".

(** The two sides are handled by textually symmetric branches in the
    source ([if (ref.is_buy) { ... bids_ ... } else { ... asks_ ... }]);
    [side_of] and [set_side] select the map a branch works on. *)
Definition side_of (b : MboOrderBook) (is_buy : bool) : gmap Z (list handle) :=
  if is_buy then bids_ b else asks_ b.

Definition set_side (b : MboOrderBook) (is_buy : bool)
    (m : gmap Z (list handle)) : MboOrderBook :=
  if is_buy
  then mkBook (symbol_ b) m (asks_ b) (index_ b) (nodes_ b) (next_ b)
  else mkBook (symbol_ b) (bids_ b) m (index_ b) (nodes_ b) (next_ b).

Definition set_index (b : MboOrderBook) (ix : gmap Z OrderRef) : MboOrderBook :=
  mkBook (symbol_ b) (bids_ b) (asks_ b) ix (nodes_ b) (next_ b).

Definition set_nodes (b : MboOrderBook) (ns : gmap handle Order) : MboOrderBook :=
  mkBook (symbol_ b) (bids_ b) (asks_ b) (index_ b) ns (next_ b).

(** [void clear_()] *)
Definition clear_ (b : MboOrderBook) : MboOrderBook :=
  mkBook (symbol_ b) ∅ ∅ ∅ ∅ (next_ b).

(** [std::list::erase(it)] on the sequence of handles: the node is
    unlinked where it stands; [None] when [it] is not a node of this list. *)
Fixpoint list_erase (h : handle) (l : list handle) : option (list handle) :=
  match l with
  | [] => None
  | x :: t => if decide (x = h) then Some t else (x ::.) <$> list_erase h t
  end.

(** [lvl.erase(it); if (lvl.empty()) side.erase(lvlIt);] on the level [l]
    found at [px]: the node is unlinked and freed, and the level is dropped
    from the side when it became empty. *)
Definition erase_node (b : MboOrderBook) (is_buy : bool) (px : Z)
    (l : list handle) (h : handle) : option MboOrderBook :=
  l' ← list_erase h l;
  let b1 := set_nodes b (delete h (nodes_ b)) in
  Some (set_side b1 is_buy
          (match l' with
           | [] => delete px (side_of b1 is_buy)
           | _ => <[px := l']> (side_of b1 is_buy)
           end)).

(** [auto& q = side[px]; q.push_back(o); return std::prev(q.end());]
    [operator[]] creates the level when it is missing. *)
Definition push_back (b : MboOrderBook) (is_buy : bool) (px : Z)
    (o : Order) : MboOrderBook * handle :=
  let h := next_ b in
  let q := default [] (side_of b is_buy !! px) in
  let b1 := mkBook (symbol_ b) (bids_ b) (asks_ b) (index_ b)
              (<[h := o]> (nodes_ b)) (S h) in
  (set_side b1 is_buy (<[px := q ++ [h]]> (side_of b1 is_buy)), h).

(** [std::unordered_map::emplace]: no effect when the key is present. *)
Definition emplace (k : Z) (r : OrderRef) (ix : gmap Z OrderRef) : gmap Z OrderRef :=
  match ix !! k with
  | Some _ => ix
  | None => <[k := r]> ix
  end.

(** [void add_(const MboEvent& e)] *)
Definition add_ (b : MboOrderBook) (e : MboEvent) : option MboOrderBook :=
  let is_buy := is_buy_side (e_side e) in
  b1 ← match index_ b !! e_order_id e with
       | Some oldRef =>
           b' ← match side_of b (r_is_buy oldRef) !! r_price oldRef with
                | Some l => erase_node b (r_is_buy oldRef) (r_price oldRef) l (r_it oldRef)
                | None => Some b
                end;
           Some (set_index b' (delete (e_order_id e) (index_ b')))
       | None => Some b
       end;
  let '(b2, it) :=
    push_back b1 is_buy (e_price e)
      (mkOrder (e_order_id e) (e_price e) (e_size e)) in
  Some (set_index b2
          (emplace (e_order_id e) (mkOrderRef is_buy (e_price e) it) (index_ b2))).

(** [void cancel_(const MboEvent& e)] *)
Definition cancel_ (b : MboOrderBook) (e : MboEvent) : option MboOrderBook :=
  match index_ b !! e_order_id e with
  | None => Some b
  | Some ref =>
      match side_of b (r_is_buy ref) !! r_price ref with
      | None => Some (set_index b (delete (e_order_id e) (index_ b)))
      | Some l =>
          o ← nodes_ b !! r_it ref;
          let qty := if e_size e >=? o_qty o then 0
                     else wrap32 (o_qty o - e_size e) in
          if qty =? 0 then
            b1 ← erase_node b (r_is_buy ref) (r_price ref) l (r_it ref);
            Some (set_index b1 (delete (e_order_id e) (index_ b1)))
          else
            Some (set_nodes b
                    (<[r_it ref := mkOrder (o_order_id o) (o_price o) qty]> (nodes_ b)))
      end
  end.

(** [void modify_(const MboEvent& e)] *)
Definition modify_ (b : MboOrderBook) (e : MboEvent) : option MboOrderBook :=
  match index_ b !! e_order_id e with
  | None => add_ b e
  | Some ref =>
      if negb (Bool.eqb (is_buy_side (e_side e)) (r_is_buy ref)) then Some b
      else
        let old_px := r_price ref in
        o ← nodes_ b !! r_it ref;
        let old_qty := o_qty o in
        if negb (e_price e =? old_px) then
          b1 ← match side_of b (r_is_buy ref) !! old_px with
               | Some l => erase_node b (r_is_buy ref) old_px l (r_it ref)
               | None => Some b
               end;
          let '(b2, it) :=
            push_back b1 (r_is_buy ref) (e_price e)
              (mkOrder (e_order_id e) (e_price e) (e_size e)) in
          Some (set_index b2
                  (<[e_order_id e := mkOrderRef (r_is_buy ref) (e_price e) it]>
                     (index_ b2)))
        else if e_size e >? old_qty then
          match side_of b (r_is_buy ref) !! old_px with
          | None => Some b
          | Some l =>
              l' ← list_erase (r_it ref) l;
              let h := next_ b in
              let ns := <[h := mkOrder (e_order_id e) old_px (e_size e)]>
                          (delete (r_it ref) (nodes_ b)) in
              let b1 := mkBook (symbol_ b) (bids_ b) (asks_ b) (index_ b) ns (S h) in
              let b2 := set_side b1 (r_is_buy ref)
                          (<[old_px := l' ++ [h]]> (side_of b1 (r_is_buy ref))) in
              Some (set_index b2
                      (<[e_order_id e := mkOrderRef (r_is_buy ref) old_px h]>
                         (index_ b2)))
          end
        else
          Some (set_nodes b
                  (<[r_it ref := mkOrder (o_order_id o) (o_price o) (e_size e)]>
                     (nodes_ b)))
  end.

(** [void apply(const MboEvent& e)] *)
Definition apply (b : MboOrderBook) (e : MboEvent) : option MboOrderBook :=
  let a := e_action e in
  if Ascii.eqb a "T" || Ascii.eqb a "F" || Ascii.eqb a "N" then Some b
  else if Ascii.eqb a "R" then Some (clear_ b)
  else if negb (Ascii.eqb (e_side e) "A") && negb (Ascii.eqb (e_side e) "B")
  then Some b
  else if Ascii.eqb a "A" then add_ b e
  else if Ascii.eqb a "C" then cancel_ b e
  else if Ascii.eqb a "M" then modify_ b e
  else Some b.

(** Events applied in arrival order. *)
Fixpoint apply_all (b : MboOrderBook) (es : list MboEvent) : option MboOrderBook :=
  match es with
  | [] => Some b
  | e :: es' => b' ← apply b e; apply_all b' es'
  end.

(** The orders of a level in FIFO order, read through the handles. *)
Definition level_orders (b : MboOrderBook) (is_buy : bool) (px : Z) : list Order :=
  omap (λ h, nodes_ b !! h) (default [] (side_of b is_buy !! px)).

(** The per-level aggregates of [to_json]:
    [for (const auto& o : it->second) { sum_qty += o.qty; ++ct; }] *)
Definition level_sz (b : MboOrderBook) (is_buy : bool) (px : Z) : Z :=
  foldl (λ acc o, acc + o_qty o) 0 (level_orders b is_buy px).

Definition level_ct (b : MboOrderBook) (is_buy : bool) (px : Z) : Z :=
  foldl (λ acc _, acc + 1) 0 (level_orders b is_buy px).

End Book.

Arguments Book.push_back : simpl never.
Arguments Book.erase_node : simpl never.

(** ** The latency histogram ([pow2_histogram.hpp]) *)

(** [double] is IEEE binary64, carried by the kernel's primitive floats.
    [(double)n] rounds an integer to the nearest binary64 value. *)
Definition uint64_to_double (n : Z) : float :=
  SF2Prim (binary_normalize prec emax n 0 false).

(** [static_cast<uint64_t>(x)] truncates toward zero; the conversion is
    undefined ([None]) when the truncated value is not a [uint64_t], which
    includes NaN and the infinities. *)
Definition double_to_uint64 (x : float) : option Z :=
  match Prim2SF x with
  | S754_zero _ => Some 0
  | S754_finite sign m e =>
      let v := if 0 <=? e then Z.shiftl (Z.pos m) e else Z.shiftr (Z.pos m) (- e) in
      if sign then (if v =? 0 then Some 0 else None)
      else if v <=? uint64_max then Some v else None
  | S754_infinity _ | S754_nan => None
  end.

Module Pow2Histogram.

Definition K : nat := 64.

Record t := mk {
  c : list Z;      (* uint64_t c[K] *)
  n : Z            (* uint64_t *)
}.

(** [Pow2Histogram h;] with [c[K]{}] and [n = 0]. *)
Definition init : t := mk (replicate K 0) 0.

(** [__builtin_clzll] on a non-zero 64-bit word. *)
Definition clzll (ns : Z) : Z := 63 - Z.log2 ns.

(** [static int bucket(uint64_t ns)] *)
Definition bucket (ns : Z) : Z :=
  if ns =? 0 then 0
  else
    let b := 63 - clzll ns in
    let b := if b <? 0 then 0 else b in
    let b := if b >? 63 then 63 else b in
    b.

(** [void add(uint64_t ns) { c[bucket(ns)]++; n++; }] *)
Definition add (h : t) (ns : Z) : t :=
  mk (alter (λ x, wrap64u (x + 1)) (Z.to_nat (bucket ns)) (c h))
     (wrap64u (n h + 1)).

(** The loop of [percentile]: [cs] are the counters from bucket [b] on,
    [cum] the running sum. *)
Fixpoint scan (cs : list Z) (b : Z) (cum target : Z) : Z :=
  match cs with
  | [] => Z.shiftl 1 63
  | x :: cs' =>
      let cum := wrap64u (cum + x) in
      if cum >=? target then
        (if b >=? 63 then Z.shiftl 1 63 else Z.shiftl 1 (b + 1))
      else scan cs' (b + 1) cum target
  end.

(** [uint64_t target = static_cast<uint64_t>(p * (double)n);
     if (target == 0) target = 1;] after the clamping of [p]. *)
Definition target (p : float) (n : Z) : option Z :=
  let p := if PrimFloat.ltb p PrimFloat.zero then PrimFloat.zero else p in
  let p := if PrimFloat.ltb PrimFloat.one p then PrimFloat.one else p in
  t ← double_to_uint64 (PrimFloat.mul p (uint64_to_double n));
  Some (if t =? 0 then 1 else t).

(** [uint64_t percentile(double p) const] *)
Definition percentile (h : t) (p : float) : option Z :=
  if n h =? 0 then Some 0
  else
    tg ← target p (n h);
    Some (scan (c h) 0 0 tg).

(** The recorded samples by bucket, in increasing bucket order: counter
    [x] at bucket [b] stands for [x] samples. *)
Fixpoint samples_from (cs : list Z) (b : Z) : list Z :=
  match cs with
  | [] => []
  | x :: cs' => replicate (Z.to_nat x) b ++ samples_from cs' (b + 1)
  end.

Definition samples (h : t) : list Z := samples_from (c h) 0.

(** The upper bound reported for bucket [b]. *)
Definition upper_bound (b : Z) : Z :=
  if b >=? 63 then 2 ^ 63 else 2 ^ (b + 1).

(** A histogram whose counters are in range and add up to [n]. *)
Definition ok (h : t) : Prop :=
  length (c h) = K ∧ Forall (λ x, 0 <= x) (c h) ∧
  n h = foldr Z.add 0 (c h) ∧ n h <= uint64_max.

End Pow2Histogram.

(** The exact value of a finite binary64 number, and the ceiling of its
    product with an integer. *)
Definition double_to_Q (x : float) : option Q :=
  match Prim2SF x with
  | S754_zero _ => Some 0%Q
  | S754_finite sign m e =>
      let mag := if 0 <=? e then inject_Z (Z.shiftl (Z.pos m) e)
                 else Qmake (Z.pos m) (Pos.shiftl 1 (Z.to_N (- e))) in
      Some (if sign then Qopp mag else mag)
  | S754_infinity _ | S754_nan => None
  end.

Definition ceil_mul (p : float) (n : Z) : option Z :=
  q ← double_to_Q p; Some (Qceiling (Qmult q (inject_Z n))).

(** ** The snapshot store ([snapshot_store.cpp]) *)

Module SnapshotStore.

(** [std::shared_ptr<const std::string>]: [None] is the null handle. *)
Abbreviation shared_ptr := (option string) (only parsing).

Definition make_shared (s : string) : shared_ptr := Some s.

Record t := mk {
  g_latest_by_symbol : gmap string (option string);
  g_latest_global : option string
}.

(** The state at static initialisation. *)
Definition init : t := mk ∅ (make_shared "{}").

(** [void publish_snapshot(std::string s)] *)
Definition publish_snapshot_global (st : t) (s : string) : t :=
  mk (g_latest_by_symbol st) (make_shared s).

(** [void publish_snapshot(const std::string& symbol, std::string s)] *)
Definition publish_snapshot (st : t) (symbol s : string) : t :=
  mk (<[symbol := make_shared s]> (g_latest_by_symbol st)) (g_latest_global st).

(** [std::shared_ptr<const std::string> load_snapshot()] *)
Definition load_snapshot_global (st : t) : shared_ptr := g_latest_global st.

(** [std::shared_ptr<const std::string> load_snapshot(const std::string& symbol)] *)
Definition load_snapshot (st : t) (symbol : string) : shared_ptr :=
  match g_latest_by_symbol st !! symbol with
  | Some p => p
  | None => g_latest_global st
  end.

(** Calls made by the publisher, in order. *)
Inductive call :=
  | PublishGlobal (s : string)
  | Publish (symbol s : string).

Definition step (st : t) (k : call) : t :=
  match k with
  | PublishGlobal s => publish_snapshot_global st s
  | Publish symbol s => publish_snapshot st symbol s
  end.

Definition run (ks : list call) : t := foldl step init ks.

(** The last string published for [symbol], and the last one published
    to the global slot, in a history of calls. *)
Fixpoint last_for (symbol : string) (ks : list call) (acc : option string) : option string :=
  match ks with
  | [] => acc
  | Publish sy s :: ks' =>
      last_for symbol ks' (if String.eqb sy symbol then Some s else acc)
  | PublishGlobal _ :: ks' => last_for symbol ks' acc
  end.

Fixpoint last_global (ks : list call) (acc : string) : string :=
  match ks with
  | [] => acc
  | PublishGlobal s :: ks' => last_global ks' s
  | Publish _ _ :: ks' => last_global ks' acc
  end.

End SnapshotStore.

(** ** The bounded writer queue ([tcp_main_ws.cpp]) *)

Record TopOfBook := mkTopOfBook {
  has_bid : bool;
  has_ask : bool;
  bid_px : float;
  bid_sz : Z;
  ask_px : float;
  ask_sz : Z;
  mid : float;
  spread : float
}.

Record SnapshotWrite := mkSnapshotWrite {
  sw_ts_us : Z;
  sw_symbol : string;
  sw_tob : TopOfBook
}.

Module Writer.

(** [while (q.size() >= max_q) q.pop_front();] on the deque [q], oldest
    item first.  With [max_q = 0] the loop reaches [pop_front] on an
    empty deque, which is undefined: [None]. *)
Fixpoint pop_while_full (q : list SnapshotWrite) (max_q : nat)
    : option (list SnapshotWrite) :=
  match q with
  | [] => if (max_q <=? 0)%nat then None else Some []
  | x :: q' =>
      if (max_q <=? length (x :: q'))%nat then pop_while_full q' max_q
      else Some (x :: q')
  end.

(** [static void enqueue_snapshot_write(PgWriter* pg, ..., q, max_q,
    ts_us, symbol, tob)]; [pg] is [true] for a non-null writer. *)
Definition enqueue_snapshot_write (pg : bool) (q : list SnapshotWrite)
    (max_q : nat) (ts_us : Z) (symbol : string) (tob : TopOfBook)
    : option (list SnapshotWrite) :=
  if negb pg then Some q
  else
    let item := mkSnapshotWrite ts_us symbol tob in
    q1 ← pop_while_full q max_q;
    Some (q1 ++ [item]).

(** Items produced one after the other with the consumer stalled. *)
Fixpoint enqueue_all (q : list SnapshotWrite) (max_q : nat)
    (items : list SnapshotWrite) : option (list SnapshotWrite) :=
  match items with
  | [] => Some q
  | i :: items' =>
      q1 ← enqueue_snapshot_write true q max_q (sw_ts_us i) (sw_symbol i) (sw_tob i);
      enqueue_all q1 max_q items'
  end.

(** [const size_t max_q = 20000;] in [main]. *)
Definition max_q : nat := (20 * 1000)%nat.

End Writer.

(** ** The engine driver ([tcp_main_ws.cpp], [handle_line]) *)

Module Driver.

(** The per-session state that [run_one_replay_session] passes by
    reference to [handle_line]. *)
Record state := mk {
  book : MboOrderBook;
  book_symbol : string;
  has_symbol : bool;
  processed : Z;
  parsed_ok : Z;
  lines_total : Z;
  last_ts_us : Z
}.

(** [MboOrderBook book(""); bool has_symbol = false; ...] *)
Definition init : state := mk (Book.new "") "" false 0 0 0 0.

(** [if (!line.empty() && line.back() == '\r') line.pop_back();] *)
Fixpoint strip_cr (line : string) : string :=
  match line with
  | EmptyString => EmptyString
  | String c EmptyString => if Ascii.eqb c "013" then EmptyString else line
  | String c rest => String c (strip_cr rest)
  end.

Section handle_line.
(** The CSV parser and the timestamp conversion rest on [std::stod],
    [sscanf] and [timegm]; the driver is embedded over their results. *)
Variable parse_mbo_csv_line : string → option MboEvent.
Variable ts_event_to_us : string → Z.

(** [static bool handle_line(std::string& line, MboOrderBook& book, ...)]
    up to the snapshot fan-out, which reads the book and leaves every
    field below untouched. *)
Definition handle_line (st : state) (line : string) : option (bool * state) :=
  let line := strip_cr line in
  if String.eqb line "" then Some (false, st)
  else if String.prefix "ts_event" line || String.prefix "publisher_id" line
          || String.prefix "instrument_id" line then Some (false, st)
  else
    let lines_total := wrap64u (lines_total st + 1) in
    match parse_mbo_csv_line line with
    | None =>
        Some (false, mk (book st) (book_symbol st) (has_symbol st)
                        (processed st) (parsed_ok st) lines_total (last_ts_us st))
    | Some e =>
        let parsed_ok := parsed_ok st + 1 in
        let last_ts_us :=
          if negb (String.eqb (e_ts_event e) "") then ts_event_to_us (e_ts_event e)
          else last_ts_us st in
        let '(book_symbol, book, has_symbol) :=
          if negb (has_symbol st) && negb (String.eqb (e_symbol e) "")
          then (e_symbol e, Book.new (e_symbol e), true)
          else (book_symbol st, book st, has_symbol st) in
        book' ← Book.apply book e;
        Some (true, mk book' book_symbol has_symbol
                       (processed st + 1) parsed_ok lines_total last_ts_us)
    end.

(** Lines handled in arrival order. *)
Fixpoint handle_lines (st : state) (lines : list string) : option state :=
  match lines with
  | [] => Some st
  | l :: ls => r ← handle_line st l; handle_lines r.2 ls
  end.
End handle_line.

End Driver.

(** ** The push-server session ([ws_server.cpp]) *)

Module WsSession.

Record state := mk {
  symbol_ : string;
  depth_ : Z;       (* int *)
  push_ms_ : Z      (* int *)
}.

(** [symbol_ = "CLX5"; depth_ = 10; push_ms_(default_push_ms)] *)
Definition init (default_push_ms : Z) : state := mk "CLX5" 10 default_push_ms.

Definition dquote : ascii := "034".
Definition quoted (s : string) : string := String dquote (s +:+ String dquote "").

Definition code (ch : ascii) : Z := Z.of_N (N_of_ascii ch).

(** [std::isspace] and [std::isdigit] in the "C" locale. *)
Definition isspace (ch : ascii) : bool :=
  (code ch =? 32) || ((9 <=? code ch) && (code ch <=? 13)).
Definition isdigit (ch : ascii) : bool :=
  (48 <=? code ch) && (code ch <=? 57).

(** The part of [s] from position [i] on. *)
Definition from (i : nat) (s : string) : string :=
  String.substring i (String.length s - i) s.

Fixpoint leading_ws (s : string) : nat :=
  match s with
  | String ch s' => if isspace ch then S (leading_ws s') else 0%nat
  | EmptyString => 0%nat
  end.

(** [static void skip_ws(const std::string& s, size_t& i)] *)
Definition skip_ws (s : string) (i : nat) : nat :=
  (i + leading_ws (from i s))%nat.

(** [static bool parse_string_value_after_key(s, key, out)] *)
Definition parse_string_value_after_key (s key : string) : option string :=
  kpos ← String.index 0 (quoted key) s;
  cpos ← String.index kpos ":" s;
  let i := skip_ws s (cpos + 1) in
  match String.get i s with
  | Some ch =>
      if Ascii.eqb ch dquote then
        let i := S i in
        e ← String.index i (String dquote "") s;
        Some (String.substring i (e - i) s)
      else None
  | None => None
  end.

(** The digit loop of [parse_int_value_after_key] over the text left at
    position [i], with the early exit past [1000000000]. *)
Fixpoint digits (s : string) (val : Z) : Z :=
  match s with
  | String ch s' =>
      if isdigit ch then
        let val := val * 10 + (code ch - 48) in
        if val >? 1000000000 then val else digits s' val
      else val
  | EmptyString => val
  end.

(** [static bool parse_int_value_after_key(s, key, out)] *)
Definition parse_int_value_after_key (s key : string) : option Z :=
  kpos ← String.index 0 (quoted key) s;
  cpos ← String.index kpos ":" s;
  let i := skip_ws s (cpos + 1) in
  let neg := match String.get i s with
             | Some ch => Ascii.eqb ch "-"
             | None => false
             end in
  let i := if neg then S i else i in
  match String.get i s with
  | Some ch =>
      if isdigit ch then
        let val := digits (from i s) 0 in
        let val := if neg then - val else val in
        Some (wrap32 val)
      else None
  | None => None
  end.

(** [bool parse_control_message(const std::string& msg, std::string& type_out)];
    the result carries the return value, [type_out] and the session. *)
Definition parse_control_message (st : state) (msg : string)
    : bool * string * state :=
  match parse_string_value_after_key msg "type" with
  | None => (false, "", st)
  | Some type_out =>
      if negb (String.eqb type_out "subscribe") && negb (String.eqb type_out "update")
      then (false, type_out, st)
      else
        let symbol :=
          match parse_string_value_after_key msg "symbol" with
          | Some sym => if negb (String.eqb sym "") then sym else symbol_ st
          | None => symbol_ st
          end in
        let depth :=
          match parse_int_value_after_key msg "depth" with
          | Some d => if (d >? 0) && (d <=? 200) then d else depth_ st
          | None => depth_ st
          end in
        let push_ms :=
          match parse_int_value_after_key msg "push_ms" with
          | Some pm =>
              let pm := if pm <? 10 then 10 else pm in
              let pm := if pm >? 5000 then 5000 else pm in
              pm
          | None => push_ms_ st
          end in
        (true, type_out, mk symbol depth push_ms)
  end.

(** [std::to_string(int)] *)
Definition to_string (z : Z) : string := pretty z.

(** [static std::string make_ack_json(symbol, depth, push_ms)] *)
Definition make_ack_json (symbol : string) (depth push_ms : Z) : string :=
  "{" +:+ quoted "type" +:+ ":" +:+ quoted "ack" +:+ "," +:+
  quoted "symbol" +:+ ":" +:+ quoted symbol +:+ "," +:+
  quoted "depth" +:+ ":" +:+ to_string depth +:+ "," +:+
  quoted "push_ms" +:+ ":" +:+ to_string push_ms +:+ "}".

(** [void on_read(beast::error_code ec, std::size_t)]: [ec] is [true]
    for a failed or closed read, [msg] the text read.  The result is the
    session and the frames handed to [async_write]. *)
Definition on_read (st : state) (ec : bool) (msg : string) : state * list string :=
  if ec then (st, [])
  else
    let '(ok, _, st') := parse_control_message st msg in
    if ok then (st', [make_ack_json (symbol_ st') (depth_ st') (push_ms_ st')])
    else (st', []).

End WsSession.

(** ** Well-formed books

    The data-model invariants of the book, over the node store:
    - [wf_index]: every index entry designates a live node of the level it
      records, and that node carries the entry's id and price;
    - [wf_level]: every node of a level is live, priced at the level's key,
      and indexed at exactly that place;
    - [wf_nodup]: no level is empty and no node is linked twice;
    - [wf_fresh]: the allocator has not yet handed out [next_]. *)

Definition index_consistent (b : MboOrderBook) : Prop :=
  ∀ id r, index_ b !! id = Some r →
    ∃ l o, Book.side_of b (r_is_buy r) !! r_price r = Some l ∧
           r_it r ∈ l ∧
           nodes_ b !! r_it r = Some o ∧
           o_order_id o = id ∧
           o_price o = r_price r.

Definition levels_indexed (b : MboOrderBook) : Prop :=
  ∀ s px l h, Book.side_of b s !! px = Some l → h ∈ l →
    ∃ o, nodes_ b !! h = Some o ∧
         o_price o = px ∧
         index_ b !! o_order_id o = Some (mkOrderRef s px h).

Definition levels_nonempty (b : MboOrderBook) : Prop :=
  ∀ s px l, Book.side_of b s !! px = Some l → l ≠ [] ∧ NoDup l.

Definition nodes_fresh (b : MboOrderBook) : Prop :=
  ∀ h o, nodes_ b !! h = Some o → (h < next_ b)%nat.

Record wf (b : MboOrderBook) : Prop := mk_wf {
  wf_index : index_consistent b;
  wf_level : levels_indexed b;
  wf_nodup : levels_nonempty b;
  wf_fresh : nodes_fresh b
}.

(** The two readings of "no crossing" for a book: no price with a
    non-empty level on both sides, and no order resting on both sides. *)
Definition no_shared_price (b : MboOrderBook) : Prop :=
  ∀ px lb la, bids_ b !! px = Some lb → asks_ b !! px = Some la →
    lb = [] ∨ la = [].

Definition rests_on (b : MboOrderBook) (is_buy : bool) (id : Z) : Prop :=
  ∃ px l h o, Book.side_of b is_buy !! px = Some l ∧ h ∈ l ∧
              nodes_ b !! h = Some o ∧ o_order_id o = id.

Definition no_shared_order (b : MboOrderBook) : Prop :=
  ∀ id, ¬ (rests_on b true id ∧ rests_on b false id).

(** Books and events of the worked scenarios. *)
Definition ev (a s : ascii) (px sz id : Z) : MboEvent :=
  mkEvent "" a s px sz id "".

Definition book_of (es : list MboEvent) : MboOrderBook :=
  default (Book.new "") (Book.apply_all (Book.new "") es).

(** [bm] is [b] with the order indexed under [id], if any, taken out: its
    node unlinked and freed, its level dropped when left empty, its index
    entry erased. *)
Definition taken_out (b bm : MboOrderBook) (id : Z) : Prop :=
  match index_ b !! id with
  | None => bm = b
  | Some r =>
      ∃ l1 l2,
        Book.side_of b (r_is_buy r) !! r_price r = Some (l1 ++ r_it r :: l2) ∧
        symbol_ bm = symbol_ b ∧ next_ bm = next_ b ∧
        index_ bm = delete id (index_ b) ∧
        nodes_ bm = delete (r_it r) (nodes_ b) ∧
        Book.side_of bm (negb (r_is_buy r)) = Book.side_of b (negb (r_is_buy r)) ∧
        Book.side_of bm (r_is_buy r) =
          (if decide (l1 ++ l2 = [])
           then delete (r_price r) (Book.side_of b (r_is_buy r))
           else <[r_price r := l1 ++ l2]> (Book.side_of b (r_is_buy r)))
  end.

(** [b'] is [bm] with a fresh node carrying [o] linked at the tail of the
    level at [o]'s price on side [s], and indexed there. *)
Definition linked_at_tail (bm b' : MboOrderBook) (s : bool) (o : Order) : Prop :=
  symbol_ b' = symbol_ bm ∧ next_ b' = S (next_ bm) ∧
  index_ b' = <[o_order_id o := mkOrderRef s (o_price o) (next_ bm)]> (index_ bm) ∧
  nodes_ b' = <[next_ bm := o]> (nodes_ bm) ∧
  Book.side_of b' (negb s) = Book.side_of bm (negb s) ∧
  Book.side_of b' s =
    <[o_price o := default [] (Book.side_of bm s !! o_price o) ++ [next_ bm]]>
      (Book.side_of bm s).

(** Order [o] rests at handle [h] in the level at [px] on side [s]. *)
Definition rests_at (b : MboOrderBook) (s : bool) (px : Z) (h : nat) (o : Order) : Prop :=
  ∃ l, Book.side_of b s !! px = Some l ∧ h ∈ l ∧ nodes_ b !! h = Some o.

(** ** Reading the book in price order ([mbo_order_book.cpp], [top_of_book]) *)

(** [int64_t] results wrap to [[-2^63, 2^63)]. *)
Definition wrap64 (z : Z) : Z := (z + 2 ^ 63) mod 2 ^ 64 - 2 ^ 63.

(** [static_cast<double>(x)] for an [int64_t]. *)
Definition int64_to_double (x : Z) : float :=
  SF2Prim (binary_normalize prec emax x 0 false).

Module BookView.

(** The comparator of a side: [std::greater] for the bids, [std::less] for
    the asks. *)
Definition key_before (is_buy : bool) (x y : Z * list nat) : Prop :=
  if is_buy then y.1 <= x.1 else x.1 <= y.1.

#[global] Instance key_before_dec is_buy x y : Decision (key_before is_buy x y).
Proof. unfold key_before. destruct is_buy; apply _. Defined.

(** The levels of a side as [std::map] iterates over them, best first. *)
Definition book_order (is_buy : bool) (m : gmap Z (list nat)) : list (Z * list nat) :=
  merge_sort (key_before is_buy) (map_to_list m).

(** [int64_t sz = 0; for (const auto& ord : lvl) sz += ord.qty;] *)
Definition sum_qty (b : MboOrderBook) (l : list nat) : option Z :=
  foldl (λ acc h, sz ← acc; o ← nodes_ b !! h; Some (wrap64 (sz + o_qty o)))
        (Some 0) l.

(** [TopOfBook MboOrderBook::top_of_book(double price_scale) const] *)
Definition top_of_book (b : MboOrderBook) (price_scale : float) : option TopOfBook :=
  bid ← match book_order true (bids_ b) with
        | [] => Some (false, PrimFloat.zero, 0)
        | (px, l) :: _ =>
            sz ← sum_qty b l;
            Some (true, PrimFloat.div (int64_to_double px) price_scale, sz)
        end;
  ask ← match book_order false (asks_ b) with
        | [] => Some (false, PrimFloat.zero, 0)
        | (px, l) :: _ =>
            sz ← sum_qty b l;
            Some (true, PrimFloat.div (int64_to_double px) price_scale, sz)
        end;
  let '(has_bid, bid_px, bid_sz) := bid in
  let '(has_ask, ask_px, ask_sz) := ask in
  let '(mid, spread) :=
    if has_bid && has_ask
    then (PrimFloat.mul 0.5 (PrimFloat.add bid_px ask_px),
          PrimFloat.sub ask_px bid_px)
    else (PrimFloat.zero, PrimFloat.zero) in
  Some (mkTopOfBook has_bid has_ask bid_px bid_sz ask_px ask_sz mid spread).

End BookView.

(** What holds of the driver's state at any point of a session. *)
Definition session_ok (st : Driver.state) : Prop :=
  wf (Driver.book st) ∧
  symbol_ (Driver.book st) = Driver.book_symbol st ∧
  (Driver.has_symbol st = true ↔ Driver.book_symbol st ≠ "") ∧
  Driver.processed st = Driver.parsed_ok st ∧
  0 <= Driver.processed st.

(** ** The snapshot push loop ([ws_server.cpp], [on_tick] and [on_write])

    The loop compares snapshot handles by address, so it is embedded over
    a type [ptr] of addresses; [None] is the null handle.  Beside the two
    fields of the session the state records what the session has
    outstanding on its strand: whether a wait on [timer_] is pending, how
    many snapshot writes await [on_write], and the handles given to
    [async_write] so far, latest last. *)

Module PushLoop.

Section ptr.
Context {ptr : Type} `{EqDecision ptr}.

Record state := mk {
  last_sent_ : option ptr;
  write_in_flight_ : bool;
  timer_pending : bool;
  writes_pending : nat;
  sent : list ptr
}.

(** A session as constructed: [last_sent_] null, [write_in_flight_ = false]. *)
Definition init : state := mk None false false 0 [].

(** [void schedule_send_now()] and [void schedule_next()]: the expiry is
    set and a wait started; a wait that was pending is cancelled by
    [expires_after], and its handler returns at once on the error code. *)
Definition schedule_send_now (st : state) : state :=
  mk (last_sent_ st) (write_in_flight_ st) true (writes_pending st) (sent st).
Definition schedule_next (st : state) : state :=
  mk (last_sent_ st) (write_in_flight_ st) true (writes_pending st) (sent st).

(** [void on_accept(beast::error_code ec)] *)
Definition on_accept (st : state) (ec : bool) : state :=
  if ec then st else schedule_send_now st.

(** [void on_tick(beast::error_code ec)]; [cur] is the handle that
    [load_snapshot(symbol_)] returns when the handler runs. *)
Definition on_tick (st : state) (ec : bool) (cur : option ptr) : state :=
  if ec then st
  else if write_in_flight_ st then schedule_next st
  else
    match cur with
    | None => schedule_next st
    | Some p =>
        if bool_decide (last_sent_ st ≠ None) && bool_decide (cur = last_sent_ st)
        then schedule_next st
        else mk cur true (timer_pending st) (S (writes_pending st)) (sent st ++ [p])
    end.

(** [void on_write(beast::error_code ec, std::size_t)] *)
Definition on_write (st : state) (ec : bool) : state :=
  let st := mk (last_sent_ st) false (timer_pending st) (writes_pending st) (sent st) in
  if ec then st else schedule_next st.

(** What the strand can run next: the pending wait completes and calls
    [on_tick], or a pending snapshot write completes and calls
    [on_write]. *)
Inductive event :=
  | Tick (ec : bool) (cur : option ptr)
  | Written (ec : bool).

Definition step (st : state) (ev : event) : option state :=
  match ev with
  | Tick ec cur =>
      if timer_pending st then
        Some (on_tick (mk (last_sent_ st) (write_in_flight_ st) false
                          (writes_pending st) (sent st)) ec cur)
      else None
  | Written ec =>
      match writes_pending st with
      | S n =>
          Some (on_write (mk (last_sent_ st) (write_in_flight_ st) (timer_pending st)
                             n (sent st)) ec)
      | O => None
      end
  end.

Fixpoint run (st : state) (evs : list event) : option state :=
  match evs with
  | [] => Some st
  | ev :: evs' => st' ← step st ev; run st' evs'
  end.

(** No handle occurs twice in a row. *)
Fixpoint no_repeat (l : list ptr) : Prop :=
  match l with
  | x :: (y :: _) as l' => x ≠ y ∧ no_repeat l'
  | _ => True
  end.

End ptr.

Arguments state : clear implicits.
Arguments event : clear implicits.

End PushLoop.

(** What the push loop keeps between handlers. *)
Definition push_inv {ptr : Type} `{EqDecision ptr} (st : PushLoop.state ptr) : Prop :=
  (Nat.b2n (PushLoop.timer_pending st) + PushLoop.writes_pending st ≤ 1)%nat ∧
  (PushLoop.write_in_flight_ st = true ↔ PushLoop.writes_pending st = 1%nat) ∧
  PushLoop.last_sent_ st = last (PushLoop.sent st) ∧
  PushLoop.no_repeat (PushLoop.sent st).

(** ** Line framing of the feed ([tcp_main_ws.cpp], [run_one_replay_session]) *)

Module Replay.

Definition nl : string := String "010" "".

(** [carry.erase(0, pos)] *)
Definition erase_front (pos : nat) (carry : string) : string :=
  String.substring pos (String.length carry - pos) carry.

(** The inner [while (true)] of the read loop: from [pos] on, every
    newline found ends a line, which is handed on; when none is left the
    lines taken are erased from [carry].  [fuel] bounds the iterations;
    each one moves [pos] past one more character. *)
Fixpoint take_lines (fuel : nat) (carry : string) (pos : nat) (out : list string)
    : list string * string :=
  match fuel with
  | O => (out, erase_front pos carry)
  | S fuel' =>
      match String.index pos nl carry with
      | None => (out, erase_front pos carry)
      | Some nl_pos =>
          take_lines fuel' carry (S nl_pos)
            (out ++ [String.substring pos (nl_pos - pos) carry])
      end
  end.

(** One pass of the outer loop after [read_some] returned [chunk]:
    [if (n > 0) { carry.append(buf.data(), n); ... }]. *)
Definition on_chunk (carry chunk : string) : list string * string :=
  if String.eqb chunk "" then ([], carry)
  else
    let carry := carry +:+ chunk in
    take_lines (S (String.length carry)) carry 0 [].

(** The read loop over the chunks that arrive, from [carry]; the lines
    handed on, in order, and the carry left at end of stream. *)
Fixpoint on_chunks (carry : string) (chunks : list string) : list string * string :=
  match chunks with
  | [] => ([], carry)
  | c :: cs =>
      let '(l1, carry) := on_chunk carry c in
      let '(l2, carry) := on_chunks carry cs in
      (l1 ++ l2, carry)
  end.

(** The bytes of a stream of chunks, and of lines each ended by its
    newline. *)
Definition stream (chunks : list string) : string := foldr String.append "" chunks.
Definition unlines (lines : list string) : string :=
  foldr (λ l acc, l +:+ nl +:+ acc) "" lines.

Definition no_newline (s : string) : Prop := String.index 0 nl s = None.

(** The newline-ended pieces of [s], and what follows the last newline. *)
Fixpoint pieces (s : string) : list string * string :=
  match s with
  | EmptyString => ([], EmptyString)
  | String c r =>
      let '(ls, k) := pieces r in
      if Ascii.eqb c "010" then (EmptyString :: ls, k)
      else match ls with
           | [] => ([], String c k)
           | l :: ls' => (String c l :: ls', k)
           end
  end.

End Replay.

(** ** Splitting a CSV line ([csv_parser.cpp]) *)

Module Csv.

Definition is_comma_at (i : nat) (s : string) : bool :=
  match String.get i s with
  | Some c => Ascii.eqb c ","
  | None => false
  end.

(** The [for (size_t i = 0; i <= s.size(); ++i)] of [split_csv_simple],
    [fuel] iterations of it from [i]: at the end of [s] and at every comma
    the text since [start] is appended to [out]. *)
Fixpoint split_loop (fuel : nat) (s : string) (i start : nat) (out : list string)
    : list string :=
  match fuel with
  | O => out
  | S fuel' =>
      if (i =? String.length s)%nat || is_comma_at i s
      then split_loop fuel' s (S i) (S i)
             (out ++ [String.substring start (i - start) s])
      else split_loop fuel' s (S i) start out
  end.

(** [static inline bool split_csv_simple(std::string_view s,
    std::vector<std::string_view>& out)]; it always returns [true], and
    the result here is [out]. *)
Definition split_csv_simple (s : string) : list string :=
  split_loop (S (String.length s)) s 0 0 [].

(** The number of commas of [s]. *)
Fixpoint commas (s : string) : nat :=
  match s with
  | EmptyString => 0
  | String c r => ((if Ascii.eqb c "," then 1 else 0) + commas r)%nat
  end.

(** The fields of [s], by recursion on [s]. *)
Fixpoint fields (s : string) : list string :=
  match s with
  | EmptyString => [EmptyString]
  | String c r =>
      if Ascii.eqb c "," then EmptyString :: fields r
      else match fields r with
           | f :: fs => String c f :: fs
           | [] => [String c EmptyString]
           end
  end.

(** [cur] put in front of the first of [fs]. *)
Definition glue (cur : string) (fs : list string) : list string :=
  match fs with
  | f :: fs' => (cur +:+ f) :: fs'
  | [] => [cur]
  end.

Section parse_mbo_csv_line.
(** The number conversions of the standard library, by their results:
    [std::from_chars] at the three integer types ([None] when [ec] is
    set), [std::stod] ([None] when it throws) and [llround]. *)
Variable from_chars_int32 from_chars_int64 from_chars_uint32 : string → option Z.
Variable stod : string → option float.
Variable llround : float → Z.

(** [template <typename T> static inline bool parse_int(std::string_view sv, T& out)],
    over the conversion at [T]. *)
Definition parse_int (from_chars : string → option Z) (sv : string) : option Z :=
  if String.eqb sv "" then None else from_chars sv.

(** [static inline bool parse_double(std::string_view sv, double& out)] *)
Definition parse_double (sv : string) : option float :=
  if String.eqb sv "" then None else stod sv.

Definition PRICE_SCALE : float := 10000%float.

(** [f[i].empty() ? 'N' : f[i][0]] *)
Definition first_char_or_N (s : string) : ascii :=
  match s with
  | String c _ => c
  | EmptyString => "N"
  end.

(** [bool parse_mbo_csv_line(const std::string& line, MboEvent& out)];
    [None] is the result [false], and of [out] the fields kept are those
    of [MboEvent] above. *)
Definition parse_mbo_csv_line (line : string) : option MboEvent :=
  let s := Driver.strip_cr line in
  if String.eqb s "" then None
  else if String.prefix "ts_recv," s then None
  else
    let f := split_csv_simple s in
    if (length f <? 15)%nat then None
    else
      let fld i := nth i f EmptyString in
      _ ← parse_int from_chars_int32 (fld 3%nat);
      _ ← parse_int from_chars_int32 (fld 4%nat);
      px_d ← parse_double (fld 7%nat);
      let price := wrap64 (llround (PrimFloat.mul px_d PRICE_SCALE)) in
      size ← parse_int from_chars_int32 (fld 8%nat);
      order_id ← parse_int from_chars_int64 (fld 10%nat);
      _ ← parse_int from_chars_uint32 (fld 11%nat);
      Some (mkEvent (fld 1%nat) (first_char_or_N (fld 5%nat)) (first_char_or_N (fld 6%nat))
                    price size order_id (fld 14%nat)).
End parse_mbo_csv_line.

End Csv.

(** ** The replay session ([tcp_main_ws.cpp], [jsonl_writer.cpp]) *)

Module Session.

Record FeedLine := mkFeedLine {
  fl_ts_us : Z;          (* int64_t *)
  fl_symbol : string;
  fl_processed : Z;      (* int64_t *)
  fl_depth : Z;          (* int *)
  fl_book_json : string
}.

(** A [JsonlWriter]: whether its stream is open and good, and the text
    written to it so far. *)
Record JsonlWriter := mkJsonlWriter {
  is_open : bool;
  ofs_ : string
}.

(** [void JsonlWriter::write_feed(const FeedLine& line)] *)
Definition write_feed (w : JsonlWriter) (line : FeedLine) : JsonlWriter :=
  if negb (is_open w) then w
  else if fl_ts_us line <=? 0 then w
  else if String.eqb (fl_symbol line) "" then w
  else if String.eqb (fl_book_json line) "" then w
  else
    mkJsonlWriter (is_open w)
      (ofs_ w +:+
       "{" +:+ WsSession.quoted "ts_us" +:+ ":" +:+ WsSession.to_string (fl_ts_us line) +:+
       "," +:+ WsSession.quoted "symbol" +:+ ":" +:+ WsSession.quoted (fl_symbol line) +:+
       "," +:+ WsSession.quoted "processed" +:+ ":" +:+ WsSession.to_string (fl_processed line) +:+
       "," +:+ WsSession.quoted "depth" +:+ ":" +:+ WsSession.to_string (fl_depth line) +:+
       "," +:+ WsSession.quoted "book" +:+ ":" +:+ fl_book_json line +:+
       "}" +:+ Replay.nl).

(** What a session works on: its own state, the snapshot store, the
    writer queue and the feed writer ([None] for a null [feed_ptr]). *)
Record world := mk {
  drv : Driver.state;
  store : SnapshotStore.t;
  q : list SnapshotWrite;
  feed : option JsonlWriter
}.

Section session.
(** The parser and the timestamp conversion as for [Driver.handle_line];
    [to_json] prints prices through the stream formatting of [double] and
    is taken by its result. *)
Variable parse_mbo_csv_line : string → option MboEvent.
Variable ts_event_to_us : string → Z.
Variable to_json : MboOrderBook → Z → string.

(** [cfg.depth], [cfg.snapshot_every], [cfg.max_msgs]; whether [pg] is
    non-null; [max_q]. *)
Variable depth snapshot_every max_msgs : Z.
Variable pg : bool.
Variable max_q : nat.

(** [double price_scale = 10000.0], the default argument of [top_of_book]. *)
Definition price_scale : float := 10000%float.

(** The body of [if (snapshot_every > 0 && (processed % snapshot_every == 0))]
    in [handle_line], without the clocks and the printing. *)
Definition snapshot (w : world) : option world :=
  let st := drv w in
  let sym := Driver.book_symbol st in
  let book_json := to_json (Driver.book st) depth in
  let store1 :=
    if negb (String.eqb sym "")
    then SnapshotStore.publish_snapshot (store w) sym book_json
    else SnapshotStore.publish_snapshot_global (store w) book_json in
  q1 ← (if negb (String.eqb sym "") && (Driver.last_ts_us st >? 0)
        then tob ← BookView.top_of_book (Driver.book st) price_scale;
             Writer.enqueue_snapshot_write pg (q w) max_q (Driver.last_ts_us st) sym tob
        else Some (q w));
  let feed1 :=
    match feed w with
    | Some fw =>
        if negb (String.eqb sym "") && (Driver.last_ts_us st >? 0)
        then Some (write_feed fw
                     (mkFeedLine (Driver.last_ts_us st) sym (Driver.processed st)
                                 depth book_json))
        else Some fw
    | None => None
    end in
  Some (mk st store1 q1 feed1).

(** [handle_line] with its snapshot fan-out. *)
Definition handle_line (w : world) (line : string) : option (bool * world) :=
  r ← Driver.handle_line parse_mbo_csv_line ts_event_to_us (drv w) line;
  let w := mk r.2 (store w) (q w) (feed w) in
  if r.1 && (snapshot_every >? 0) &&
     (Z.rem (Driver.processed (drv w)) snapshot_every =? 0)
  then w' ← snapshot w; Some (true, w')
  else Some (r.1, w).

(** [cfg.max_msgs < 0 || processed < cfg.max_msgs] *)
Definition below_max (w : world) : bool :=
  (max_msgs <? 0) || (Driver.processed (drv w) <? max_msgs).

(** What the read loop does with one framed line. *)
Definition on_line (w : world) (line : string) : option world :=
  if below_max w then r ← handle_line w line; Some r.2
  else
    let st := drv w in
    Some (mk (Driver.mk (Driver.book st) (Driver.book_symbol st) (Driver.has_symbol st)
                        (Driver.processed st) (Driver.parsed_ok st)
                        (wrap64u (Driver.lines_total st + 1)) (Driver.last_ts_us st))
             (store w) (q w) (feed w)).

Fixpoint on_lines (w : world) (lines : list string) : option world :=
  match lines with
  | [] => Some w
  | l :: ls => w' ← on_line w l; on_lines w' ls
  end.

(** The forced flush at the end of [run_one_replay_session]. *)
Definition final_flush (w : world) : option world :=
  let st := drv w in
  let json := to_json (Driver.book st) depth in
  let store1 :=
    if negb (String.eqb (Driver.book_symbol st) "")
    then SnapshotStore.publish_snapshot (store w) (Driver.book_symbol st) json
    else SnapshotStore.publish_snapshot_global (store w) json in
  q1 ← (if pg && negb (String.eqb (Driver.book_symbol st) "") && (Driver.last_ts_us st >? 0)
        then tob ← BookView.top_of_book (Driver.book st) price_scale;
             Writer.enqueue_snapshot_write pg (q w) max_q (Driver.last_ts_us st)
               (Driver.book_symbol st) tob
        else Some (q w));
  let feed1 :=
    match feed w with
    | Some fw =>
        if negb (String.eqb (Driver.book_symbol st) "") && (Driver.last_ts_us st >? 0)
        then Some (write_feed fw
                     (mkFeedLine (Driver.last_ts_us st) (Driver.book_symbol st)
                                 (Driver.processed st) depth json))
        else Some fw
    | None => None
    end in
  Some (mk st store1 q1 feed1).

(** [run_one_replay_session] from the connection on, over the chunks that
    [read_some] returns until end of stream, up to the forced flush: the
    per-session state starts afresh, every framed line goes through
    [on_line], then the trailing partial line, then the flush. *)
Definition run_one_replay_session (store0 : SnapshotStore.t) (q0 : list SnapshotWrite)
    (feed0 : option JsonlWriter) (chunks : list string) : option world :=
  let w0 := mk Driver.init store0 q0 feed0 in
  let r := Replay.on_chunks "" chunks in
  w1 ← on_lines w0 r.1;
  w2 ← (if negb (String.eqb r.2 "") && below_max w1
        then r' ← handle_line w1 r.2; Some r'.2
        else Some w1);
  if (Driver.processed (drv w2) >? 0) &&
     ((snapshot_every <=? 0) ||
      negb (Z.rem (Driver.processed (drv w2)) snapshot_every =? 0))
  then final_flush w2
  else Some w2.

(** What a subscriber of the session's symbol loads from the store. *)
Definition served (w : world) : option string :=
  if String.eqb (Driver.book_symbol (drv w)) ""
  then SnapshotStore.load_snapshot_global (store w)
  else SnapshotStore.load_snapshot (store w) (Driver.book_symbol (drv w)).

(** A row of the queue is either one of [q0] or one that carries the
    session's symbol, not empty, and a positive timestamp. *)
Definition keyed (q0 : list SnapshotWrite) (st : Driver.state) (x : SnapshotWrite) : Prop :=
  x ∈ q0 ∨
  (Driver.has_symbol st = true ∧ sw_symbol x = Driver.book_symbol st ∧ 0 < sw_ts_us x).

(** What holds between the lines of a session. *)
Definition inv (store0 : SnapshotStore.t) (q0 : list SnapshotWrite)
    (feed0 : option JsonlWriter) (w : world) : Prop :=
  session_ok (drv w) ∧
  (Driver.processed (drv w) = 0 → store w = store0 ∧ q w = q0 ∧ feed w = feed0) ∧
  (0 < Driver.processed (drv w) → 0 < snapshot_every →
   Z.rem (Driver.processed (drv w)) snapshot_every = 0 →
   served w = Some (to_json (Driver.book (drv w)) depth)) ∧
  Forall (keyed q0 (drv w)) (q w) ∧
  (pg = false → q w = q0) ∧
  (feed0 = None → feed w = None).

End session.

End Session.

(** ** The writer thread beside the producer ([tcp_main_ws.cpp], [main]) *)

Module WriterThread.

(** One turn of the writer thread's loop with [stop] unset, under the
    mutex: on an empty queue it goes back to waiting, otherwise it takes
    the front item, which it then hands to [write_snapshot]. *)
Definition take_front (q : list SnapshotWrite) : list SnapshotWrite * option SnapshotWrite :=
  match q with
  | [] => ([], None)
  | item :: q' => (q', Some item)
  end.

(** The critical sections in the order in which the mutex grants them:
    the engine thread enqueues a row, or the writer thread takes a turn. *)
Inductive turn :=
  | Produce (x : SnapshotWrite)
  | Consume.

(** The queue and the rows handed to [write_snapshot] so far. *)
Definition step (max_q : nat) (s : list SnapshotWrite * list SnapshotWrite) (t : turn)
    : option (list SnapshotWrite * list SnapshotWrite) :=
  match t with
  | Produce x =>
      q' ← Writer.enqueue_snapshot_write true s.1 max_q (sw_ts_us x) (sw_symbol x) (sw_tob x);
      Some (q', s.2)
  | Consume =>
      match take_front s.1 with
      | (q', Some item) => Some (q', s.2 ++ [item])
      | (q', None) => Some (q', s.2)
      end
  end.

Fixpoint run (max_q : nat) (s : list SnapshotWrite * list SnapshotWrite) (ts : list turn)
    : option (list SnapshotWrite * list SnapshotWrite) :=
  match ts with
  | [] => Some s
  | t :: ts' => s' ← step max_q s t; run max_q s' ts'
  end.

(** The rows produced in a schedule, in order. *)
Fixpoint produced (ts : list turn) : list SnapshotWrite :=
  match ts with
  | [] => []
  | Produce x :: ts' => x :: produced ts'
  | Consume :: ts' => produced ts'
  end.

End WriterThread.

(** Whether [c] occurs in [s]. *)
Fixpoint occurs (c : ascii) (s : string) : bool :=
  match s with
  | EmptyString => false
  | String x r => Ascii.eqb x c || occurs c r
  end.

(** The JSON object with the single member [key], an integer. *)
Definition int_member (key : string) (n : Z) : string :=
  "{" +:+ WsSession.quoted key +:+ ":" +:+ WsSession.to_string n +:+ "}".

(** The JSON object with the single member [key], a string. *)
Definition string_member (key v : string) : string :=
  "{" +:+ WsSession.quoted key +:+ ":" +:+ WsSession.quoted v +:+ "}".

(** ** The acknowledgment frame as the wire protocol words it

    [{"type":"ack","symbol":…,"depth":…,"push_ms":…}]: a JSON object with
    these four members in this order, a string between double quotes, an
    integer in decimal, members separated by commas and a colon after
    each name.  This is written from the protocol, not from
    [make_ack_json], and is what the frames of the session are compared
    with. *)

Module AckFrame.

Inductive value :=
  | Str (s : string)
  | Int (z : Z).

Definition render_string (s : string) : string :=
  String "034" (s +:+ String "034" "").

Definition render_value (v : value) : string :=
  match v with
  | Str s => render_string s
  | Int z => pretty z
  end.

Definition render_member (m : string * value) : string :=
  render_string m.1 +:+ ":" +:+ render_value m.2.

Fixpoint render_members (ms : list (string * value)) : string :=
  match ms with
  | [] => ""
  | [m] => render_member m
  | m :: ms' => render_member m +:+ "," +:+ render_members ms'
  end.

Definition render_object (ms : list (string * value)) : string :=
  "{" +:+ render_members ms +:+ "}".

Definition ack (symbol : string) (depth push_ms : Z) : string :=
  render_object [("type", Str "ack"); ("symbol", Str symbol);
                 ("depth", Int depth); ("push_ms", Int push_ms)].

End AckFrame.

(** ** Scenario data used by the worked examples *)

(** The side character that agrees with a recorded side. *)
Definition side_char (is_buy : bool) : ascii := if is_buy then "B" else "A".

(** The book of scenario S3 before the cancel: two bids resting at 100. *)
Definition book_S3 : MboOrderBook :=
  book_of [ev "A" "B" 100 5 1; ev "A" "B" 100 7 2].

(** The book of scenario S4 before the modify: two asks resting at 200. *)
Definition book_S4 : MboOrderBook :=
  book_of [ev "A" "A" 200 4 10; ev "A" "A" 200 6 11].

(** A bid with quantity 5 resting alone at 100. *)
Definition book_one_bid : MboOrderBook := book_of [ev "A" "B" 100 5 1].

Definition tob_none : TopOfBook :=
  mkTopOfBook false false PrimFloat.zero 0 PrimFloat.zero 0 PrimFloat.zero PrimFloat.zero.

Definition item (ts : Z) : SnapshotWrite := mkSnapshotWrite ts "CLX5" tob_none.

(** Three samples: one in bucket 0 and two in bucket 5. *)
Definition hist_1_32_40 : Pow2Histogram.t :=
  foldl Pow2Histogram.add Pow2Histogram.init [1; 32; 40].

(** A subscribe frame asking for symbol ESZ5, depth 20 and push period 7. *)
Definition msg_subscribe : string :=
  "{" +:+ WsSession.quoted "type" +:+ ":" +:+ WsSession.quoted "subscribe" +:+ "," +:+
  WsSession.quoted "symbol" +:+ ": " +:+ WsSession.quoted "ESZ5" +:+ "," +:+
  WsSession.quoted "depth" +:+ ":20," +:+ WsSession.quoted "push_ms" +:+ ": 7}".

(** A toy feed: the first line carries no symbol, the second one does. *)
Definition toy_parser (line : string) : option MboEvent :=
  if String.eqb line "first" then Some (mkEvent "" "A" "B" 100 5 1 "")
  else if String.eqb line "second" then Some (mkEvent "" "A" "B" 101 3 2 "CLX5")
  else None.

Definition after_first : Driver.state :=
  default Driver.init
    (Driver.handle_lines toy_parser (λ _, 0) Driver.init ["first"]).

Definition after_second : Driver.state :=
  default Driver.init
    (Driver.handle_lines toy_parser (λ _, 0) Driver.init ["first"; "second"]).

(** A feed line and number conversions that suit it. *)
Definition line_CLX5 : string :=
  "r,e,160,1,2,A,B,64.83,5,0,42,130,0,7,CLX5".
Definition toy_from_chars (s : string) : option Z :=
  if WsSession.isdigit (Csv.first_char_or_N s) then Some (WsSession.digits s 0) else None.
Definition toy_stod (s : string) : option float :=
  if String.eqb s "64.83" then Some 0x1.0351eb851eb85p+6%float else None.
Definition toy_llround (x : float) : Z :=
  match Prim2SF (PrimFloat.add x 0.5%float) with
  | S754_finite false m e => Z.shiftl (Z.pos m) e
  | _ => 0
  end.

(** A printer for the toy feed, and the feed in two chunks that cut its
    first line. *)
Definition toy_to_json (b : MboOrderBook) (depth : Z) : string :=
  "{" +:+ symbol_ b +:+ "}".
Definition stamped_parser (line : string) : option MboEvent :=
  e ← toy_parser line;
  Some (mkEvent "t" (e_action e) (e_side e) (e_price e) (e_size e) (e_order_id e)
                (e_symbol e)).
Definition toy_chunks : list string :=
  ["fir"; "st" +:+ Replay.nl +:+ "second" +:+ Replay.nl].

(** * Theorems *)

(** ** Order book: auxiliary facts *)

Section list_erase.
Implicit Types (l : list nat) (h : nat).

Lemma list_erase_Some h l l' :
  Book.list_erase h l = Some l' →
  ∃ l1 l2, l = l1 ++ h :: l2 ∧ l' = l1 ++ l2 ∧ h ∉ l1.
Proof.
  revert l'. induction l as [|x t IH]; intros l' H; simpl in H; [done|].
  destruct (decide (x = h)) as [->|Hne].
  - injection H as <-. exists [], t. split_and!; [done..|]. apply not_elem_of_nil.
  - destruct (Book.list_erase h t) as [t'|] eqn:E; simpl in H; [|done].
    injection H as <-. destruct (IH _ eq_refl) as (l1 & l2 & -> & -> & Hn).
    exists (x :: l1), l2. split_and!; [done..|].
    rewrite elem_of_cons. intros [->|?]; done.
Qed.

Lemma list_erase_elem h l :
  h ∈ l → is_Some (Book.list_erase h l).
Proof.
  induction l as [|x t IH]; intros H; [by apply elem_of_nil in H|].
  simpl. destruct (decide (x = h)); [by eexists|].
  apply elem_of_cons in H as [->|H]; [done|].
  destruct (IH H) as [t' ->]. by eexists.
Qed.

Lemma list_erase_NoDup h l l' :
  NoDup l → Book.list_erase h l = Some l' →
  NoDup l' ∧ ∀ x, x ∈ l' ↔ x ∈ l ∧ x ≠ h.
Proof.
  intros Hnd H. destruct (list_erase_Some _ _ _ H) as (l1 & l2 & -> & -> & Hn).
  apply NoDup_app in Hnd as (Hnd1 & Hdisj & Hnd2).
  apply NoDup_cons in Hnd2 as [Hh2 Hnd2].
  split.
  - apply NoDup_app. split_and!; [done| |done].
    intros x Hx1 Hx2. apply (Hdisj x Hx1). by apply elem_of_cons; right.
  - intros x. rewrite !elem_of_app, elem_of_cons. split.
    + intros [Hx|Hx]; (split; [tauto|]); intros ->; done.
    + intros [[Hx|[->|Hx]] Hne]; tauto.
Qed.
End list_erase.

Section book_projections.
Implicit Types (b : MboOrderBook) (s : bool) (m : gmap Z (list nat)).

Lemma side_of_set_side_eq b s m : Book.side_of (Book.set_side b s m) s = m.
Proof. by destruct s. Qed.

Lemma side_of_set_side_ne b s s' m :
  s ≠ s' → Book.side_of (Book.set_side b s m) s' = Book.side_of b s'.
Proof. by destruct s, s'. Qed.

Lemma symbol_set_side b s m : symbol_ (Book.set_side b s m) = symbol_ b.
Proof. by destruct s. Qed.

Lemma index_set_side b s m : index_ (Book.set_side b s m) = index_ b.
Proof. by destruct s. Qed.

Lemma nodes_set_side b s m : nodes_ (Book.set_side b s m) = nodes_ b.
Proof. by destruct s. Qed.

Lemma next_set_side b s m : next_ (Book.set_side b s m) = next_ b.
Proof. by destruct s. Qed.

Lemma side_of_set_index b ix s :
  Book.side_of (Book.set_index b ix) s = Book.side_of b s.
Proof. by destruct s. Qed.

Lemma side_of_set_nodes b ns s :
  Book.side_of (Book.set_nodes b ns) s = Book.side_of b s.
Proof. by destruct s. Qed.
End book_projections.

(** What [erase_node] leaves behind, field by field. *)
Lemma erase_node_spec b s px l h b1 :
  Book.erase_node b s px l h = Some b1 →
  ∃ l', Book.list_erase h l = Some l' ∧
        symbol_ b1 = symbol_ b ∧ index_ b1 = index_ b ∧ next_ b1 = next_ b ∧
        nodes_ b1 = delete h (nodes_ b) ∧
        Book.side_of b1 (negb s) = Book.side_of b (negb s) ∧
        Book.side_of b1 s =
          match l' with
          | [] => delete px (Book.side_of b s)
          | _ => <[px := l']> (Book.side_of b s)
          end.
Proof.
  unfold Book.erase_node. intros H.
  destruct (Book.list_erase h l) as [l'|]; simpl in H; [|done].
  injection H as <-. exists l'. by destruct s.
Qed.

Lemma push_back_spec b s px o b2 it :
  Book.push_back b s px o = (b2, it) →
  it = next_ b ∧
  symbol_ b2 = symbol_ b ∧ index_ b2 = index_ b ∧ next_ b2 = S (next_ b) ∧
  nodes_ b2 = <[next_ b := o]> (nodes_ b) ∧
  Book.side_of b2 (negb s) = Book.side_of b (negb s) ∧
  Book.side_of b2 s =
    <[px := default [] (Book.side_of b s !! px) ++ [next_ b]]> (Book.side_of b s).
Proof.
  unfold Book.push_back. intros H. injection H as <- <-. by destruct s.
Qed.

Lemma negb_ne (s : bool) : s ≠ negb s.
Proof. by destruct s. Qed.

Lemma bool_eq_or_negb (s s' : bool) : s' = s ∨ s' = negb s.
Proof. destruct s, s'; auto. Qed.

(** A node is linked in at most one level. *)
Lemma wf_handle_unique b s1 px1 l1 s2 px2 l2 h :
  wf b →
  Book.side_of b s1 !! px1 = Some l1 → h ∈ l1 →
  Book.side_of b s2 !! px2 = Some l2 → h ∈ l2 →
  s1 = s2 ∧ px1 = px2.
Proof.
  intros Hwf H1 Hh1 H2 Hh2.
  destruct (wf_level b Hwf _ _ _ _ H1 Hh1) as (o1 & Hn1 & _ & Hi1).
  destruct (wf_level b Hwf _ _ _ _ H2 Hh2) as (o2 & Hn2 & _ & Hi2).
  simplify_eq. done.
Qed.

(** An indexed order is the only entry that designates its node. *)
Lemma wf_index_inj b id1 r1 id2 r2 :
  wf b → index_ b !! id1 = Some r1 → index_ b !! id2 = Some r2 →
  r_it r1 = r_it r2 → id1 = id2.
Proof.
  intros Hwf H1 H2 Heq.
  destruct (wf_index b Hwf _ _ H1) as (? & o1 & _ & _ & Hn1 & <- & _).
  destruct (wf_index b Hwf _ _ H2) as (? & o2 & _ & _ & Hn2 & <- & _).
  rewrite Heq in Hn1. by simplify_eq.
Qed.

(** Unlinking an indexed order and dropping its entry keeps the book
    well formed. *)
Lemma unlink_wf b id r l l' b' :
  wf b →
  index_ b !! id = Some r →
  Book.side_of b (r_is_buy r) !! r_price r = Some l →
  Book.list_erase (r_it r) l = Some l' →
  index_ b' = delete id (index_ b) →
  next_ b' = next_ b →
  nodes_ b' = delete (r_it r) (nodes_ b) →
  Book.side_of b' (negb (r_is_buy r)) = Book.side_of b (negb (r_is_buy r)) →
  Book.side_of b' (r_is_buy r) =
    match l' with
    | [] => delete (r_price r) (Book.side_of b (r_is_buy r))
    | _ => <[r_price r := l']> (Book.side_of b (r_is_buy r))
    end →
  wf b'.
Proof.
  intros Hwf Hid Hl He Hix Hnx Hns Hother Hside.
  destruct r as [s px h]; simpl in *.
  destruct (wf_nodup b Hwf _ _ _ Hl) as [_ Hnd].
  destruct (list_erase_NoDup _ _ _ Hnd He) as [Hnd' Hin'].
  destruct (wf_index b Hwf _ _ Hid) as (lx & o & Hlx & Hhl & Hno & Hoid & Hopx).
  simpl in *. subst id px. assert (lx = l) as -> by congruence. clear Hlx.
  (* lookups in the levels of [b'] *)
  assert (Hlk : ∀ s0 px0 l0, Book.side_of b' s0 !! px0 = Some l0 →
            (s0 = s ∧ px0 = o_price o ∧ l0 = l' ∧ l' ≠ []) ∨
            ((s0 ≠ s ∨ px0 ≠ o_price o) ∧ Book.side_of b s0 !! px0 = Some l0)).
  { intros s0 px0 l0 H0. destruct (bool_eq_or_negb s s0) as [->| ->].
    - rewrite Hside in H0. destruct (decide (px0 = o_price o)) as [->|Hne].
      + left. destruct l'; [by rewrite lookup_delete_eq in H0|].
        rewrite lookup_insert_eq in H0. by simplify_eq.
      + right. split; [by right|].
        destruct l'; [by rewrite lookup_delete_ne in H0|by rewrite lookup_insert_ne in H0].
    - right. rewrite Hother in H0. split; [|done]. left. by destruct s. }
  split.
  - intros id' r' Hr'. rewrite Hix in Hr'.
    apply lookup_delete_Some in Hr' as [Hne Hr'].
    destruct (wf_index b Hwf _ _ Hr') as (l0 & o0 & Hl0 & Hh0 & Hn0 & Hoid0 & Hopx0).
    assert (r_it r' ≠ h) as Hhne.
    { intros Heq. apply Hne. symmetry. by eapply (wf_index_inj b _ _ _ _ Hwf Hr' Hid). }
    destruct (decide (r_is_buy r' = s ∧ r_price r' = o_price o)) as [[Es Ep]|Hn].
    + rewrite Es, Ep in *. simplify_eq. exists l', o0.
      assert (r_it r' ∈ l') as Hin by (apply Hin'; done).
      split_and!; try done.
      * rewrite Hside. destruct l'; [by apply elem_of_nil in Hin|].
        apply lookup_insert_eq.
      * rewrite Hns. by rewrite lookup_delete_ne.
    + exists l0, o0. split_and!; try done.
      * destruct (bool_eq_or_negb s (r_is_buy r')) as [E|E]; rewrite E in *.
        -- rewrite Hside. assert (r_price r' ≠ o_price o) by tauto.
           destruct l'; [by rewrite lookup_delete_ne|by rewrite lookup_insert_ne].
        -- by rewrite Hother.
      * rewrite Hns. by rewrite lookup_delete_ne.
  - intros s0 px0 l0 h0 H0 Hh0.
    destruct (Hlk _ _ _ H0) as [(-> & -> & -> & _)|[Hne Hold]].
    + apply Hin' in Hh0 as [Hh0 Hh0ne].
      destruct (wf_level b Hwf _ _ _ _ Hl Hh0) as (o0 & Hn0 & Hp0 & Hi0).
      exists o0. split_and!; [by rewrite Hns, lookup_delete_ne|done|].
      rewrite Hix. rewrite lookup_delete_ne; [done|].
      intros Heq. rewrite <- Heq in Hi0. by simplify_eq.
    + destruct (wf_level b Hwf _ _ _ _ Hold Hh0) as (o0 & Hn0 & Hp0 & Hi0).
      assert (h0 ≠ h) as Hhne.
      { intros ->. destruct (wf_handle_unique b _ _ _ _ _ _ _ Hwf Hold Hh0 Hl Hhl). tauto. }
      exists o0. split_and!; [by rewrite Hns, lookup_delete_ne|done|].
      rewrite Hix. rewrite lookup_delete_ne; [done|].
      intros Heq. rewrite <- Heq in Hi0. by simplify_eq.
  - intros s0 px0 l0 H0.
    destruct (Hlk _ _ _ H0) as [(-> & -> & -> & Hne)|[_ Hold]]; [done|].
    by apply (wf_nodup b Hwf _ _ _ Hold).
  - intros h0 o0 H0. rewrite Hns in H0. apply lookup_delete_Some in H0 as [_ H0].
    rewrite Hnx. by apply (wf_fresh b Hwf _ _ H0).
Qed.

(** Linking a fresh node at the tail of a level, for an id that the index
    does not hold, keeps the book well formed. *)
Lemma link_wf b b' id s px sz :
  wf b →
  index_ b !! id = None →
  index_ b' = <[id := mkOrderRef s px (next_ b)]> (index_ b) →
  next_ b' = S (next_ b) →
  nodes_ b' = <[next_ b := mkOrder id px sz]> (nodes_ b) →
  Book.side_of b' (negb s) = Book.side_of b (negb s) →
  Book.side_of b' s =
    <[px := default [] (Book.side_of b s !! px) ++ [next_ b]]> (Book.side_of b s) →
  wf b'.
Proof.
  intros Hwf Hid Hix Hnx Hns Hother Hside.
  set (h := next_ b) in *.
  assert (Hfresh : nodes_ b !! h = None).
  { destruct (nodes_ b !! h) as [o|] eqn:E; [|done].
    apply (wf_fresh b Hwf) in E. unfold h in E. lia. }
  assert (Hnotin : ∀ s0 px0 l0, Book.side_of b s0 !! px0 = Some l0 → h ∉ l0).
  { intros s0 px0 l0 H0 Hin.
    destruct (wf_level b Hwf _ _ _ _ H0 Hin) as (o & Hn & _). congruence. }
  assert (Hlk : ∀ s0 px0 l0, Book.side_of b' s0 !! px0 = Some l0 →
            (s0 = s ∧ px0 = px ∧
             l0 = default [] (Book.side_of b s !! px) ++ [h]) ∨
            ((s0 ≠ s ∨ px0 ≠ px) ∧ Book.side_of b s0 !! px0 = Some l0)).
  { intros s0 px0 l0 H0. destruct (bool_eq_or_negb s s0) as [->| ->].
    - rewrite Hside in H0. destruct (decide (px0 = px)) as [->|Hne].
      + left. rewrite lookup_insert_eq in H0. by simplify_eq.
      + right. split; [by right|]. by rewrite lookup_insert_ne in H0.
    - right. rewrite Hother in H0. split; [|done]. left. by destruct s. }
  split.
  - intros id' r' Hr'. rewrite Hix in Hr'.
    apply lookup_insert_Some in Hr' as [[<- <-]|[Hne Hr']]; simpl.
    + eexists _, _. split_and!; [by rewrite Hside, lookup_insert_eq| |by rewrite Hns, lookup_insert_eq|done..].
      apply elem_of_app. right. by apply list_elem_of_singleton.
    + destruct (wf_index b Hwf _ _ Hr') as (l0 & o0 & Hl0 & Hh0 & Hn0 & Hoid0 & Hopx0).
      assert (r_it r' ≠ h) as Hhne by (intros Heq; rewrite Heq in Hn0; congruence).
      destruct (decide (r_is_buy r' = s ∧ r_price r' = px)) as [[Es Ep]|Hn].
      * exists (l0 ++ [h]), o0. rewrite Es, Ep in *.
        split_and!; try done.
        -- rewrite Hside, Hl0. apply lookup_insert_eq.
        -- apply elem_of_app. by left.
        -- by rewrite Hns, lookup_insert_ne.
      * exists l0, o0. split_and!; try done.
        -- destruct (bool_eq_or_negb s (r_is_buy r')) as [E|E]; rewrite E in *.
           ++ rewrite Hside. assert (r_price r' ≠ px) by tauto.
              by rewrite lookup_insert_ne.
           ++ by rewrite Hother.
        -- by rewrite Hns, lookup_insert_ne.
  - intros s0 px0 l0 h0 H0 Hh0.
    destruct (Hlk _ _ _ H0) as [(-> & -> & ->)|[Hne Hold]].
    + apply elem_of_app in Hh0 as [Hh0|Hh0].
      * destruct (Book.side_of b s !! px) as [q|] eqn:Eq; simpl in Hh0;
          [|by apply elem_of_nil in Hh0].
        destruct (wf_level b Hwf _ _ _ _ Eq Hh0) as (o0 & Hn0 & Hp0 & Hi0).
        assert (h0 ≠ h) by (intros ->; congruence).
        exists o0. split_and!; [by rewrite Hns, lookup_insert_ne|done|].
        rewrite Hix, lookup_insert_ne; [done|]. intros ->. congruence.
      * apply list_elem_of_singleton in Hh0 as ->.
        eexists. split_and!; [by rewrite Hns, lookup_insert_eq|done|].
        simpl. by rewrite Hix, lookup_insert_eq.
    + destruct (wf_level b Hwf _ _ _ _ Hold Hh0) as (o0 & Hn0 & Hp0 & Hi0).
      assert (h0 ≠ h) by (intros ->; congruence).
      exists o0. split_and!; [by rewrite Hns, lookup_insert_ne|done|].
      rewrite Hix, lookup_insert_ne; [done|]. intros ->. congruence.
  - intros s0 px0 l0 H0.
    destruct (Hlk _ _ _ H0) as [(-> & -> & ->)|[_ Hold]];
      [|by apply (wf_nodup b Hwf _ _ _ Hold)].
    split; [by destruct (default [] (Book.side_of b s !! px))|].
    apply NoDup_app. split_and!.
    + destruct (Book.side_of b s !! px) as [q|] eqn:Eq; simpl; [|apply NoDup_nil_2].
      by apply (wf_nodup b Hwf _ _ _ Eq).
    + intros x Hx Hx'. apply list_elem_of_singleton in Hx' as ->.
      destruct (Book.side_of b s !! px) as [q|] eqn:Eq; simpl in Hx;
        [by apply (Hnotin _ _ _ Eq)|by apply elem_of_nil in Hx].
    + apply NoDup_singleton.
  - intros h0 o0 H0. rewrite Hns in H0. rewrite Hnx.
    apply lookup_insert_Some in H0 as [[<- _]|[_ H0]]; [unfold h; lia|].
    apply (wf_fresh b Hwf) in H0. lia.
Qed.

(** Rewriting the quantity of a live node in place keeps the book well
    formed. *)
Lemma requantify_wf b b' h o q :
  wf b →
  nodes_ b !! h = Some o →
  b' = Book.set_nodes b (<[h := mkOrder (o_order_id o) (o_price o) q]> (nodes_ b)) →
  wf b'.
Proof.
  intros Hwf Hn ->. split.
  - intros id r Hr. simpl in Hr.
    destruct (wf_index b Hwf _ _ Hr) as (l0 & o0 & Hl0 & Hh0 & Hn0 & Hoid0 & Hopx0).
    rewrite side_of_set_nodes. simpl.
    destruct (decide (r_it r = h)) as [E|E].
    + rewrite E in *. eexists l0, _. rewrite lookup_insert_eq.
      split_and!; [done..| |]; simpl; congruence.
    + exists l0, o0. by rewrite lookup_insert_ne.
  - intros s px l h0 Hl Hh0. rewrite side_of_set_nodes in Hl. simpl.
    destruct (wf_level b Hwf _ _ _ _ Hl Hh0) as (o0 & Hn0 & Hp0 & Hi0).
    destruct (decide (h0 = h)) as [->|E].
    + eexists. rewrite lookup_insert_eq. split_and!; [done|..]; simpl; congruence.
    + exists o0. by rewrite lookup_insert_ne.
  - intros s px l Hl. rewrite side_of_set_nodes in Hl. by apply (wf_nodup b Hwf _ _ _ Hl).
  - intros h0 o0 H0. simpl in *.
    apply lookup_insert_Some in H0 as [[<- _]|[_ H0]]; by eapply (wf_fresh b Hwf).
Qed.

Lemma new_wf sym : wf (Book.new sym).
Proof.
  split.
  - intros id r H. cbn in H. by rewrite lookup_empty in H.
  - intros [] px l h H; cbn in H; by rewrite lookup_empty in H.
  - intros [] px l H; cbn in H; by rewrite lookup_empty in H.
  - intros h o H. cbn in H. by rewrite lookup_empty in H.
Qed.

Lemma clear_wf b : wf (Book.clear_ b).
Proof.
  split.
  - intros id r H. cbn in H. by rewrite lookup_empty in H.
  - intros [] px l h H; cbn in H; by rewrite lookup_empty in H.
  - intros [] px l H; cbn in H; by rewrite lookup_empty in H.
  - intros h o H. cbn in H. by rewrite lookup_empty in H.
Qed.

(** The outcome of erasing the node of an indexed order: where it stood in
    its level, and the book that is left. *)
Lemma erase_indexed b id r :
  wf b →
  index_ b !! id = Some r →
  ∃ l1 l2 o b1,
    Book.side_of b (r_is_buy r) !! r_price r = Some (l1 ++ r_it r :: l2) ∧
    nodes_ b !! r_it r = Some o ∧ o_order_id o = id ∧ o_price o = r_price r ∧
    Book.erase_node b (r_is_buy r) (r_price r) (l1 ++ r_it r :: l2) (r_it r) = Some b1 ∧
    symbol_ b1 = symbol_ b ∧ index_ b1 = index_ b ∧ next_ b1 = next_ b ∧
    nodes_ b1 = delete (r_it r) (nodes_ b) ∧
    Book.side_of b1 (negb (r_is_buy r)) = Book.side_of b (negb (r_is_buy r)) ∧
    Book.side_of b1 (r_is_buy r) =
      match l1 ++ l2 with
      | [] => delete (r_price r) (Book.side_of b (r_is_buy r))
      | _ => <[r_price r := l1 ++ l2]> (Book.side_of b (r_is_buy r))
      end ∧
    wf (Book.set_index b1 (delete id (index_ b1))) ∧
    Book.list_erase (r_it r) (l1 ++ r_it r :: l2) = Some (l1 ++ l2).
Proof.
  intros Hwf Hid.
  destruct (wf_index b Hwf _ _ Hid) as (l & o & Hl & Hh & Hn & Hoid & Hopx).
  destruct (list_erase_elem _ _ Hh) as [l' He].
  destruct (list_erase_Some _ _ _ He) as (l1 & l2 & -> & -> & _).
  destruct (Book.erase_node b (r_is_buy r) (r_price r) (l1 ++ r_it r :: l2) (r_it r))
    as [b1|] eqn:E; [|by unfold Book.erase_node in E; rewrite He in E].
  destruct (erase_node_spec _ _ _ _ _ _ E) as (l' & He' & Hsy & Hix & Hnx & Hns & Ho & Hs).
  assert (l' = l1 ++ l2) as -> by congruence.
  exists l1, l2, o, b1. split_and!; try done.
  eapply (unlink_wf b id r _ (l1 ++ l2)); try done; simpl;
    rewrite ?side_of_set_index; congruence.
Qed.

(** [add_] never fails on a well-formed book and keeps it well formed. *)
Lemma add_wf b e :
  wf b → ∃ b', Book.add_ b e = Some b' ∧ wf b' ∧ symbol_ b' = symbol_ b.
Proof.
  intros Hwf. unfold Book.add_.
  set (id := e_order_id e). set (s := Book.is_buy_side (e_side e)).
  assert (∃ bm, match index_ b !! id with
                | Some oldRef =>
                    b' ← match Book.side_of b (r_is_buy oldRef) !! r_price oldRef with
                         | Some l => Book.erase_node b (r_is_buy oldRef) (r_price oldRef) l (r_it oldRef)
                         | None => Some b
                         end;
                    Some (Book.set_index b' (delete id (index_ b')))
                | None => Some b
                end = Some bm ∧ wf bm ∧ index_ bm !! id = None ∧ symbol_ bm = symbol_ b)
    as (bm & -> & Hwfm & Hnone & Hsym).
  { destruct (index_ b !! id) as [r|] eqn:Hid; [|by exists b].
    destruct (erase_indexed b id r Hwf Hid)
      as (l1 & l2 & o & b1 & Hl & _ & _ & _ & He & Hsy & Hix & _ & _ & _ & _ & Hwf1 & _).
    rewrite Hl. simpl. rewrite He. simpl. eexists. split_and!; [done..| |done].
    simpl. apply lookup_delete_eq. }
  cbn [mbind option_bind].
  destruct (Book.push_back bm s (e_price e) (mkOrder id (e_price e) (e_size e)))
    as [b2 it] eqn:Ep.
  destruct (push_back_spec _ _ _ _ _ _ Ep) as (-> & Hsy & Hix & Hnx & Hns & Ho & Hs).
  eexists. split; [done|]. split; [|simpl; congruence].
  unfold Book.emplace. rewrite Hix, Hnone.
  eapply (link_wf bm _ id s (e_price e) (e_size e)); try done;
    by rewrite side_of_set_index.
Qed.

(** [cancel_] on an indexed order, by the quantity it leaves. *)
Lemma cancel_outcome b e r :
  wf b →
  index_ b !! e_order_id e = Some r →
  ∃ l1 l2 o,
    Book.side_of b (r_is_buy r) !! r_price r = Some (l1 ++ r_it r :: l2) ∧
    nodes_ b !! r_it r = Some o ∧
    o_order_id o = e_order_id e ∧ o_price o = r_price r ∧
    let qty := if e_size e >=? o_qty o then 0 else wrap32 (o_qty o - e_size e) in
    if qty =? 0 then
      ∃ b', Book.cancel_ b e = Some b' ∧ wf b' ∧
        symbol_ b' = symbol_ b ∧ next_ b' = next_ b ∧
        index_ b' = delete (e_order_id e) (index_ b) ∧
        nodes_ b' = delete (r_it r) (nodes_ b) ∧
        Book.side_of b' (negb (r_is_buy r)) = Book.side_of b (negb (r_is_buy r)) ∧
        Book.side_of b' (r_is_buy r) =
          match l1 ++ l2 with
          | [] => delete (r_price r) (Book.side_of b (r_is_buy r))
          | _ => <[r_price r := l1 ++ l2]> (Book.side_of b (r_is_buy r))
          end
    else
      Book.cancel_ b e =
        Some (Book.set_nodes b
                (<[r_it r := mkOrder (o_order_id o) (o_price o) qty]> (nodes_ b))) ∧
      wf (Book.set_nodes b
            (<[r_it r := mkOrder (o_order_id o) (o_price o) qty]> (nodes_ b))).
Proof.
  intros Hwf Hid.
  destruct (erase_indexed b _ r Hwf Hid)
    as (l1 & l2 & o & b1 & Hl & Hn & Hoid & Hopx & He & Hsy & Hix & Hnx & Hns & Ho & Hs & Hwf1 & _).
  exists l1, l2, o. split_and!; try done.
  unfold Book.cancel_. rewrite Hid, Hl, Hn. cbn [mbind option_bind].
  cbv zeta.
  destruct ((if e_size e >=? o_qty o then 0 else wrap32 (o_qty o - e_size e)) =? 0) eqn:Eq.
  - rewrite He. cbn [mbind option_bind]. eexists. split; [done|].
    split; [done|]. simpl. rewrite !side_of_set_index. by rewrite Hix.
  - split; [done|]. eapply requantify_wf; [exact Hwf|exact Hn|reflexivity].
Qed.

Lemma cancel_wf b e :
  wf b → ∃ b', Book.cancel_ b e = Some b' ∧ wf b' ∧ symbol_ b' = symbol_ b.
Proof.
  intros Hwf. destruct (index_ b !! e_order_id e) as [r|] eqn:Hid.
  - destruct (cancel_outcome b e r Hwf Hid) as (l1 & l2 & o & _ & _ & _ & _ & H).
    cbv zeta in H.
    destruct ((if e_size e >=? o_qty o then 0 else wrap32 (o_qty o - e_size e)) =? 0).
    + destruct H as (b' & ? & ? & ? & _). by exists b'.
    + destruct H as [? ?]. by eexists.
  - exists b. unfold Book.cancel_. by rewrite Hid.
Qed.

(** [modify_] on an indexed order whose side agrees with the event, by the
    branch taken. *)
Lemma modify_outcome b e r :
  wf b →
  index_ b !! e_order_id e = Some r →
  Book.is_buy_side (e_side e) = r_is_buy r →
  ∃ l1 l2 o,
    Book.side_of b (r_is_buy r) !! r_price r = Some (l1 ++ r_it r :: l2) ∧
    nodes_ b !! r_it r = Some o ∧
    o_order_id o = e_order_id e ∧ o_price o = r_price r ∧
    if negb (e_price e =? r_price r) then
      ∃ b', Book.modify_ b e = Some b' ∧ wf b' ∧
        symbol_ b' = symbol_ b ∧ next_ b' = S (next_ b) ∧
        index_ b' = <[e_order_id e := mkOrderRef (r_is_buy r) (e_price e) (next_ b)]> (index_ b) ∧
        nodes_ b' = <[next_ b := mkOrder (e_order_id e) (e_price e) (e_size e)]>
                      (delete (r_it r) (nodes_ b)) ∧
        Book.side_of b' (negb (r_is_buy r)) = Book.side_of b (negb (r_is_buy r)) ∧
        Book.side_of b' (r_is_buy r) =
          <[e_price e := default [] (Book.side_of b (r_is_buy r) !! e_price e) ++ [next_ b]]>
            (match l1 ++ l2 with
             | [] => delete (r_price r) (Book.side_of b (r_is_buy r))
             | _ => <[r_price r := l1 ++ l2]> (Book.side_of b (r_is_buy r))
             end)
    else if e_size e >? o_qty o then
      ∃ b', Book.modify_ b e = Some b' ∧ wf b' ∧
        symbol_ b' = symbol_ b ∧ next_ b' = S (next_ b) ∧
        index_ b' = <[e_order_id e := mkOrderRef (r_is_buy r) (r_price r) (next_ b)]> (index_ b) ∧
        nodes_ b' = <[next_ b := mkOrder (e_order_id e) (r_price r) (e_size e)]>
                      (delete (r_it r) (nodes_ b)) ∧
        Book.side_of b' (negb (r_is_buy r)) = Book.side_of b (negb (r_is_buy r)) ∧
        Book.side_of b' (r_is_buy r) =
          <[r_price r := (l1 ++ l2) ++ [next_ b]]> (Book.side_of b (r_is_buy r))
    else
      Book.modify_ b e =
        Some (Book.set_nodes b
                (<[r_it r := mkOrder (o_order_id o) (o_price o) (e_size e)]> (nodes_ b))) ∧
      wf (Book.set_nodes b
            (<[r_it r := mkOrder (o_order_id o) (o_price o) (e_size e)]> (nodes_ b))).
Proof.
  intros Hwf Hid Hside.
  destruct (erase_indexed b _ r Hwf Hid)
    as (l1 & l2 & o & b1 & Hl & Hn & Hoid & Hopx & He & Hsy & Hix & Hnx & Hns & Ho & Hs & Hwf1 & Hle).
  exists l1, l2, o. split_and!; try done.
  set (bm := Book.set_index b1 (delete (e_order_id e) (index_ b1))) in *.
  assert (Hnone : index_ bm !! e_order_id e = None) by apply lookup_delete_eq.
  unfold Book.modify_. rewrite Hid, Hside, Bool.eqb_reflx, Hn.
  cbn [negb mbind option_bind]. cbv zeta.
  destruct (negb (e_price e =? r_price r)) eqn:Epx.
  - rewrite Hl, He. cbn [mbind option_bind].
    destruct (Book.push_back b1 (r_is_buy r) (e_price e)
                (mkOrder (e_order_id e) (e_price e) (e_size e))) as [b2 it] eqn:Ep.
    destruct (push_back_spec _ _ _ _ _ _ Ep) as (-> & Hsy2 & Hix2 & Hnx2 & Hns2 & Ho2 & Hs2).
    assert (e_price e ≠ r_price r) as Hne.
    { apply negb_true_iff in Epx. by apply Z.eqb_neq. }
    assert (Book.side_of b1 (r_is_buy r) !! e_price e =
            Book.side_of b (r_is_buy r) !! e_price e) as Hlk.
    { rewrite Hs. destruct (l1 ++ l2);
        [by rewrite lookup_delete_ne|by rewrite lookup_insert_ne]. }
    eexists. split; [done|]. split.
    + eapply (link_wf bm _ (e_order_id e) (r_is_buy r) (e_price e) (e_size e) Hwf1 Hnone);
        subst bm; simpl; rewrite ?side_of_set_index; try done.
      by rewrite Hix2, insert_delete_eq.
    + simpl. rewrite !side_of_set_index.
      rewrite Hs2, Hlk, Hs, Hnx2, Hnx, Hns2, Hns, Hix2, Hix.
      split_and!; congruence.
  - destruct (e_size e >? o_qty o) eqn:Esz.
    + rewrite Hl.
      rewrite Hle.
      cbn [mbind option_bind]. eexists. split; [done|]. split.
      * eapply (link_wf bm _ (e_order_id e) (r_is_buy r) (r_price r) (e_size e) Hwf1 Hnone);
          subst bm; simpl; rewrite ?side_of_set_index.
        -- rewrite index_set_side. simpl. by rewrite Hix, Hnx, insert_delete_eq.
        -- rewrite next_set_side. simpl. by rewrite Hnx.
        -- rewrite nodes_set_side. simpl. by rewrite Hnx, Hns.
        -- rewrite side_of_set_side_ne by apply negb_ne.
           rewrite Ho. by destruct (r_is_buy r).
        -- rewrite side_of_set_side_eq, Hs, Hnx.
           replace (Book.side_of _ (r_is_buy r)) with (Book.side_of b (r_is_buy r))
             by (by destruct (r_is_buy r)).
           destruct (l1 ++ l2) eqn:E1.
           ++ rewrite lookup_delete_eq. simpl. by rewrite insert_delete_eq.
           ++ rewrite lookup_insert_eq. simpl. by rewrite insert_insert_eq.
      * simpl. rewrite !side_of_set_index.
        destruct (r_is_buy r); simpl; split_and!; done.
    + split; [done|]. eapply requantify_wf; [exact Hwf|exact Hn|reflexivity].
Qed.

Lemma modify_wf b e :
  wf b → ∃ b', Book.modify_ b e = Some b' ∧ wf b' ∧ symbol_ b' = symbol_ b.
Proof.
  intros Hwf. destruct (index_ b !! e_order_id e) as [r|] eqn:Hid.
  - destruct (Bool.eqb (Book.is_buy_side (e_side e)) (r_is_buy r)) eqn:Es.
    + apply Bool.eqb_prop in Es.
      destruct (modify_outcome b e r Hwf Hid Es) as (l1 & l2 & o & _ & _ & _ & _ & H).
      destruct (negb (e_price e =? r_price r)).
      { destruct H as (b' & ? & ? & ? & _). by exists b'. }
      destruct (e_size e >? o_qty o).
      { destruct H as (b' & ? & ? & ? & _). by exists b'. }
      destruct H as [? ?]. by eexists.
    + exists b. unfold Book.modify_. by rewrite Hid, Es.
  - unfold Book.modify_. rewrite Hid. by apply add_wf.
Qed.

(** [apply] is defined on every well-formed book and keeps it well formed;
    the symbol never changes. *)
Lemma apply_wf b e :
  wf b → ∃ b', Book.apply b e = Some b' ∧ wf b' ∧ symbol_ b' = symbol_ b.
Proof.
  intros Hwf. unfold Book.apply.
  repeat match goal with
         | |- context [if ?c then _ else _] => destruct c
         end;
    eauto using add_wf, cancel_wf, modify_wf, clear_wf.
Qed.

Lemma apply_all_wf es : ∀ b,
  wf b → ∃ b', Book.apply_all b es = Some b' ∧ wf b' ∧ symbol_ b' = symbol_ b.
Proof.
  induction es as [|e es IH]; intros b Hwf; [by exists b|].
  destruct (apply_wf b e Hwf) as (b1 & H1 & Hwf1 & Hs1).
  destruct (IH b1 Hwf1) as (b2 & H2 & Hwf2 & Hs2).
  exists b2. simpl. rewrite H1. simpl. split_and!; [done..|congruence].
Qed.

(** Books reached from the empty book are well formed. *)
Lemma reachable_wf sym es b :
  Book.apply_all (Book.new sym) es = Some b → wf b.
Proof.
  intros H. destruct (apply_all_wf es _ (new_wf sym)) as (b' & H' & Hwf & _).
  congruence.
Qed.

(** ** Order book: the scenarios of the specification, run on the model *)

(** S2: two bids at 100 and one at 99. *)
Example scenario_two_level_bids :
  let b := book_of [ev "A" "B" 100 5 1; ev "A" "B" 100 3 2; ev "A" "B" 99 10 3] in
  (Book.level_sz b true 100, Book.level_ct b true 100) = (8, 2) ∧
  (Book.level_sz b true 99, Book.level_ct b true 99) = (10, 1).
Proof. split; reflexivity. Qed.

(** S3: a partial cancel keeps the order at the head of its level. *)
Example scenario_partial_cancel :
  let b := book_of [ev "A" "B" 100 5 1; ev "A" "B" 100 7 2; ev "C" "B" 100 2 1] in
  Book.level_orders b true 100 = [mkOrder 1 100 3; mkOrder 2 100 7] ∧
  (Book.level_sz b true 100, Book.level_ct b true 100) = (10, 2).
Proof. split; reflexivity. Qed.

(** S5: a modify with a new price moves the order to the new level. *)
Example scenario_price_change :
  let b := book_of [ev "A" "B" 100 5 1; ev "A" "B" 100 3 2; ev "M" "B" 99 3 1] in
  Book.level_orders b true 100 = [mkOrder 2 100 3] ∧
  Book.level_orders b true 99 = [mkOrder 1 99 3].
Proof. split; reflexivity. Qed.

(** S6 and S7: a reset empties both sides and the index and keeps the
    symbol; a trade leaves the book as it is. *)
Example scenario_reset_and_trade :
  Book.apply book_S3 (ev "R" "N" 0 0 0) = Some (Book.clear_ book_S3) ∧
  index_ (Book.clear_ book_S3) = ∅ ∧
  symbol_ (Book.clear_ book_S3) = symbol_ book_S3 ∧
  Book.apply book_S3 (ev "T" "B" 100 5 1) = Some book_S3.
Proof. split_and!; reflexivity. Qed.

(** ** Order book: index consistency, cancel and modify *)

(** C1. For every finite sequence of events applied to an initially empty
    book, after each applied event (that is, after every prefix of the
    sequence) the application is defined and every entry of the index
    designates a node that is linked in the level keyed by the entry's price
    on the entry's side; the order stored at that node has the index key as
    its id and the level's key as its price. *)
Theorem index_consistent_after_each_event sym es k :
  ∃ b, Book.apply_all (Book.new sym) (take k es) = Some b ∧ index_consistent b.
Proof.
  destruct (apply_all_wf (take k es) _ (new_wf sym)) as (b & H & Hwf & _).
  exists b. split; [done|]. by apply wf_index.
Qed.

(** C4 as stated fails: a bid and an ask added at the same price leave a
    non-empty level at that price on both sides. *)
Lemma shared_price_reachable :
  ¬ (∀ es b, Book.apply_all (Book.new "") es = Some b → no_shared_price b).
Proof.
  intros H.
  specialize (H [ev "A" "B" 100 5 1; ev "A" "A" 100 5 2] _ eq_refl 100 [0%nat] [1%nat]).
  destruct H as [H|H]; [done|done|discriminate H|discriminate H].
Qed.

(** C4, amended. For every finite sequence of events applied to an
    initially empty book, after each applied event no order rests on the bid
    side and on the ask side at once, and every price level present on
    either side is non-empty. *)
Theorem no_shared_order_after_each_event sym es k :
  ∃ b, Book.apply_all (Book.new sym) (take k es) = Some b ∧
       no_shared_order b ∧
       (∀ s px l, Book.side_of b s !! px = Some l → l ≠ []).
Proof.
  destruct (apply_all_wf (take k es) _ (new_wf sym)) as (b & H & Hwf & _).
  exists b. split_and!; [done| |].
  - intros id [(px1 & l1 & h1 & o1 & Hl1 & Hh1 & Hn1 & Hid1)
               (px2 & l2 & h2 & o2 & Hl2 & Hh2 & Hn2 & Hid2)].
    destruct (wf_level b Hwf _ _ _ _ Hl1 Hh1) as (o1' & Hn1' & _ & Hi1).
    destruct (wf_level b Hwf _ _ _ _ Hl2 Hh2) as (o2' & Hn2' & _ & Hi2).
    assert (o1' = o1) as -> by congruence.
    assert (o2' = o2) as -> by congruence.
    rewrite Hid1 in Hi1. rewrite Hid2 in Hi2. rewrite Hi1 in Hi2. discriminate Hi2.
  - intros s px l Hl. by apply (wf_nodup b Hwf _ _ _ Hl).
Qed.

Lemma apply_cancel b e :
  e_action e = "C"%char → e_side e = "B"%char ∨ e_side e = "A"%char →
  Book.apply b e = Book.cancel_ b e.
Proof. intros Ha [Hs|Hs]; unfold Book.apply; by rewrite Ha, Hs. Qed.

Lemma apply_modify b e :
  e_action e = "M"%char → e_side e = "B"%char ∨ e_side e = "A"%char →
  Book.apply b e = Book.modify_ b e.
Proof. intros Ha [Hs|Hs]; unfold Book.apply; by rewrite Ha, Hs. Qed.

Lemma wrap32_id z : in_int32 z → wrap32 z = z.
Proof.
  unfold in_int32, int32_min, int32_max, wrap32. intros H.
  rewrite Z.mod_small; lia.
Qed.

(** C2. On a well-formed book, a cancel event [e] for side ['B'] or ['A']:
    - leaves the book unchanged when [e.order_id] is not indexed;
    - when the id is indexed and [e.size >= qty], unlinks the order's node
      from its level (the orders before and after it keep their order),
      erases the index entry, and deletes the level if nothing is left in
      it; the other side and all other levels are untouched;
    - otherwise (and when [qty - e.size] is an [int32_t]) rewrites the
      quantity of that node to [qty - e.size] and changes nothing else, so
      the levels, the FIFO positions and every other order are as before. *)
Theorem cancel_semantics b e :
  wf b →
  e_action e = "C"%char →
  e_side e = "B"%char ∨ e_side e = "A"%char →
  match index_ b !! e_order_id e with
  | None => Book.apply b e = Some b
  | Some r =>
      ∃ l1 l2 o,
        Book.side_of b (r_is_buy r) !! r_price r = Some (l1 ++ r_it r :: l2) ∧
        nodes_ b !! r_it r = Some o ∧ o_order_id o = e_order_id e ∧
        (e_size e >= o_qty o →
         ∃ b', Book.apply b e = Some b' ∧
           symbol_ b' = symbol_ b ∧
           index_ b' = delete (e_order_id e) (index_ b) ∧
           nodes_ b' = delete (r_it r) (nodes_ b) ∧
           Book.side_of b' (negb (r_is_buy r)) = Book.side_of b (negb (r_is_buy r)) ∧
           Book.side_of b' (r_is_buy r) =
             (if decide (l1 ++ l2 = [])
              then delete (r_price r) (Book.side_of b (r_is_buy r))
              else <[r_price r := l1 ++ l2]> (Book.side_of b (r_is_buy r)))) ∧
        (e_size e < o_qty o → o_qty o - e_size e <= int32_max →
         Book.apply b e =
           Some (Book.set_nodes b
                   (<[r_it r := mkOrder (o_order_id o) (o_price o) (o_qty o - e_size e)]>
                      (nodes_ b))))
  end.
Proof.
  intros Hwf Ha Hs. rewrite (apply_cancel b e Ha Hs).
  destruct (index_ b !! e_order_id e) as [r|] eqn:Hid;
    [|by unfold Book.cancel_; rewrite Hid].
  destruct (cancel_outcome b e r Hwf Hid) as (l1 & l2 & o & Hl & Hn & Hoid & Hopx & H).
  exists l1, l2, o. split_and!; try done.
  - intros Hge. cbv zeta in H.
    destruct (e_size e >=? o_qty o) eqn:E; [|lia]. simpl in H.
    destruct H as (b' & Hc & _ & Hsy & _ & Hix & Hns & Ho & Hsd).
    exists b'. split_and!; try done. rewrite Hsd.
    by destruct (l1 ++ l2); destruct (decide _).
  - intros Hlt Hov. cbv zeta in H.
    destruct (e_size e >=? o_qty o) eqn:E; [lia|].
    rewrite wrap32_id in H by (unfold in_int32, int32_min; lia).
    destruct (o_qty o - e_size e =? 0) eqn:E0; [lia|]. by destruct H.
Qed.

Lemma book_S3_wf : wf book_S3.
Proof. by apply (reachable_wf "" [ev "A" "B" 100 5 1; ev "A" "B" 100 7 2]). Qed.

Lemma cancel_semantics_witness :
  match index_ book_S3 !! 1 with
  | None => Book.apply book_S3 (ev "C" "B" 100 2 1) = Some book_S3
  | Some r =>
      ∃ l1 l2 o,
        Book.side_of book_S3 (r_is_buy r) !! r_price r = Some (l1 ++ r_it r :: l2) ∧
        nodes_ book_S3 !! r_it r = Some o ∧ o_order_id o = 1 ∧
        (2 >= o_qty o →
         ∃ b', Book.apply book_S3 (ev "C" "B" 100 2 1) = Some b' ∧
           symbol_ b' = symbol_ book_S3 ∧
           index_ b' = delete 1 (index_ book_S3) ∧
           nodes_ b' = delete (r_it r) (nodes_ book_S3) ∧
           Book.side_of b' (negb (r_is_buy r)) = Book.side_of book_S3 (negb (r_is_buy r)) ∧
           Book.side_of b' (r_is_buy r) =
             (if decide (l1 ++ l2 = [])
              then delete (r_price r) (Book.side_of book_S3 (r_is_buy r))
              else <[r_price r := l1 ++ l2]> (Book.side_of book_S3 (r_is_buy r)))) ∧
        (2 < o_qty o → o_qty o - 2 <= int32_max →
         Book.apply book_S3 (ev "C" "B" 100 2 1) =
           Some (Book.set_nodes book_S3
                   (<[r_it r := mkOrder (o_order_id o) (o_price o) (o_qty o - 2)]>
                      (nodes_ book_S3))))
  end.
Proof.
  apply (cancel_semantics book_S3 (ev "C" "B" 100 2 1)).
  - exact book_S3_wf.
  - reflexivity.
  - left. reflexivity.
Defined.

(** C3. On a well-formed book that indexes [e.order_id], a modify event
    [e] whose side is the recorded one:
    - with a new price, unlinks the node from its level (the level is
      deleted when nothing is left in it) and links a fresh node carrying
      [e.size] at the tail of the level at [e.price], all other levels
      staying as they were;
    - with the same price and a larger size, unlinks the node and links a
      fresh node carrying [e.size] at the tail of the same level;
    - otherwise rewrites the quantity of the node to [e.size] and changes
      nothing else, so every FIFO position is as before. *)
Theorem modify_semantics b e r :
  wf b →
  index_ b !! e_order_id e = Some r →
  e_action e = "M"%char →
  e_side e = side_char (r_is_buy r) →
  ∃ l1 l2 o,
    Book.side_of b (r_is_buy r) !! r_price r = Some (l1 ++ r_it r :: l2) ∧
    nodes_ b !! r_it r = Some o ∧ o_order_id o = e_order_id e ∧
    (e_price e ≠ r_price r →
     ∃ b', Book.apply b e = Some b' ∧
       Book.side_of b' (r_is_buy r) !! r_price r =
         (if decide (l1 ++ l2 = []) then None else Some (l1 ++ l2)) ∧
       Book.side_of b' (r_is_buy r) !! e_price e =
         Some (default [] (Book.side_of b (r_is_buy r) !! e_price e) ++ [next_ b]) ∧
       (∀ px, px ≠ r_price r → px ≠ e_price e →
          Book.side_of b' (r_is_buy r) !! px = Book.side_of b (r_is_buy r) !! px) ∧
       Book.side_of b' (negb (r_is_buy r)) = Book.side_of b (negb (r_is_buy r)) ∧
       nodes_ b' = <[next_ b := mkOrder (e_order_id e) (e_price e) (e_size e)]>
                     (delete (r_it r) (nodes_ b)) ∧
       index_ b' = <[e_order_id e := mkOrderRef (r_is_buy r) (e_price e) (next_ b)]>
                     (index_ b)) ∧
    (e_price e = r_price r → e_size e > o_qty o →
     ∃ b', Book.apply b e = Some b' ∧
       Book.side_of b' (r_is_buy r) =
         <[r_price r := (l1 ++ l2) ++ [next_ b]]> (Book.side_of b (r_is_buy r)) ∧
       Book.side_of b' (negb (r_is_buy r)) = Book.side_of b (negb (r_is_buy r)) ∧
       nodes_ b' = <[next_ b := mkOrder (e_order_id e) (r_price r) (e_size e)]>
                     (delete (r_it r) (nodes_ b)) ∧
       index_ b' = <[e_order_id e := mkOrderRef (r_is_buy r) (r_price r) (next_ b)]>
                     (index_ b)) ∧
    (e_price e = r_price r → e_size e <= o_qty o →
     Book.apply b e =
       Some (Book.set_nodes b
               (<[r_it r := mkOrder (o_order_id o) (o_price o) (e_size e)]> (nodes_ b)))).
Proof.
  intros Hwf Hid Ha Hs.
  assert (Book.is_buy_side (e_side e) = r_is_buy r) as Hside
    by (rewrite Hs; by destruct (r_is_buy r)).
  rewrite (apply_modify b e Ha) by (rewrite Hs; destruct (r_is_buy r); auto).
  destruct (modify_outcome b e r Hwf Hid Hside) as (l1 & l2 & o & Hl & Hn & Hoid & Hopx & H).
  exists l1, l2, o. split_and!; try done.
  - intros Hne. apply Z.eqb_neq in Hne as Hne'. rewrite Hne' in H. simpl in H.
    destruct H as (b' & Hm & _ & _ & _ & Hix & Hns & Ho & Hsd).
    exists b'. split_and!; try done.
    + rewrite Hsd, lookup_insert_ne by done.
      destruct (l1 ++ l2); destruct (decide _); try done.
      * apply lookup_delete_eq.
      * apply lookup_insert_eq.
    + rewrite Hsd. apply lookup_insert_eq.
    + intros px Hp1 Hp2. rewrite Hsd, lookup_insert_ne by done.
      destruct (l1 ++ l2); [by rewrite lookup_delete_ne|by rewrite lookup_insert_ne].
  - intros Heq Hgt. apply Z.eqb_eq in Heq as Heq'. rewrite Heq' in H. simpl in H.
    destruct (e_size e >? o_qty o) eqn:E; [|lia].
    destruct H as (b' & Hm & _ & _ & _ & Hix & Hns & Ho & Hsd).
    by exists b'.
  - intros Heq Hle. apply Z.eqb_eq in Heq as Heq'. rewrite Heq' in H. simpl in H.
    destruct (e_size e >? o_qty o) eqn:E; [lia|]. by destruct H.
Qed.

Lemma book_S4_wf : wf book_S4.
Proof. by apply (reachable_wf "" [ev "A" "A" 200 4 10; ev "A" "A" 200 6 11]). Qed.

(** Scenario S4: the size increase of order 10 sends it behind order 11. *)
Lemma modify_semantics_witness :
  ∃ b', Book.apply book_S4 (ev "M" "A" 200 7 10) = Some b' ∧
        Book.level_orders b' false 200 = [mkOrder 11 200 6; mkOrder 10 200 7].
Proof.
  destruct (modify_semantics book_S4 (ev "M" "A" 200 7 10) (mkOrderRef false 200 0%nat))
    as (l1 & l2 & o & Hl & Hn & _ & _ & Hup & _).
  - exact book_S4_wf.
  - reflexivity.
  - reflexivity.
  - reflexivity.
  - destruct Hup as (b' & Hb' & _); [reflexivity| |].
    + injection Hn as <-. reflexivity.
    + exists b'. split; [exact Hb'|].
      vm_compute in Hb'. injection Hb' as <-. reflexivity.
Defined.

(** On a well-formed book every handle of a level designates a live node,
    so [to_json]'s order count of a level is the length of the level. *)
Lemma level_ct_length b s px :
  wf b →
  Book.level_ct b s px = Z.of_nat (length (default [] (Book.side_of b s !! px))).
Proof.
  intros Hwf. unfold Book.level_ct, Book.level_orders.
  assert (∀ (os : list Order) acc,
            foldl (λ a _, a + 1) acc os = acc + Z.of_nat (length os)) as Hfold.
  { induction os as [|x os IH]; intros acc; simpl; [lia|]. rewrite IH. lia. }
  rewrite Hfold.
  destruct (Book.side_of b s !! px) as [l|] eqn:Hl; [|done]. simpl.
  assert (∀ h, h ∈ l → is_Some (nodes_ b !! h)) as Hlive.
  { intros h Hh. destruct (wf_level b Hwf _ _ _ _ Hl Hh) as (o & -> & _). by eexists. }
  assert (length (omap (λ h, nodes_ b !! h) l) = length l) as ->; [|done].
  clear Hl. induction l as [|h l IH]; [done|]. simpl.
  destruct (Hlive h) as [o ->]; [by left|]. simpl. f_equal.
  apply IH. intros h' Hh'. apply Hlive. by right.
Qed.

(** C9. On a well-formed book that indexes [e.order_id], a modify event
    with the recorded side, the recorded price and size 0 leaves the order
    indexed on the same side at the same price, resting in that level with
    quantity 0; the level is kept and its order count [ct] is unchanged, and
    when the old quantity was not negative the node is rewritten in place.
    A cancel event for the same order whose size reaches the resting
    quantity instead erases the index entry and unlinks the node. *)
Theorem modify_to_zero_keeps_order b e r :
  wf b →
  index_ b !! e_order_id e = Some r →
  e_action e = "M"%char →
  e_side e = side_char (r_is_buy r) →
  e_price e = r_price r →
  e_size e = 0 →
  ∃ l o,
    Book.side_of b (r_is_buy r) !! r_price r = Some l ∧
    nodes_ b !! r_it r = Some o ∧
    (∃ b' r' l' o',
       Book.apply b e = Some b' ∧
       index_ b' !! e_order_id e = Some r' ∧
       r_is_buy r' = r_is_buy r ∧ r_price r' = r_price r ∧
       Book.side_of b' (r_is_buy r) !! r_price r = Some l' ∧
       r_it r' ∈ l' ∧
       nodes_ b' !! r_it r' = Some o' ∧
       o_order_id o' = e_order_id e ∧ o_qty o' = 0 ∧
       Book.level_ct b' (r_is_buy r) (r_price r) =
         Book.level_ct b (r_is_buy r) (r_price r) ∧
       (0 <= o_qty o → r' = r ∧ l' = l)) ∧
    (∀ ec, e_action ec = "C"%char → e_side ec = e_side e →
       e_order_id ec = e_order_id e → e_size ec >= o_qty o →
       ∃ bc, Book.apply b ec = Some bc ∧
             index_ bc !! e_order_id e = None ∧
             nodes_ bc !! r_it r = None ∧
             (∀ lc, Book.side_of bc (r_is_buy r) !! r_price r = Some lc → r_it r ∉ lc) ∧
             Book.level_ct bc (r_is_buy r) (r_price r) =
               Book.level_ct b (r_is_buy r) (r_price r) - 1).
Proof.
  intros Hwf Hid Ha Hs Hpx Hsz.
  assert (e_side e = "B"%char ∨ e_side e = "A"%char) as Hab
    by (rewrite Hs; destruct (r_is_buy r); auto).
  assert (Book.is_buy_side (e_side e) = r_is_buy r) as Hside
    by (rewrite Hs; by destruct (r_is_buy r)).
  destruct (modify_outcome b e r Hwf Hid Hside)
    as (l1 & l2 & o & Hl & Hn & Hoid & Hopx & H).
  rewrite Hpx, Z.eqb_refl in H. cbn [negb] in H.
  exists (l1 ++ r_it r :: l2), o. split_and!; try done.
  - rewrite (apply_modify b e Ha Hab).
    destruct (e_size e >? o_qty o) eqn:Egt.
    + destruct H as (b' & Hb' & Hwf' & _ & _ & Hix & Hns & Ho & Hsd).
      exists b', (mkOrderRef (r_is_buy r) (r_price r) (next_ b)),
             ((l1 ++ l2) ++ [next_ b]),
             (mkOrder (e_order_id e) (r_price r) (e_size e)).
      split_and!; try done.
      * rewrite Hix. apply lookup_insert_eq.
      * rewrite Hsd. apply lookup_insert_eq.
      * simpl. apply elem_of_app. right. by apply list_elem_of_singleton.
      * rewrite Hns. simpl. apply lookup_insert_eq.
      * rewrite !level_ct_length by done. rewrite Hsd, lookup_insert_eq, Hl. simpl.
        rewrite !length_app. simpl. lia.
      * lia.
    + destruct H as [Hb' Hwf'].
      exists (Book.set_nodes b
                (<[r_it r := mkOrder (o_order_id o) (o_price o) (e_size e)]> (nodes_ b))),
             r, (l1 ++ r_it r :: l2), (mkOrder (o_order_id o) (o_price o) (e_size e)).
      split_and!; try done.
      * apply elem_of_app. right. by left.
      * simpl. apply lookup_insert_eq.
      * rewrite !level_ct_length by done. by rewrite side_of_set_nodes.
  - intros ec Hac Hsc Hidc Hge.
    rewrite (apply_cancel b ec Hac) by (by rewrite Hsc).
    rewrite <- Hidc in Hid.
    destruct (cancel_outcome b ec r Hwf Hid)
      as (k1 & k2 & oc & Hlc & Hnc & _ & _ & Hc).
    assert (oc = o) as -> by congruence.
    cbv zeta in Hc. destruct (e_size ec >=? o_qty o) eqn:E; [|lia].
    cbn [Z.eqb] in Hc.
    destruct Hc as (bc & Hbc & Hwfc & _ & _ & Hix & Hns & _ & Hsd).
    exists bc. rewrite <- Hidc. split_and!; try done.
    + rewrite Hix. apply lookup_delete_eq.
    + rewrite Hns. apply lookup_delete_eq.
    + intros lc Hlc' Hin'.
      destruct (wf_level bc Hwfc _ _ _ _ Hlc' Hin') as (o' & Hn' & _).
      rewrite Hns, lookup_delete_eq in Hn'. done.
    + rewrite !level_ct_length by done. rewrite Hsd, Hlc.
      destruct (k1 ++ k2) eqn:E'.
      * rewrite lookup_delete_eq. simpl. rewrite length_app. simpl.
        apply (f_equal length) in E'. rewrite length_app in E'. simpl in E'. lia.
      * rewrite lookup_insert_eq. simpl. rewrite !length_app. simpl.
        apply (f_equal length) in E'. rewrite length_app in E'. simpl in E'. lia.
Qed.

Lemma book_one_bid_wf : wf book_one_bid.
Proof. by apply (reachable_wf "" [ev "A" "B" 100 5 1]). Qed.

(** After [M B 100 0 oid=1] the level at 100 still counts one order, of
    quantity 0; after [C B 100 5 oid=1] the level is gone. *)
Lemma modify_to_zero_keeps_order_witness :
  (∃ b', Book.apply book_one_bid (ev "M" "B" 100 0 1) = Some b' ∧
         Book.level_orders b' true 100 = [mkOrder 1 100 0] ∧
         Book.level_ct b' true 100 = 1) ∧
  (∃ bc, Book.apply book_one_bid (ev "C" "B" 100 5 1) = Some bc ∧
         bids_ bc !! 100 = None ∧ index_ bc !! 1 = None).
Proof.
  destruct (modify_to_zero_keeps_order book_one_bid (ev "M" "B" 100 0 1)
              (mkOrderRef true 100 0%nat))
    as (l & o & Hl & Hn & (b' & r' & l' & o' & Hb' & _) & Hc).
  - exact book_one_bid_wf.
  - reflexivity.
  - reflexivity.
  - reflexivity.
  - reflexivity.
  - reflexivity.
  - split.
    + exists b'. split; [exact Hb'|].
      vm_compute in Hb'. injection Hb' as <-. split; reflexivity.
    + destruct (Hc (ev "C" "B" 100 5 1)) as (bc & Hbc & _); [reflexivity..| |].
      * injection Hn as <-. vm_compute. discriminate.
      * exists bc. split; [exact Hbc|].
        vm_compute in Hbc. injection Hbc as <-. split; reflexivity.
Defined.

(** ** The writer queue *)

Section writer_queue.
Implicit Types (q items : list SnapshotWrite) (C : nat).

Lemma pop_while_full_spec q C :
  (1 ≤ C)%nat →
  Writer.pop_while_full q C = Some (drop (length q - (C - 1)) q).
Proof.
  intros HC. induction q as [|x q IH].
  - simpl. destruct (C <=? 0)%nat eqn:E; [apply Nat.leb_le in E; lia|done].
  - cbn [Writer.pop_while_full].
    destruct (C <=? length (x :: q))%nat eqn:E.
    + apply Nat.leb_le in E. simpl in E. rewrite IH.
      replace (length (x :: q) - (C - 1))%nat with (S (length q - (C - 1))) by (simpl; lia).
      done.
    + apply Nat.leb_gt in E.
      replace (length (x :: q) - (C - 1))%nat with 0%nat by lia. done.
Qed.

Lemma enqueue_spec q C x :
  (1 ≤ C)%nat →
  Writer.enqueue_snapshot_write true q C (sw_ts_us x) (sw_symbol x) (sw_tob x)
  = Some (drop (length (q ++ [x]) - C) (q ++ [x])).
Proof.
  intros HC. unfold Writer.enqueue_snapshot_write. simpl.
  rewrite pop_while_full_spec by done. simpl.
  destruct x as [ts sy tb]. simpl. f_equal.
  rewrite length_app. simpl.
  rewrite drop_app_le by lia. f_equal. f_equal. lia.
Qed.

Lemma last_drop_app C (a b : list SnapshotWrite) :
  drop (length (drop (length a - C) a ++ b) - C) (drop (length a - C) a ++ b)
  = drop (length (a ++ b) - C) (a ++ b).
Proof.
  destruct (decide (length a ≤ C)%nat) as [Hle|Hgt].
  - by replace (length a - C)%nat with 0%nat by lia.
  - rewrite !length_app, length_drop.
    replace (length a - (length a - C) + length b - C)%nat with (length b) by lia.
    replace (length a + length b - C)%nat with ((length a - C) + length b)%nat by lia.
    rewrite <- drop_drop. f_equal. rewrite drop_app_le by lia. done.
Qed.

Lemma enqueue_all_spec items : ∀ q C,
  (1 ≤ C)%nat → items ≠ [] →
  Writer.enqueue_all q C items
  = Some (drop (length (q ++ items) - C) (q ++ items)).
Proof.
  induction items as [|x items IH]; intros q C HC Hne; [done|].
  cbn [Writer.enqueue_all]. rewrite enqueue_spec by done.
  cbn [mbind option_bind].
  destruct items as [|y items'].
  - done.
  - rewrite IH by done. f_equal.
    rewrite last_drop_app. by rewrite <- app_assoc.
Qed.
End writer_queue.

(** C6. With a writer configured and a capacity [C >= 1], producing [K > C]
    items with no dequeue in between never fails and leaves exactly [C]
    items in the queue: the last [C] produced, in arrival order, whatever
    the queue held before.  An enqueue onto a queue holding [C] items
    drops the item at the front and appends the new one.  The capacity the
    driver passes, [max_q], is such a [C]. *)
Theorem drop_oldest_backpressure (C : nat) (q0 items : list SnapshotWrite) :
  (1 ≤ C)%nat →
  (C < length items)%nat →
  Writer.enqueue_all q0 C items = Some (drop (length items - C) items) ∧
  length (drop (length items - C) items) = C ∧
  (∀ q x, length q = C →
     Writer.enqueue_snapshot_write true q C (sw_ts_us x) (sw_symbol x) (sw_tob x)
     = Some (tail q ++ [x])) ∧
  (1 ≤ Writer.max_q)%nat.
Proof.
  intros HC HK. split_and!; [| | |unfold Writer.max_q; lia].
  - rewrite enqueue_all_spec; [|done|by destruct items; [simpl in HK; lia|]].
    f_equal. rewrite length_app.
    replace (length q0 + length items - C)%nat
      with (length q0 + (length items - C))%nat by lia.
    by rewrite drop_app_add.
  - rewrite length_drop. lia.
  - intros q x Hq. rewrite enqueue_spec by done. f_equal.
    rewrite length_app. simpl. replace (length q + 1 - C)%nat with 1%nat by lia.
    destruct q; [simpl in Hq; lia|done].
Qed.

(** Three items through a queue of capacity two: the first is dropped. *)
Lemma drop_oldest_backpressure_witness :
  Writer.enqueue_all [] 2 [item 1; item 2; item 3] = Some [item 2; item 3] ∧
  length [item 2; item 3] = 2%nat ∧
  (∀ q x, length q = 2%nat →
     Writer.enqueue_snapshot_write true q 2 (sw_ts_us x) (sw_symbol x) (sw_tob x)
     = Some (tail q ++ [x])) ∧
  (1 ≤ Writer.max_q)%nat.
Proof.
  apply (drop_oldest_backpressure 2 [] [item 1; item 2; item 3]); simpl; lia.
Defined.

(** ** The latency histogram *)

Lemma hist_1_32_40_ok : Pow2Histogram.ok hist_1_32_40.
Proof.
  split_and!; [reflexivity| |reflexivity|by vm_compute].
  apply Forall_forall. intros x Hx. vm_compute in Hx.
  repeat (apply elem_of_cons in Hx as [->|Hx]; [lia|]).
  by apply elem_of_nil in Hx.
Qed.

Lemma double_to_uint64_nonneg x v : double_to_uint64 x = Some v → 0 <= v.
Proof.
  unfold double_to_uint64. destruct (Prim2SF x) as [| | |sg m e]; try done.
  - intros [= <-]. lia.
  - set (w := if 0 <=? e then _ else _).
    assert (0 <= w).
    { unfold w. destruct (0 <=? e); [apply Z.shiftl_nonneg|apply Z.shiftr_nonneg]; lia. }
    destruct sg.
    + destruct (w =? 0); [|done]. intros [= <-]. lia.
    + destruct (w <=? uint64_max); [|done]. by intros [= <-].
Qed.

Lemma target_pos p n t : Pow2Histogram.target p n = Some t → 1 <= t.
Proof.
  unfold Pow2Histogram.target. cbv zeta.
  destruct (double_to_uint64 _) as [v|] eqn:E; [|done]. simpl.
  apply double_to_uint64_nonneg in E.
  intros [= <-]. destruct (v =? 0) eqn:E0; lia.
Qed.

Lemma scan_spec cs : ∀ b cum t,
  Forall (λ x, 0 <= x) cs →
  0 <= cum → cum < t → t <= cum + foldr Z.add 0 cs →
  cum + foldr Z.add 0 cs <= uint64_max →
  ∃ bk, Pow2Histogram.samples_from cs b !! Z.to_nat (t - cum - 1) = Some bk ∧
        b <= bk ∧
        Pow2Histogram.scan cs b cum t = Pow2Histogram.upper_bound bk.
Proof.
  induction cs as [|x cs IH]; intros b cum t Hpos Hc Hlt Hle Hmax; simpl in *; [lia|].
  apply Forall_cons in Hpos as [Hx Hpos].
  assert (0 <= foldr Z.add 0 cs) as Hsum.
  { clear -Hpos. induction Hpos; simpl; lia. }
  assert (wrap64u (cum + x) = cum + x) as ->.
  { unfold wrap64u. unfold uint64_max in Hmax. apply Z.mod_small. lia. }
  destruct (cum + x >=? t) eqn:E.
  - exists b. split_and!; [|lia|].
    + rewrite lookup_app_l by (rewrite length_replicate; lia).
      apply lookup_replicate_2. lia.
    + unfold Pow2Histogram.upper_bound. rewrite !Z.shiftl_1_l. done.
  - destruct (IH (b + 1) (cum + x) t) as (bk & Hbk & Hb & Hs); try lia; [done|].
    exists bk. split_and!; [|lia|done].
    rewrite lookup_app_r by (rewrite length_replicate; lia).
    rewrite length_replicate. rewrite <- Hbk. f_equal. lia.
Qed.

(** Bucket [b] receives the durations in [[2^b, 2^(b+1))], and 0. *)
Example bucket_values :
  map Pow2Histogram.bucket [0; 1; 2; 3; 4; 1023; 1024; 2 ^ 63; 2 ^ 64 - 1]
  = [0; 0; 1; 1; 2; 9; 10; 63; 63].
Proof. reflexivity. Qed.

(** C5 as stated fails: with one sample in bucket 0 and two in bucket 5,
    [percentile(0.5)] reports bucket 0 (bound 2), while the second sample,
    of rank [⌈0.5 · 3⌉ = 2], lies in bucket 5 (bound 64). *)
Lemma percentile_not_ceil_rank :
  ¬ (∀ h p k b,
       Pow2Histogram.ok h → 0 < Pow2Histogram.n h →
       PrimFloat.ltb PrimFloat.zero p = true → PrimFloat.leb p PrimFloat.one = true →
       ceil_mul p (Pow2Histogram.n h) = Some k →
       Pow2Histogram.samples h !! Z.to_nat (k - 1) = Some b →
       Pow2Histogram.percentile h p = Some (Pow2Histogram.upper_bound b)).
Proof.
  intros H.
  specialize (H hist_1_32_40 0.5%float 2 5 hist_1_32_40_ok).
  discriminate H; reflexivity.
Qed.

(** C5, amended. For a histogram with [n > 0] samples whose counters add
    up to [n], [percentile(p)] returns the upper bound of the bucket that
    holds the [t]-th sample in increasing bucket order, where [t] is the
    binary64 product [p * (double)n] (with [p] clamped to [[0, 1]])
    truncated toward zero, and 1 when that is 0, provided [t <= n]; the
    bound of bucket [b] is [2^(b+1)], capped at [2^63]. *)
Theorem percentile_trunc_rank h p t :
  Pow2Histogram.ok h →
  0 < Pow2Histogram.n h →
  Pow2Histogram.target p (Pow2Histogram.n h) = Some t →
  t <= Pow2Histogram.n h →
  ∃ b, Pow2Histogram.samples h !! Z.to_nat (t - 1) = Some b ∧
       Pow2Histogram.percentile h p = Some (Pow2Histogram.upper_bound b).
Proof.
  intros (Hlen & Hpos & Hn & Hmax) Hn0 Ht Hle.
  pose proof (target_pos _ _ _ Ht) as Ht1.
  destruct (scan_spec (Pow2Histogram.c h) 0 0 t) as (b & Hb & _ & Hs);
    [done|lia|lia|lia|lia|].
  exists b. split.
  - unfold Pow2Histogram.samples. rewrite <- Hb. f_equal. lia.
  - unfold Pow2Histogram.percentile.
    destruct (Pow2Histogram.n h =? 0) eqn:E; [lia|].
    rewrite Ht. simpl. by rewrite Hs.
Qed.

Lemma percentile_trunc_rank_witness :
  ∃ b, Pow2Histogram.samples hist_1_32_40 !! Z.to_nat (1 - 1) = Some b ∧
       Pow2Histogram.percentile hist_1_32_40 0.5%float =
         Some (Pow2Histogram.upper_bound b).
Proof.
  apply (percentile_trunc_rank hist_1_32_40 0.5%float 1).
  - exact hist_1_32_40_ok.
  - reflexivity.
  - reflexivity.
  - discriminate.
Defined.

(** ** The snapshot store *)

Section snapshot_store.
Import SnapshotStore.

Lemma run_snoc ks k : run (ks ++ [k]) = step (run ks) k.
Proof. unfold run. by rewrite foldl_app. Qed.

Lemma last_for_snoc symbol ks k acc :
  last_for symbol (ks ++ [k]) acc =
  match k with
  | Publish sy s => if String.eqb sy symbol then Some s else last_for symbol ks acc
  | PublishGlobal _ => last_for symbol ks acc
  end.
Proof.
  revert acc. induction ks as [|k' ks IH]; intros acc; simpl.
  - by destruct k.
  - destruct k'; by rewrite IH.
Qed.

Lemma last_global_snoc ks k acc :
  last_global (ks ++ [k]) acc =
  match k with
  | PublishGlobal s => s
  | Publish _ _ => last_global ks acc
  end.
Proof.
  revert acc. induction ks as [|k' ks IH]; intros acc; simpl.
  - by destruct k.
  - destruct k'; by rewrite IH.
Qed.

(** The store after a history of calls, slot by slot. *)
Lemma run_slots ks :
  g_latest_global (run ks) = Some (last_global ks "{}") ∧
  ∀ symbol, g_latest_by_symbol (run ks) !! symbol =
            make_shared <$> last_for symbol ks None.
Proof.
  induction ks as [|k ks [IHg IHs]] using rev_ind; [done|].
  rewrite run_snoc, last_global_snoc. split.
  - destruct k; simpl; [done|]. exact IHg.
  - intros symbol. rewrite last_for_snoc. destruct k as [s|sy s]; simpl; [apply IHs|].
    destruct (String.eqb sy symbol) eqn:E.
    + apply String.eqb_eq in E as ->. by rewrite lookup_insert_eq.
    + apply String.eqb_neq in E. rewrite lookup_insert_ne by done. apply IHs.
Qed.
End snapshot_store.

(** C10. After any history of publish calls, [load_snapshot(symbol)]
    returns a non-null handle: the last string published for [symbol] when
    there is one, and otherwise the string in the global slot, which is the
    last globally published one, or the two characters ["{}"] when nothing
    was published globally. *)
Theorem load_snapshot_never_null ks symbol :
  SnapshotStore.load_snapshot (SnapshotStore.run ks) symbol =
    Some (match SnapshotStore.last_for symbol ks None with
          | Some s => s
          | None => SnapshotStore.last_global ks "{}"
          end) ∧
  SnapshotStore.load_snapshot (SnapshotStore.run ks) symbol ≠ None ∧
  String.length "{}" = 2%nat ∧
  SnapshotStore.load_snapshot SnapshotStore.init symbol = Some "{}".
Proof.
  destruct (run_slots ks) as [Hg Hs].
  assert (SnapshotStore.load_snapshot (SnapshotStore.run ks) symbol =
          Some (match SnapshotStore.last_for symbol ks None with
                | Some s => s
                | None => SnapshotStore.last_global ks "{}"
                end)) as H.
  { unfold SnapshotStore.load_snapshot. rewrite Hs.
    destruct (SnapshotStore.last_for symbol ks None); simpl; [done|exact Hg]. }
  split_and!; [done|by rewrite H|done|done].
Qed.

(** ** Strings: appending *)

Lemma str_app_cons x (a b : string) : String x a +:+ b = String x (a +:+ b).
Proof. reflexivity. Qed.

Lemma str_app_nil (b : string) : "" +:+ b = b.
Proof. reflexivity. Qed.

Local Ltac sapp := repeat (rewrite str_app_cons || rewrite str_app_nil).

Lemma app_assoc_s (a b c : string) : (a +:+ b) +:+ c = a +:+ (b +:+ c).
Proof. induction a as [|x a IH]; sapp; [done|by f_equal]. Qed.

Lemma app_nil_r_s (a : string) : a +:+ "" = a.
Proof. induction a as [|x a IH]; sapp; [done|by f_equal]. Qed.

(** ** The push-server session *)

(** The acknowledgment frame read back with the session's own scanners. *)
Example ack_frame_fields :
  let ack := WsSession.make_ack_json "CLX5" 10 50 in
  WsSession.parse_string_value_after_key ack "type" = Some "ack" ∧
  WsSession.parse_string_value_after_key ack "symbol" = Some "CLX5" ∧
  WsSession.parse_int_value_after_key ack "depth" = Some 10 ∧
  WsSession.parse_int_value_after_key ack "push_ms" = Some 50.
Proof. split_and!; reflexivity. Qed.

(** What [make_ack_json] builds is the acknowledgment frame of the wire
    protocol, byte for byte. *)
Lemma make_ack_json_frame symbol depth push_ms :
  WsSession.make_ack_json symbol depth push_ms = AckFrame.ack symbol depth push_ms.
Proof.
  unfold WsSession.make_ack_json, AckFrame.ack, AckFrame.render_object,
    AckFrame.render_members, AckFrame.render_member, AckFrame.render_value,
    AckFrame.render_string, WsSession.quoted, WsSession.dquote, WsSession.to_string.
  cbn [fst snd]. sapp. rewrite !app_assoc_s. sapp. rewrite !app_assoc_s. by sapp.
Qed.

(** Whatever symbol, depth and push period it carries, the session's own
    scanner reads the type of the acknowledgment back as [ack]. *)
Lemma ack_type_read_back symbol depth push_ms :
  WsSession.parse_string_value_after_key
    (WsSession.make_ack_json symbol depth push_ms) "type" = Some "ack".
Proof. reflexivity. Qed.

(** C7. For a session whose depth is in [[1, 200]] and whose push period
    is in [[10, 5000]], and any message read without error:
    - when the ["type"] value of the message parses to ["subscribe"] or
      ["update"], the session takes the symbol when one parses and is not
      empty, the depth when one parses and lies in [[1, 200]], and the push
      period, clamped to [[10, 5000]], when one parses; depth and push
      period stay within their bounds; and exactly one frame is written,
      which is, byte for byte, the JSON object
      [{"type":"ack","symbol":…,"depth":…,"push_ms":…}] of the wire protocol
      carrying the updated symbol, depth and push period, and whose type
      the session's own scanner reads back as [ack];
    - in every other case, whether the type parses to something else or
      does not parse at all, the session is unchanged and nothing is
      written. *)
Theorem control_message_ack st msg :
  1 <= WsSession.depth_ st <= 200 →
  10 <= WsSession.push_ms_ st <= 5000 →
  let ty := WsSession.parse_string_value_after_key msg "type" in
  (ty = Some "subscribe" ∨ ty = Some "update" →
   ∃ st' frame,
     WsSession.on_read st false msg = (st', [frame]) ∧
     frame = AckFrame.ack (WsSession.symbol_ st') (WsSession.depth_ st')
               (WsSession.push_ms_ st') ∧
     WsSession.parse_string_value_after_key frame "type" = Some "ack" ∧
     1 <= WsSession.depth_ st' <= 200 ∧
     10 <= WsSession.push_ms_ st' <= 5000 ∧
     WsSession.symbol_ st' =
       match WsSession.parse_string_value_after_key msg "symbol" with
       | Some sym => if decide (sym = "") then WsSession.symbol_ st else sym
       | None => WsSession.symbol_ st
       end ∧
     WsSession.depth_ st' =
       match WsSession.parse_int_value_after_key msg "depth" with
       | Some d => if decide (1 <= d <= 200) then d else WsSession.depth_ st
       | None => WsSession.depth_ st
       end ∧
     WsSession.push_ms_ st' =
       match WsSession.parse_int_value_after_key msg "push_ms" with
       | Some pm => Z.min 5000 (Z.max 10 pm)
       | None => WsSession.push_ms_ st
       end) ∧
  (ty ≠ Some "subscribe" → ty ≠ Some "update" →
   WsSession.on_read st false msg = (st, [])).
Proof.
  intros Hd Hp ty. unfold WsSession.on_read, WsSession.parse_control_message.
  fold ty. split.
  - intros Hrec.
    assert (∃ t, ty = Some t ∧
              negb (String.eqb t "subscribe") && negb (String.eqb t "update") = false)
      as (t & -> & ->).
    { destruct Hrec as [-> | ->]; eexists; split; reflexivity. }
    eexists _, _. split; [reflexivity|]. cbn [WsSession.symbol_ WsSession.depth_
      WsSession.push_ms_].
    split; [apply make_ack_json_frame|]. split; [apply ack_type_read_back|].
    split_and!.
    + destruct (WsSession.parse_int_value_after_key msg "depth") as [d|]; [|lia].
      destruct ((d >? 0) && (d <=? 200)) eqn:E; lia.
    + destruct (WsSession.parse_int_value_after_key msg "depth") as [d|]; [|lia].
      destruct ((d >? 0) && (d <=? 200)) eqn:E; lia.
    + destruct (WsSession.parse_int_value_after_key msg "push_ms") as [pm|]; [|lia].
      destruct (pm <? 10) eqn:E1; [reflexivity|].
      destruct (pm >? 5000) eqn:E2; lia.
    + destruct (WsSession.parse_int_value_after_key msg "push_ms") as [pm|]; [|lia].
      destruct (pm <? 10) eqn:E1; [by vm_compute|].
      destruct (pm >? 5000) eqn:E2; lia.
    + destruct (WsSession.parse_string_value_after_key msg "symbol") as [sym|]; [|done].
      destruct (String.eqb sym "") eqn:E.
      * apply String.eqb_eq in E. by destruct (decide _).
      * apply String.eqb_neq in E. by destruct (decide _).
    + destruct (WsSession.parse_int_value_after_key msg "depth") as [d|]; [|done].
      destruct ((d >? 0) && (d <=? 200)) eqn:E; destruct (decide _); try done; lia.
    + destruct (WsSession.parse_int_value_after_key msg "push_ms") as [pm|]; [|done].
      destruct (pm <? 10) eqn:E1; [simpl; lia|].
      destruct (pm >? 5000) eqn:E2; lia.
  - intros H1 H2. destruct ty as [t|]; [|done].
    assert (String.eqb t "subscribe" = false) as ->.
    { apply String.eqb_neq. intros ->. by apply H1. }
    assert (String.eqb t "update" = false) as ->.
    { apply String.eqb_neq. intros ->. by apply H2. }
    done.
Qed.

(** The session takes ESZ5 and depth 20, raises the push period to 10, and
    acknowledges with those values. *)
Lemma control_message_ack_witness :
  ∃ st',
    WsSession.on_read (WsSession.init 50) false msg_subscribe =
      (st', [AckFrame.ack "ESZ5" 20 10]) ∧
    WsSession.symbol_ st' = "ESZ5" ∧
    WsSession.depth_ st' = 20 ∧
    WsSession.push_ms_ st' = 10.
Proof.
  destruct (control_message_ack (WsSession.init 50) msg_subscribe) as [H _].
  - simpl. lia.
  - simpl. lia.
  - destruct (H (or_introl eq_refl)) as (st' & frame & Hr & -> & _ & _ & _ & Hs & Hd & Hp).
    exists st'. rewrite Hr, Hs, Hd, Hp. split_and!; reflexivity.
Defined.

(** ** The engine driver *)

(** A freshly constructed book holds, after one event, at most the order
    of that event. *)
Lemma apply_new sym e b' :
  Book.apply (Book.new sym) e = Some b' →
  symbol_ b' = sym ∧
  (∀ id, id ≠ e_order_id e → index_ b' !! id = None) ∧
  (∀ h o, nodes_ b' !! h = Some o → o_order_id o = e_order_id e).
Proof.
  assert (∀ b, Book.add_ (Book.new sym) e = Some b →
            symbol_ b = sym ∧
            (∀ id, id ≠ e_order_id e → index_ b !! id = None) ∧
            (∀ h o, nodes_ b !! h = Some o → o_order_id o = e_order_id e)) as Hadd.
  { intros b. unfold Book.add_. simpl. rewrite lookup_empty. simpl.
    unfold Book.push_back, Book.emplace.
    destruct (Book.is_buy_side (e_side e)); simpl; rewrite !lookup_empty;
      intros [= <-]; simpl.
    all: split_and!; [done| |].
    all: try (intros id Hne; by rewrite lookup_insert_ne).
    all: intros h o Ho; apply lookup_insert_Some in Ho as [[_ <-]|[_ Ho]]; [done|];
      by rewrite lookup_empty in Ho. }
  assert (∀ b, b = Book.new sym ∨ b = Book.clear_ (Book.new sym) →
            symbol_ b = sym ∧
            (∀ id, id ≠ e_order_id e → index_ b !! id = None) ∧
            (∀ h o, nodes_ b !! h = Some o → o_order_id o = e_order_id e)) as Hempty.
  { intros b [-> | ->]; (split_and!; [done| |]); simpl.
    all: try (intros id _; apply lookup_empty).
    all: intros h o Ho; by rewrite lookup_empty in Ho. }
  unfold Book.apply.
  repeat match goal with
         | |- context [if ?c then _ else _] => destruct c
         end;
    try (intros [= <-]; apply Hempty; by auto).
  all: apply Hadd.
Qed.

(** C8. While no symbol is set, a line that is not skipped and parses to an
    event with a non-empty symbol makes the driver replace the book by a
    newly constructed one carrying that symbol before the event is applied:
    the session's book is then the result of applying the event to the
    empty book, so it holds no order other than the event's own, whatever
    the previous book held. *)
Theorem first_symbol_resets_book
    (parse_mbo_csv_line : string → option MboEvent) (ts_event_to_us : string → Z)
    (st : Driver.state) (line : string) (e : MboEvent) :
  Driver.has_symbol st = false →
  Driver.strip_cr line ≠ "" →
  String.prefix "ts_event" (Driver.strip_cr line) = false →
  String.prefix "publisher_id" (Driver.strip_cr line) = false →
  String.prefix "instrument_id" (Driver.strip_cr line) = false →
  parse_mbo_csv_line (Driver.strip_cr line) = Some e →
  e_symbol e ≠ "" →
  ∃ st',
    Driver.handle_line parse_mbo_csv_line ts_event_to_us st line = Some (true, st') ∧
    Book.apply (Book.new (e_symbol e)) e = Some (Driver.book st') ∧
    Driver.book_symbol st' = e_symbol e ∧
    Driver.has_symbol st' = true ∧
    symbol_ (Driver.book st') = e_symbol e ∧
    (∀ id, id ≠ e_order_id e → index_ (Driver.book st') !! id = None) ∧
    (∀ h o, nodes_ (Driver.book st') !! h = Some o → o_order_id o = e_order_id e).
Proof.
  intros Hhas Hne Hp1 Hp2 Hp3 Hparse Hsym.
  destruct (apply_wf (Book.new (e_symbol e)) e (new_wf _)) as (b' & Hb' & _ & _).
  destruct (apply_new _ _ _ Hb') as (Hs & Hix & Hns).
  unfold Driver.handle_line. cbv zeta.
  apply String.eqb_neq in Hne as ->. rewrite Hp1, Hp2, Hp3. simpl.
  rewrite Hparse, Hhas. apply String.eqb_neq in Hsym as ->. simpl.
  rewrite Hb'. simpl. eexists. split; [reflexivity|]. simpl.
  split_and!; done.
Qed.

(** Order 1, inserted before any symbol was seen, is gone once the line
    carrying CLX5 has been handled. *)
Lemma first_symbol_resets_book_witness :
  index_ (Driver.book after_first) !! 1 = Some (mkOrderRef true 100 0%nat) ∧
  ∃ st', Driver.handle_line toy_parser (λ _, 0) after_first "second" = Some (true, st') ∧
         index_ (Driver.book st') !! 1 = None ∧
         symbol_ (Driver.book st') = "CLX5".
Proof.
  split; [reflexivity|].
  destruct (first_symbol_resets_book toy_parser (λ _, 0) after_first "second"
              (mkEvent "" "A" "B" 101 3 2 "CLX5"))
    as (st' & Hr & _ & _ & _ & Hs & Hix & _); try reflexivity; try discriminate.
  exists st'. split_and!; [exact Hr| |exact Hs].
  apply Hix. discriminate.
Defined.

(** ** Order book: what add, cancel and modify do to the order they name *)

Lemma apply_add b e :
  e_action e = "A"%char → e_side e = "B"%char ∨ e_side e = "A"%char →
  Book.apply b e = Book.add_ b e.
Proof. intros Ha [Hs|Hs]; unfold Book.apply; by rewrite Ha, Hs. Qed.

(** [add_], step by step: the stale order goes, the new one is linked. *)
Lemma add_outcome b e :
  wf b →
  ∃ bm b',
    Book.add_ b e = Some b' ∧ wf bm ∧ wf b' ∧
    taken_out b bm (e_order_id e) ∧
    linked_at_tail bm b' (Book.is_buy_side (e_side e))
      (mkOrder (e_order_id e) (e_price e) (e_size e)).
Proof.
  intros Hwf. unfold Book.add_.
  set (id := e_order_id e). set (s := Book.is_buy_side (e_side e)).
  assert (∃ bm, match index_ b !! id with
                | Some oldRef =>
                    b' ← match Book.side_of b (r_is_buy oldRef) !! r_price oldRef with
                         | Some l => Book.erase_node b (r_is_buy oldRef) (r_price oldRef) l (r_it oldRef)
                         | None => Some b
                         end;
                    Some (Book.set_index b' (delete id (index_ b')))
                | None => Some b
                end = Some bm ∧ wf bm ∧ index_ bm !! id = None ∧ taken_out b bm id)
    as (bm & -> & Hwfm & Hnone & Hout).
  { unfold taken_out. destruct (index_ b !! id) as [r|] eqn:Hid; [|by exists b].
    destruct (erase_indexed b id r Hwf Hid)
      as (l1 & l2 & o & b1 & Hl & _ & _ & _ & He & Hsy & Hix & Hnx & Hns & Ho & Hs & Hwf1 & _).
    rewrite Hl. simpl. rewrite He. simpl. eexists. split_and!; [done..| |].
    - simpl. apply lookup_delete_eq.
    - exists l1, l2. simpl. rewrite !side_of_set_index, Hix.
      split_and!; try done. rewrite Hs. by destruct (l1 ++ l2); destruct (decide _). }
  cbn [mbind option_bind].
  destruct (Book.push_back bm s (e_price e) (mkOrder id (e_price e) (e_size e)))
    as [b2 it] eqn:Ep.
  destruct (push_back_spec _ _ _ _ _ _ Ep) as (-> & Hsy & Hix & Hnx & Hns & Ho & Hs).
  exists bm. eexists. split; [done|]. split; [done|].
  unfold Book.emplace. rewrite Hix, Hnone.
  assert (linked_at_tail bm
            (Book.set_index b2 (<[id := mkOrderRef s (e_price e) (next_ bm)]> (index_ bm)))
            s (mkOrder id (e_price e) (e_size e))) as Hlink.
  { unfold linked_at_tail. simpl. rewrite !side_of_set_index. by split_and!. }
  split_and!; [|done|done].
  destruct Hlink as (? & ? & ? & ? & ? & ?).
  by eapply (link_wf bm _ id s (e_price e) (e_size e)).
Qed.

(** X1. An add event for side ['B'] or ['A'] on a well-formed book first
    takes out the order already indexed under [e.order_id], when there is
    one, and then links a fresh node carrying [e.order_id], [e.price] and
    [e.size] at the tail of the level at [e.price] on the event's side
    (creating the level when it is missing) and indexes it there.  Nothing
    else changes. *)
Theorem add_semantics b e :
  wf b →
  e_action e = "A"%char →
  e_side e = "B"%char ∨ e_side e = "A"%char →
  ∃ bm b',
    Book.apply b e = Some b' ∧
    taken_out b bm (e_order_id e) ∧
    linked_at_tail bm b' (Book.is_buy_side (e_side e))
      (mkOrder (e_order_id e) (e_price e) (e_size e)).
Proof.
  intros Hwf Ha Hs. rewrite (apply_add b e Ha Hs).
  destruct (add_outcome b e Hwf) as (bm & b' & H & _ & _ & Hout & Hlink).
  by exists bm, b'.
Qed.

(** A duplicate add: order 1 leaves the bids and comes back as an ask. *)
Lemma add_semantics_witness :
  ∃ b', Book.apply book_S3 (ev "A" "A" 101 9 1) = Some b' ∧
        Book.level_orders b' true 100 = [mkOrder 2 100 7] ∧
        Book.level_orders b' false 101 = [mkOrder 1 101 9] ∧
        index_ b' !! 1 = Some (mkOrderRef false 101 2%nat).
Proof.
  destruct (add_semantics book_S3 (ev "A" "A" 101 9 1)) as (bm & b' & Hb' & _).
  - exact book_S3_wf.
  - reflexivity.
  - right. reflexivity.
  - exists b'. split; [exact Hb'|].
    vm_compute in Hb'. injection Hb' as <-. split_and!; reflexivity.
Defined.

(** X2. After each event of any sequence applied to an empty book, every
    order resting in a level is priced at the level's key and is the one the
    index records for its id, at exactly that side, price and node; hence
    an order id rests at one place in the book at most. *)
Theorem resting_orders_indexed_after_each_event sym es k :
  ∃ b, Book.apply_all (Book.new sym) (take k es) = Some b ∧
       (∀ s px h o, rests_at b s px h o →
          o_price o = px ∧
          index_ b !! o_order_id o = Some (mkOrderRef s px h)) ∧
       (∀ s1 px1 h1 o1 s2 px2 h2 o2,
          rests_at b s1 px1 h1 o1 → rests_at b s2 px2 h2 o2 →
          o_order_id o1 = o_order_id o2 →
          s1 = s2 ∧ px1 = px2 ∧ h1 = h2 ∧ o1 = o2).
Proof.
  destruct (apply_all_wf (take k es) _ (new_wf sym)) as (b & H & Hwf & _).
  exists b. split; [done|].
  assert (∀ s px h o, rests_at b s px h o →
            o_price o = px ∧ index_ b !! o_order_id o = Some (mkOrderRef s px h)) as Hix.
  { intros s px h o (l & Hl & Hh & Hn).
    destruct (wf_level b Hwf _ _ _ _ Hl Hh) as (o' & Hn' & Hp & Hi).
    assert (o' = o) as -> by congruence. done. }
  split; [done|].
  intros s1 px1 h1 o1 s2 px2 h2 o2 H1 H2 Hid.
  destruct (Hix _ _ _ _ H1) as [_ Hi1]. destruct (Hix _ _ _ _ H2) as [_ Hi2].
  rewrite Hid in Hi1. rewrite Hi1 in Hi2. injection Hi2 as -> -> ->.
  split_and!; try done.
  destruct H1 as (_ & _ & _ & Hn1). destruct H2 as (_ & _ & _ & Hn2). congruence.
Qed.

Lemma snoc_eq_app_cons (q l1 l2 : list nat) h :
  h ∉ q → q ++ [h] = l1 ++ h :: l2 → l1 = q ∧ l2 = [].
Proof.
  revert l1. induction q as [|x q IH]; intros l1 Hnotin Heq.
  - destruct l1 as [|y l1]; simpl in Heq; [by injection Heq as <-|].
    injection Heq as _ Heq. by destruct l1.
  - destruct l1 as [|y l1]; simpl in Heq.
    + injection Heq as -> _. exfalso. apply Hnotin. by left.
    + injection Heq as -> Heq.
      destruct (IH l1) as [-> ->]; [|done|done].
      intros Hin. apply Hnotin. by right.
Qed.

(** X3. On a well-formed book that does not index [e.order_id], an add
    followed by a cancel of the same order for at least its size brings back
    the levels, the index and the nodes of the book as they were. *)
Theorem add_then_cancel_restores b ea ec :
  wf b →
  index_ b !! e_order_id ea = None →
  e_action ea = "A"%char →
  e_side ea = "B"%char ∨ e_side ea = "A"%char →
  e_action ec = "C"%char →
  e_side ec = "B"%char ∨ e_side ec = "A"%char →
  e_order_id ec = e_order_id ea →
  e_size ec >= e_size ea →
  ∃ b1 b2,
    Book.apply b ea = Some b1 ∧ Book.apply b1 ec = Some b2 ∧
    bids_ b2 = bids_ b ∧ asks_ b2 = asks_ b ∧
    index_ b2 = index_ b ∧ nodes_ b2 = nodes_ b ∧ symbol_ b2 = symbol_ b.
Proof.
  intros Hwf Hnone Haa Hsa Hac Hsc Hid Hsz.
  rewrite (apply_add b ea Haa Hsa).
  destruct (add_outcome b ea Hwf) as (bm & b1 & Hadd & _ & Hwf1 & Hout & Hlink).
  unfold taken_out in Hout. rewrite Hnone in Hout. subst bm.
  destruct Hlink as (Hsy & Hnx & Hix & Hns & Ho & Hs). simpl in *.
  set (s := Book.is_buy_side (e_side ea)) in *.
  set (q := default [] (Book.side_of b s !! e_price ea)) in *.
  exists b1. rewrite (apply_cancel b1 ec Hac Hsc).
  assert (index_ b1 !! e_order_id ec = Some (mkOrderRef s (e_price ea) (next_ b))) as Hi1.
  { rewrite Hix, Hid. apply lookup_insert_eq. }
  destruct (cancel_outcome b1 ec _ Hwf1 Hi1) as (l1 & l2 & o & Hl & Hn & _ & _ & Hc).
  simpl in Hl, Hn, Hc.
  rewrite Hns, lookup_insert_eq in Hn. injection Hn as <-. simpl in Hc.
  destruct (e_size ec >=? e_size ea) eqn:E; [|lia]. simpl in Hc.
  destruct Hc as (b2 & Hb2 & _ & Hsy2 & _ & Hix2 & Hns2 & Ho2 & Hs2).
  assert (nodes_ b !! next_ b = None) as Hfresh.
  { destruct (nodes_ b !! next_ b) eqn:E'; [|done].
    apply (wf_fresh b Hwf) in E'. lia. }
  assert (next_ b ∉ q) as Hnotin.
  { unfold q. destruct (Book.side_of b s !! e_price ea) as [q0|] eqn:Eq; simpl;
      [|apply not_elem_of_nil].
    intros Hin. destruct (wf_level b Hwf _ _ _ _ Eq Hin) as (? & ? & _). congruence. }
  rewrite Hs, lookup_insert_eq in Hl. injection Hl as Hl.
  destruct (snoc_eq_app_cons _ _ _ _ Hnotin Hl) as [-> ->].
  rewrite app_nil_r in Hs2.
  assert (Book.side_of b2 s = Book.side_of b s) as Hsame.
  { rewrite Hs2, Hs. unfold q.
    destruct (Book.side_of b s !! e_price ea) as [q0|] eqn:Eq; simpl.
    - destruct (wf_nodup b Hwf _ _ _ Eq) as [Hne _].
      destruct q0; [done|]. rewrite insert_insert_eq. by apply insert_id.
    - rewrite delete_insert_eq. by apply delete_id. }
  exists b2. split_and!; try done.
  - destruct s; simpl in *; [done|]. by rewrite Ho2.
  - destruct s; simpl in *; [|done]. by rewrite Ho2.
  - rewrite Hix2, Hix, Hid. rewrite delete_insert_eq. by apply delete_id.
  - rewrite Hns2, Hns. rewrite delete_insert_eq. by apply delete_id.
  - congruence.
Qed.

(** Order 3 is added to the book of S3 and cancelled in full. *)
Lemma add_then_cancel_restores_witness :
  ∃ b1 b2,
    Book.apply book_S3 (ev "A" "B" 100 4 3) = Some b1 ∧
    Book.apply b1 (ev "C" "B" 100 4 3) = Some b2 ∧
    bids_ b2 = bids_ book_S3 ∧ asks_ b2 = asks_ book_S3 ∧
    index_ b2 = index_ book_S3 ∧ nodes_ b2 = nodes_ book_S3 ∧
    symbol_ b2 = symbol_ book_S3.
Proof.
  apply (add_then_cancel_restores book_S3 (ev "A" "B" 100 4 3) (ev "C" "B" 100 4 3)).
  - exact book_S3_wf.
  - reflexivity.
  - reflexivity.
  - left. reflexivity.
  - reflexivity.
  - left. reflexivity.
  - reflexivity.
  - simpl. lia.
Defined.

(** X4. A cancel never leaves the order it names resting with quantity 0:
    after a cancel event on a well-formed book the order is either gone
    from the index or rests with a non-zero quantity. *)
Theorem cancel_leaves_no_zero_quantity b e b' r o :
  wf b →
  e_action e = "C"%char →
  e_side e = "B"%char ∨ e_side e = "A"%char →
  Book.apply b e = Some b' →
  index_ b' !! e_order_id e = Some r →
  nodes_ b' !! r_it r = Some o →
  o_qty o ≠ 0 ∧ index_ b !! e_order_id e = Some r.
Proof.
  intros Hwf Ha Hs Hb' Hr Ho. rewrite (apply_cancel b e Ha Hs) in Hb'.
  destruct (index_ b !! e_order_id e) as [r0|] eqn:Hid.
  - destruct (cancel_outcome b e r0 Hwf Hid) as (l1 & l2 & o0 & Hl & Hn & _ & _ & Hc).
    cbv zeta in Hc.
    destruct ((if e_size e >=? o_qty o0 then 0 else wrap32 (o_qty o0 - e_size e)) =? 0)
      eqn:E.
    + destruct Hc as (b2 & Hb2 & _ & _ & _ & Hix & _).
      assert (b2 = b') as -> by congruence.
      rewrite Hix, lookup_delete_eq in Hr. done.
    + destruct Hc as [Hb2 _]. rewrite Hb2 in Hb'. injection Hb' as <-.
      simpl in Hr, Ho. assert (r = r0) as -> by congruence.
      rewrite lookup_insert_eq in Ho. injection Ho as <-. simpl.
      split; [|done]. by apply Z.eqb_neq in E.
  - unfold Book.cancel_ in Hb'. rewrite Hid in Hb'. injection Hb' as <-. congruence.
Qed.

(** The partial cancel of S3 leaves order 1 with quantity 3. *)
Lemma cancel_leaves_no_zero_quantity_witness :
  o_qty (mkOrder 1 100 3) ≠ 0 ∧
  index_ book_S3 !! 1 = Some (mkOrderRef true 100 0%nat).
Proof.
  apply (cancel_leaves_no_zero_quantity book_S3 (ev "C" "B" 100 2 1)
           (default book_S3 (Book.apply book_S3 (ev "C" "B" 100 2 1)))
           (mkOrderRef true 100 0%nat) (mkOrder 1 100 3)).
  - exact book_S3_wf.
  - reflexivity.
  - left. reflexivity.
  - reflexivity.
  - reflexivity.
  - reflexivity.
Defined.

(** X5. A modify event for side ['B'] or ['A'] on a well-formed book always
    leaves [e.order_id] indexed, with a live node carrying that id; an order
    that was indexed stays on the side it was recorded on, whatever side the
    event names, and an order that was not is put on the event's side. *)
Theorem modify_keeps_side b e :
  wf b →
  e_action e = "M"%char →
  e_side e = "B"%char ∨ e_side e = "A"%char →
  ∃ b' r' o',
    Book.apply b e = Some b' ∧
    index_ b' !! e_order_id e = Some r' ∧
    nodes_ b' !! r_it r' = Some o' ∧ o_order_id o' = e_order_id e ∧
    r_is_buy r' =
      match index_ b !! e_order_id e with
      | Some r => r_is_buy r
      | None => Book.is_buy_side (e_side e)
      end.
Proof.
  intros Hwf Ha Hs. rewrite (apply_modify b e Ha Hs).
  assert (∀ b' r', wf b' → index_ b' !! e_order_id e = Some r' →
            ∃ o', nodes_ b' !! r_it r' = Some o' ∧ o_order_id o' = e_order_id e) as Hlive.
  { intros b' r' Hwf' Hr'.
    destruct (wf_index b' Hwf' _ _ Hr') as (l & o & _ & _ & Hn & Hoid & _). eauto. }
  destruct (index_ b !! e_order_id e) as [r|] eqn:Hid.
  - destruct (Bool.eqb (Book.is_buy_side (e_side e)) (r_is_buy r)) eqn:Es.
    + apply Bool.eqb_prop in Es.
      destruct (modify_outcome b e r Hwf Hid Es) as (l1 & l2 & o & _ & _ & _ & _ & H).
      destruct (negb (e_price e =? r_price r)).
      { destruct H as (b' & Hb' & Hwf' & _ & _ & Hix & _).
        assert (index_ b' !! e_order_id e =
                Some (mkOrderRef (r_is_buy r) (e_price e) (next_ b))) as Hr'
          by (rewrite Hix; apply lookup_insert_eq).
        destruct (Hlive _ _ Hwf' Hr') as (o' & ? & ?). by eexists b', _, o'. }
      destruct (e_size e >? o_qty o).
      { destruct H as (b' & Hb' & Hwf' & _ & _ & Hix & _).
        assert (index_ b' !! e_order_id e =
                Some (mkOrderRef (r_is_buy r) (r_price r) (next_ b))) as Hr'
          by (rewrite Hix; apply lookup_insert_eq).
        destruct (Hlive _ _ Hwf' Hr') as (o' & ? & ?). by eexists b', _, o'. }
      destruct H as [Hb' Hwf'].
      destruct (Hlive _ r Hwf' Hid) as (o' & ? & ?). by eexists _, r, o'.
    + exists b, r. destruct (Hlive b r Hwf Hid) as (o' & ? & ?). exists o'.
      split_and!; try done. unfold Book.modify_. by rewrite Hid, Es.
  - unfold Book.modify_. rewrite Hid.
    destruct (add_outcome b e Hwf) as (bm & b' & Hadd & _ & Hwf' & _ & Hlink).
    destruct Hlink as (_ & _ & Hix & _). simpl in Hix.
    assert (index_ b' !! e_order_id e =
            Some (mkOrderRef (Book.is_buy_side (e_side e)) (e_price e) (next_ bm))) as Hr'
      by (rewrite Hix; apply lookup_insert_eq).
    destruct (Hlive _ _ Hwf' Hr') as (o' & ? & ?). by eexists b', _, o'.
Qed.

(** A modify that names the ask side for bid order 1 is dropped. *)
Lemma modify_keeps_side_witness :
  ∃ b' r' o',
    Book.apply book_S3 (ev "M" "A" 100 9 1) = Some b' ∧
    index_ b' !! 1 = Some r' ∧
    nodes_ b' !! r_it r' = Some o' ∧ o_order_id o' = 1 ∧
    r_is_buy r' = true.
Proof.
  apply (modify_keeps_side book_S3 (ev "M" "A" 100 9 1)).
  - exact book_S3_wf.
  - reflexivity.
  - right. reflexivity.
Defined.

(** ** Order book: what an event leaves alone *)

Section frame.
Implicit Types (b : MboOrderBook) (H : list nat).

(** The handles of a level, [[]] when the level is missing. *)
Local Abbreviation lv b s px := (default [] (Book.side_of b s !! px)) (only parsing).

Lemma filter_omap_skip (f : nat → option Order) (id : Z) H (l : list nat) :
  (∀ x o, x ∈ H → f x = Some o → o_order_id o = id) →
  filter (λ o, o_order_id o ≠ id) (omap f l)
  = filter (λ o, o_order_id o ≠ id) (omap f (filter (.∉ H) l)).
Proof.
  intros HH. induction l as [|x l IH]; [done|].
  rewrite filter_cons. destruct (decide (x ∉ H)) as [Hx|Hx].
  - simpl. destruct (f x) as [o|]; [|exact IH]. rewrite !filter_cons.
    destruct (decide _); [f_equal|]; exact IH.
  - simpl. destruct (f x) as [o|] eqn:E; [|exact IH].
    rewrite filter_cons. destruct (decide (o_order_id o ≠ id)) as [Hne|_]; [|exact IH].
    exfalso. apply Hne. apply (HH x); [|done].
    by destruct (decide (x ∈ H)).
Qed.

Lemma omap_ext_in (f g : nat → option Order) (l : list nat) :
  (∀ x, x ∈ l → f x = g x) → omap f l = omap g l.
Proof.
  induction l as [|x l IH]; intros Hfg; [done|]. simpl.
  rewrite (Hfg x) by (by left).
  assert (omap f l = omap g l) as Heq
    by (apply IH; intros y Hy; apply Hfg; by right).
  destruct (g x); [f_equal|]; exact Heq.
Qed.

Lemma frame_from_handles b b' id H :
  (∀ x, x ∉ H → nodes_ b' !! x = nodes_ b !! x) →
  (∀ x o, x ∈ H → nodes_ b !! x = Some o → o_order_id o = id) →
  (∀ x o, x ∈ H → nodes_ b' !! x = Some o → o_order_id o = id) →
  (∀ s px, filter (.∉ H) (lv b' s px) = filter (.∉ H) (lv b s px)) →
  ∀ s px,
    filter (λ o, o_order_id o ≠ id) (Book.level_orders b' s px)
    = filter (λ o, o_order_id o ≠ id) (Book.level_orders b s px).
Proof.
  intros Hsame Hold Hnew Hlv s px. unfold Book.level_orders.
  rewrite (filter_omap_skip (λ h, nodes_ b' !! h) id H) by done.
  rewrite (filter_omap_skip (λ h, nodes_ b !! h) id H) by done.
  rewrite Hlv. f_equal. apply omap_ext_in.
  intros x Hx. apply Hsame. by apply list_elem_of_filter in Hx as [Hx _].
Qed.

Lemma taken_out_levels b bm id r :
  index_ b !! id = Some r →
  taken_out b bm id →
  ∀ s px, filter (.≠ r_it r) (lv bm s px) = filter (.≠ r_it r) (lv b s px).
Proof.
  intros Hid Hout. unfold taken_out in Hout. rewrite Hid in Hout.
  destruct Hout as (l1 & l2 & Hl & _ & _ & _ & _ & Ho & Hs).
  intros s px. destruct (bool_eq_or_negb (r_is_buy r) s) as [->| ->];
    [|by rewrite Ho].
  rewrite Hs. destruct (decide (px = r_price r)) as [->|Hne].
  - rewrite Hl. simpl.
    assert (filter (.≠ r_it r) (l1 ++ r_it r :: l2) = filter (.≠ r_it r) (l1 ++ l2)) as ->.
    { rewrite !filter_app, filter_cons. by destruct (decide (r_it r ≠ r_it r)). }
    destruct (decide (l1 ++ l2 = [])) as [E|E].
    + rewrite lookup_delete_eq. simpl. by rewrite E.
    + by rewrite lookup_insert_eq.
  - destruct (decide (l1 ++ l2 = []));
      [by rewrite lookup_delete_ne|by rewrite lookup_insert_ne].
Qed.

Lemma linked_levels bm b' s o :
  linked_at_tail bm b' s o →
  ∀ s0 px, filter (.≠ next_ bm) (lv b' s0 px) = filter (.≠ next_ bm) (lv bm s0 px).
Proof.
  intros (_ & _ & _ & _ & Ho & Hs) s0 px.
  destruct (bool_eq_or_negb s s0) as [->| ->]; [|by rewrite Ho].
  rewrite Hs. destruct (decide (px = o_price o)) as [->|Hne];
    [|by rewrite lookup_insert_ne].
  rewrite lookup_insert_eq. simpl. rewrite filter_app, filter_cons.
  destruct (decide (next_ bm ≠ next_ bm)); [done|]. by rewrite filter_nil, app_nil_r.
Qed.

Lemma filter_notin_two (x y : nat) (l : list nat) :
  filter (.∉ [x; y]) l = filter (.≠ y) (filter (.≠ x) l).
Proof.
  induction l as [|z l IH]; [done|].
  rewrite !filter_cons. destruct (decide (z ≠ x)) as [Hx|Hx].
  - rewrite filter_cons. destruct (decide (z ≠ y)) as [Hy|Hy].
    + destruct (decide (z ∉ [x; y])) as [_|Hn]; [by rewrite IH|].
      exfalso. apply Hn. intros Hin.
      apply elem_of_cons in Hin as [->|Hin]; [done|].
      apply list_elem_of_singleton in Hin. done.
    + destruct (decide (z ∉ [x; y])) as [Hn|_]; [|done].
      exfalso. apply Hn. apply dec_stable in Hy as ->. right. by left.
  - destruct (decide (z ∉ [x; y])) as [Hn|_]; [|done].
    exfalso. apply Hn. apply dec_stable in Hx as ->. by left.
Qed.

Lemma filter_ne_comm (x y : nat) (l : list nat) :
  filter (.≠ y) (filter (.≠ x) l) = filter (.≠ x) (filter (.≠ y) l).
Proof.
  rewrite !list_filter_filter. apply list_filter_iff. intros z. tauto.
Qed.

Lemma filter_notin_one (x : nat) (l : list nat) :
  filter (.∉ [x]) l = filter (.≠ x) l.
Proof.
  apply list_filter_iff. intros z. rewrite list_elem_of_singleton. done.
Qed.

(** A stale order taken out and a new one linked for the same id. *)
Lemma relink_frame b bm b' id s o :
  wf b → wf bm →
  o_order_id o = id →
  taken_out b bm id →
  linked_at_tail bm b' s o →
  (∀ id', id' ≠ id → index_ b' !! id' = index_ b !! id') ∧
  ∀ s0 px,
    filter (λ o, o_order_id o ≠ id) (Book.level_orders b' s0 px)
    = filter (λ o, o_order_id o ≠ id) (Book.level_orders b s0 px).
Proof.
  intros Hwf Hwfm Hoid Hout Hlink.
  pose proof (linked_levels _ _ _ _ Hlink) as Hlv2.
  destruct Hlink as (_ & _ & Hix' & Hns' & _ & _).
  assert (nodes_ bm !! next_ bm = None) as Hfresh.
  { destruct (nodes_ bm !! next_ bm) eqn:E; [|done].
    apply (wf_fresh bm Hwfm) in E. lia. }
  unfold taken_out in Hout.
  destruct (index_ b !! id) as [r|] eqn:Hid.
  - pose proof (taken_out_levels b bm id r Hid) as Hlv1.
    unfold taken_out in Hlv1. rewrite Hid in Hlv1. specialize (Hlv1 Hout).
    destruct Hout as (l1 & l2 & Hl & _ & Hnx & Hix & Hns & _ & _).
    destruct (wf_index b Hwf _ _ Hid) as (lr & or & _ & _ & Hnr & Hor & _).
    split.
    + intros id' Hne. rewrite Hix', Hoid, lookup_insert_ne by done.
      rewrite Hix. by rewrite lookup_delete_ne.
    + apply (frame_from_handles b b' id [r_it r; next_ bm]).
      * intros x Hx. rewrite Hns', Hns.
        rewrite lookup_insert_ne by (intros <-; apply Hx; right; by left).
        rewrite lookup_delete_ne by (intros <-; apply Hx; by left). done.
      * intros x o0 Hx Hn.
        apply elem_of_cons in Hx as [->|Hx]; [congruence|].
        apply list_elem_of_singleton in Hx as ->.
        rewrite Hns in Hfresh.
        destruct (decide (r_it r = next_ bm)) as [E|E]; [congruence|].
        rewrite lookup_delete_ne in Hfresh by done. congruence.
      * intros x o0 Hx Hn. rewrite Hns' in Hn.
        destruct (decide (x = next_ bm)) as [->|E].
        -- rewrite lookup_insert_eq in Hn. congruence.
        -- rewrite lookup_insert_ne in Hn by done.
           apply elem_of_cons in Hx as [->|Hx];
             [|by apply list_elem_of_singleton in Hx].
           rewrite Hns, lookup_delete_eq in Hn. done.
      * intros s0 px. rewrite !filter_notin_two.
        rewrite (filter_ne_comm (r_it r)), Hlv2.
        rewrite <- (filter_ne_comm (r_it r)), Hlv1. done.
  - subst bm. split.
    + intros id' Hne. by rewrite Hix', Hoid, lookup_insert_ne.
    + apply (frame_from_handles b b' id [next_ b]).
      * intros x Hx. rewrite Hns'.
        by rewrite lookup_insert_ne by (intros <-; apply Hx; by left).
      * intros x o0 Hx Hn. apply list_elem_of_singleton in Hx as ->. congruence.
      * intros x o0 Hx Hn. apply list_elem_of_singleton in Hx as ->.
        rewrite Hns', lookup_insert_eq in Hn. congruence.
      * intros s0 px. rewrite !filter_notin_one. apply Hlv2.
Qed.
End frame.

Lemma NoDup_split_unique (h : nat) (k1 k2 l1 l2 : list nat) :
  NoDup (l1 ++ h :: l2) → k1 ++ h :: k2 = l1 ++ h :: l2 → k1 = l1 ∧ k2 = l2.
Proof.
  revert k1. induction l1 as [|x l1 IH]; intros k1 Hnd Heq.
  - destruct k1 as [|y k1]; simpl in *; [by injection Heq as ->|].
    injection Heq as -> Heq. apply NoDup_cons in Hnd as [Hnotin _].
    exfalso. apply Hnotin. rewrite <- Heq. apply elem_of_app. right. by left.
  - destruct k1 as [|y k1]; simpl in *.
    + injection Heq as <- Heq. apply NoDup_cons in Hnd as [Hnotin _].
      exfalso. apply Hnotin. apply elem_of_app. right. by left.
    + injection Heq as -> Heq. apply NoDup_cons in Hnd as [_ Hnd].
      destruct (IH k1 Hnd Heq) as [-> ->]. done.
Qed.

(** Rewriting the quantity of the node of [id] in place. *)
Lemma requantify_frame b id h o q :
  nodes_ b !! h = Some o → o_order_id o = id →
  ∀ s px,
    filter (λ o, o_order_id o ≠ id)
      (Book.level_orders
         (Book.set_nodes b (<[h := mkOrder (o_order_id o) (o_price o) q]> (nodes_ b))) s px)
    = filter (λ o, o_order_id o ≠ id) (Book.level_orders b s px).
Proof.
  intros Hn Hoid. apply (frame_from_handles b _ id [h]).
  - intros x Hx. simpl. apply lookup_insert_ne. intros <-. apply Hx. by left.
  - intros x o0 Hx Hn0. apply list_elem_of_singleton in Hx as ->. congruence.
  - intros x o0 Hx Hn0. apply list_elem_of_singleton in Hx as ->.
    simpl in Hn0. rewrite lookup_insert_eq in Hn0. injection Hn0 as <-. done.
  - intros s px. by rewrite side_of_set_nodes.
Qed.

(** X6. No event other than a reset touches an order it does not name: on
    a well-formed book, after [apply] the index entries of all other ids are
    as before, and at every price on both sides the orders with another id
    are the same, with the same quantities, in the same FIFO order. *)
Theorem other_orders_untouched b e b' :
  wf b →
  e_action e ≠ "R"%char →
  Book.apply b e = Some b' →
  (∀ id', id' ≠ e_order_id e → index_ b' !! id' = index_ b !! id') ∧
  ∀ s px,
    filter (λ o, o_order_id o ≠ e_order_id e) (Book.level_orders b' s px)
    = filter (λ o, o_order_id o ≠ e_order_id e) (Book.level_orders b s px).
Proof.
  intros Hwf HR Happ.
  assert (Hadd : ∀ b', Book.add_ b e = Some b' →
            (∀ id', id' ≠ e_order_id e → index_ b' !! id' = index_ b !! id') ∧
            ∀ s px,
              filter (λ o, o_order_id o ≠ e_order_id e) (Book.level_orders b' s px)
              = filter (λ o, o_order_id o ≠ e_order_id e) (Book.level_orders b s px)).
  { intros b2 Hb2.
    destruct (add_outcome b e Hwf) as (bm & b3 & Hadd & Hwfm & _ & Hout & Hlink).
    assert (b3 = b2) as -> by congruence.
    eapply relink_frame; [exact Hwf|exact Hwfm| |exact Hout|exact Hlink]. done. }
  assert (Hcancel : ∀ b', Book.cancel_ b e = Some b' →
            (∀ id', id' ≠ e_order_id e → index_ b' !! id' = index_ b !! id') ∧
            ∀ s px,
              filter (λ o, o_order_id o ≠ e_order_id e) (Book.level_orders b' s px)
              = filter (λ o, o_order_id o ≠ e_order_id e) (Book.level_orders b s px)).
  { intros b2 Hb2. destruct (index_ b !! e_order_id e) as [r|] eqn:Hid.
    - destruct (cancel_outcome b e r Hwf Hid) as (l1 & l2 & o & Hl & Hn & Hoid & _ & Hc).
      cbv zeta in Hc.
      destruct ((if e_size e >=? o_qty o then 0 else wrap32 (o_qty o - e_size e)) =? 0).
      + destruct Hc as (b3 & Hb3 & _ & Hsy & Hnx & Hix & Hns & Ho & Hs).
        assert (b3 = b2) as -> by congruence.
        split; [intros id' Hne; by rewrite Hix, lookup_delete_ne|].
        assert (taken_out b b2 (e_order_id e)) as Hout.
        { unfold taken_out. rewrite Hid. exists l1, l2. split_and!; try done.
          rewrite Hs. by destruct (l1 ++ l2); destruct (decide _). }
        apply (frame_from_handles b b2 (e_order_id e) [r_it r]).
        * intros x Hx. rewrite Hns. apply lookup_delete_ne. intros <-. apply Hx. by left.
        * intros x o0 Hx Hn0. apply list_elem_of_singleton in Hx as ->. congruence.
        * intros x o0 Hx Hn0. apply list_elem_of_singleton in Hx as ->.
          rewrite Hns, lookup_delete_eq in Hn0. done.
        * intros s px. rewrite !filter_notin_one.
          by apply (taken_out_levels b b2 (e_order_id e) r).
      + destruct Hc as [Hb3 _]. rewrite Hb3 in Hb2. injection Hb2 as <-.
        split; [done|]. by apply requantify_frame.
    - unfold Book.cancel_ in Hb2. rewrite Hid in Hb2. by injection Hb2 as <-. }
  assert (Hmodify : ∀ b', Book.modify_ b e = Some b' →
            (∀ id', id' ≠ e_order_id e → index_ b' !! id' = index_ b !! id') ∧
            ∀ s px,
              filter (λ o, o_order_id o ≠ e_order_id e) (Book.level_orders b' s px)
              = filter (λ o, o_order_id o ≠ e_order_id e) (Book.level_orders b s px)).
  { intros b2 Hb2. destruct (index_ b !! e_order_id e) as [r|] eqn:Hid;
      [|unfold Book.modify_ in Hb2; rewrite Hid in Hb2; by apply Hadd].
    destruct (Bool.eqb (Book.is_buy_side (e_side e)) (r_is_buy r)) eqn:Es;
      [|unfold Book.modify_ in Hb2; rewrite Hid, Es in Hb2; by injection Hb2 as <-].
    apply Bool.eqb_prop in Es.
    destruct (modify_outcome b e r Hwf Hid Es) as (l1 & l2 & o & Hl & Hn & Hoid & Hopx & H).
    destruct (erase_indexed b _ r Hwf Hid)
      as (k1 & k2 & o1 & b1 & Hl1 & _ & _ & _ & _ & Hsy1 & Hix1 & Hnx1 & Hns1 & Ho1 & Hs1 & Hwfm & _).
    assert (k1 = l1 ∧ k2 = l2) as [-> ->].
    { destruct (wf_nodup b Hwf _ _ _ Hl) as [_ Hnd].
      apply (NoDup_split_unique (r_it r)); [done|congruence]. }
    clear Hl1.
    set (bm := Book.set_index b1 (delete (e_order_id e) (index_ b1))) in *.
    assert (taken_out b bm (e_order_id e)) as Hout.
    { unfold taken_out. rewrite Hid. exists l1, l2. unfold bm. simpl.
      rewrite !side_of_set_index, Hix1. split_and!; try done.
      rewrite Hs1. by destruct (l1 ++ l2); destruct (decide _). }
    assert (Hrel : ∀ px' sz,
              index_ b2 = <[e_order_id e := mkOrderRef (r_is_buy r) px' (next_ b)]> (index_ b) →
              nodes_ b2 = <[next_ b := mkOrder (e_order_id e) px' sz]>
                            (delete (r_it r) (nodes_ b)) →
              symbol_ b2 = symbol_ b → next_ b2 = S (next_ b) →
              Book.side_of b2 (negb (r_is_buy r)) = Book.side_of b (negb (r_is_buy r)) →
              Book.side_of b2 (r_is_buy r) =
                <[px' := default [] (Book.side_of bm (r_is_buy r) !! px') ++ [next_ b]]>
                  (Book.side_of bm (r_is_buy r)) →
              linked_at_tail bm b2 (r_is_buy r) (mkOrder (e_order_id e) px' sz)).
    { intros px' sz Hix Hns Hsy Hnx Ho Hs. unfold linked_at_tail, bm. simpl.
      rewrite !side_of_set_index, Hix1, Hnx1, Hns1, Hsy1, Ho1.
      unfold bm in Hs. rewrite !side_of_set_index, ?Hnx1 in Hs.
      split_and!; try done; try congruence.
      by rewrite Hix, insert_delete_eq. }
    assert (Book.side_of bm (r_is_buy r) = Book.side_of b1 (r_is_buy r)) as Hbm
      by (unfold bm; by rewrite side_of_set_index).
    destruct (negb (e_price e =? r_price r)) eqn:Epx.
    { destruct H as (b3 & Hb3 & _ & Hsy & Hnx & Hix & Hns & Ho & Hs).
      assert (b3 = b2) as -> by congruence.
      apply (relink_frame b bm b2 (e_order_id e) (r_is_buy r)
               (mkOrder (e_order_id e) (e_price e) (e_size e))); try done.
      apply Hrel; try done.
      assert (e_price e ≠ r_price r) as Hne
        by (apply negb_true_iff in Epx; by apply Z.eqb_neq).
      rewrite Hs, Hbm, Hs1. f_equal. f_equal. f_equal.
      destruct (l1 ++ l2); [by rewrite lookup_delete_ne|by rewrite lookup_insert_ne]. }
    destruct (e_size e >? o_qty o) eqn:Esz.
    { destruct H as (b3 & Hb3 & _ & Hsy & Hnx & Hix & Hns & Ho & Hs).
      assert (b3 = b2) as -> by congruence.
      apply (relink_frame b bm b2 (e_order_id e) (r_is_buy r)
               (mkOrder (e_order_id e) (r_price r) (e_size e))); try done.
      apply Hrel; try done.
      rewrite Hs, Hbm, Hs1.
      destruct (l1 ++ l2) eqn:E1.
      - rewrite lookup_delete_eq. simpl. by rewrite insert_delete_eq.
      - rewrite lookup_insert_eq. simpl. by rewrite insert_insert_eq. }
    destruct H as [Hb3 _]. rewrite Hb3 in Hb2. injection Hb2 as <-.
    split; [done|]. by apply requantify_frame. }
  unfold Book.apply in Happ.
  repeat match type of Happ with
         | context [if ?c then _ else _] => destruct c eqn:?
         end;
    try (injection Happ as <-; done); auto.
  exfalso. apply HR. by apply Ascii.eqb_eq.
Qed.

(** After the partial cancel of order 1 in S3, order 2 is where it was. *)
Lemma other_orders_untouched_witness :
  let b' := default book_S3 (Book.apply book_S3 (ev "C" "B" 100 2 1)) in
  (∀ id', id' ≠ 1 → index_ b' !! id' = index_ book_S3 !! id') ∧
  (∀ s px,
     filter (λ o, o_order_id o ≠ 1) (Book.level_orders b' s px)
     = filter (λ o, o_order_id o ≠ 1) (Book.level_orders book_S3 s px)).
Proof.
  apply (other_orders_untouched book_S3 (ev "C" "B" 100 2 1)).
  - exact book_S3_wf.
  - discriminate.
  - reflexivity.
Defined.

(** ** Top of book *)

Section book_order.
Context (is_buy : bool).

#[local] Instance key_before_total : Total (BookView.key_before is_buy).
Proof. intros x y. unfold BookView.key_before. destruct is_buy; lia. Qed.

#[local] Instance key_before_trans : Transitive (BookView.key_before is_buy).
Proof. intros x y z. unfold BookView.key_before. destruct is_buy; lia. Qed.

Lemma book_order_elem (m : gmap Z (list nat)) px l :
  (px, l) ∈ BookView.book_order is_buy m ↔ m !! px = Some l.
Proof.
  unfold BookView.book_order. rewrite merge_sort_Permutation.
  apply elem_of_map_to_list.
Qed.

(** The first level in book order is the best one, and a side with a
    level has a first one. *)
Lemma book_order_head (m : gmap Z (list nat)) :
  match BookView.book_order is_buy m with
  | [] => m = ∅
  | (px, l) :: _ =>
      m !! px = Some l ∧
      ∀ px' l', m !! px' = Some l' → if is_buy then px' <= px else px <= px'
  end.
Proof.
  pose proof (StronglySorted_merge_sort (BookView.key_before is_buy) (map_to_list m)) as Hs.
  pose proof (book_order_elem m) as He.
  unfold BookView.book_order in *.
  destruct (merge_sort (BookView.key_before is_buy) (map_to_list m)) as [|[px l] rest].
  - apply map_eq. intros k. rewrite lookup_empty.
    destruct (m !! k) as [l|] eqn:E; [|done].
    apply He in E. by apply elem_of_nil in E.
  - split; [apply He; by left|].
    intros px' l' Hl'. apply He in Hl'.
    apply StronglySorted_inv in Hs as [_ Hall].
    apply elem_of_cons in Hl' as [[= -> ->]|Hin]; [destruct is_buy; lia|].
    rewrite Forall_forall in Hall. specialize (Hall _ Hin).
    unfold BookView.key_before in Hall. simpl in Hall. by destruct is_buy.
Qed.
End book_order.

Lemma sum_qty_live b l :
  (∀ h, h ∈ l → is_Some (nodes_ b !! h)) → is_Some (BookView.sum_qty b l).
Proof.
  unfold BookView.sum_qty. generalize 0.
  induction l as [|h l IH]; intros z Hl; [by eexists|]. simpl.
  destruct (Hl h) as [o ->]; [by left|]. simpl. apply IH.
  intros h' Hh'. apply Hl. by right.
Qed.

(** X7. On a well-formed book [top_of_book] is defined, and each side of
    its result is the best level of that side: [has_bid] holds exactly when
    there is a bid level, and then [bid_px] is the quotient by the price
    scale of a bid price that no other bid price exceeds, and [bid_sz] the
    sum of the quantities resting there; likewise for the asks with the
    lowest ask price.  [mid] and [spread] are [0.5 * (bid_px + ask_px)] and
    [ask_px - bid_px] when both sides are present and zero otherwise. *)
Theorem top_of_book_best b scale :
  wf b →
  ∃ t, BookView.top_of_book b scale = Some t ∧
    (has_bid t = false → bids_ b = ∅ ∧ bid_sz t = 0) ∧
    (has_bid t = true →
       ∃ px l, bids_ b !! px = Some l ∧
               (∀ px' l', bids_ b !! px' = Some l' → px' <= px) ∧
               bid_px t = PrimFloat.div (int64_to_double px) scale ∧
               BookView.sum_qty b l = Some (bid_sz t)) ∧
    (has_ask t = false → asks_ b = ∅ ∧ ask_sz t = 0) ∧
    (has_ask t = true →
       ∃ px l, asks_ b !! px = Some l ∧
               (∀ px' l', asks_ b !! px' = Some l' → px <= px') ∧
               ask_px t = PrimFloat.div (int64_to_double px) scale ∧
               BookView.sum_qty b l = Some (ask_sz t)) ∧
    (if has_bid t && has_ask t
     then mid t = PrimFloat.mul 0.5 (PrimFloat.add (bid_px t) (ask_px t)) ∧
          spread t = PrimFloat.sub (ask_px t) (bid_px t)
     else mid t = PrimFloat.zero ∧ spread t = PrimFloat.zero).
Proof.
  intros Hwf. unfold BookView.top_of_book.
  pose proof (book_order_head true (bids_ b)) as Hb.
  pose proof (book_order_head false (asks_ b)) as Ha.
  assert (∀ s px l, Book.side_of b s !! px = Some l → is_Some (BookView.sum_qty b l)) as Hsum.
  { intros s px l Hl. apply sum_qty_live. intros h Hh.
    destruct (wf_level b Hwf _ _ _ _ Hl Hh) as (o & -> & _). by eexists. }
  destruct (BookView.book_order true (bids_ b)) as [|[pb lb] restb];
    destruct (BookView.book_order false (asks_ b)) as [|[pa la] resta]; simpl in *.
  - eexists. split; [reflexivity|]. simpl. split_and!; try done.
  - destruct Ha as [Hla Hmin]. destruct (Hsum false _ _ Hla) as [sa Hsa]. rewrite Hsa. simpl.
    eexists. split; [done|]. simpl. split_and!; try done.
    intros _. by exists pa, la.
  - destruct Hb as [Hlb Hmax]. destruct (Hsum true _ _ Hlb) as [sb Hsb]. rewrite Hsb. simpl.
    eexists. split; [done|]. simpl. split_and!; try done.
    intros _. by exists pb, lb.
  - destruct Hb as [Hlb Hmax]. destruct (Hsum true _ _ Hlb) as [sb Hsb]. rewrite Hsb.
    destruct Ha as [Hla Hmin]. destruct (Hsum false _ _ Hla) as [sa Hsa]. rewrite Hsa. simpl.
    eexists. split; [done|]. simpl. split_and!; try done.
    + intros _. by exists pb, lb.
    + intros _. by exists pa, la.
Qed.

(** Scenarios S1 and S2: the best bid of three bids on two levels; the
    price is the binary64 number nearest to 0.01. *)
Lemma top_of_book_best_witness :
  let b := book_of [ev "A" "B" 100 5 1; ev "A" "B" 100 3 2; ev "A" "B" 99 10 3] in
  BookView.top_of_book b 10000 =
    Some (mkTopOfBook true false 0x1.47ae147ae147bp-7 8 PrimFloat.zero 0 PrimFloat.zero PrimFloat.zero) ∧
  BookView.top_of_book (book_of [ev "A" "B" 100 5 1]) 10000 =
    Some (mkTopOfBook true false 0x1.47ae147ae147bp-7 5 PrimFloat.zero 0 PrimFloat.zero PrimFloat.zero).
Proof.
  destruct (top_of_book_best (book_of [ev "A" "B" 100 5 1; ev "A" "B" 100 3 2; ev "A" "B" 99 10 3]) 10000)
    as (t & Ht & _).
  - by apply (reachable_wf "" [ev "A" "B" 100 5 1; ev "A" "B" 100 3 2; ev "A" "B" 99 10 3]).
  - split; reflexivity.
Defined.

(** ** The latency histogram: buckets and recorded samples *)

(** On a non-zero word [bucket] is the position of the highest set bit. *)
Lemma bucket_log2 ns :
  0 < ns <= uint64_max → Pow2Histogram.bucket ns = Z.log2 ns.
Proof.
  unfold uint64_max. intros [Hpos Hmax].
  unfold Pow2Histogram.bucket, Pow2Histogram.clzll.
  destruct (ns =? 0) eqn:E0; [lia|].
  replace (63 - (63 - Z.log2 ns)) with (Z.log2 ns) by lia.
  pose proof (Z.log2_nonneg ns) as Hl0.
  assert (Z.log2 ns < 64) as Hl63 by (apply Z.log2_lt_pow2; lia).
  destruct (Z.log2 ns <? 0) eqn:E1; [lia|].
  destruct (Z.log2 ns >? 63) eqn:E2; [lia|]. done.
Qed.

Lemma bucket_range ns :
  0 <= ns <= uint64_max → 0 <= Pow2Histogram.bucket ns <= 63.
Proof.
  intros [H0 Hmax]. destruct (decide (ns = 0)) as [->|Hne]; [by vm_compute|].
  rewrite bucket_log2 by lia. pose proof (Z.log2_nonneg ns).
  assert (Z.log2 ns < 64) by (apply Z.log2_lt_pow2; unfold uint64_max in Hmax; lia).
  lia.
Qed.

(** X8. A duration of 0 goes to bucket 0; a duration [ns] in
    [[1, 2^64)] goes to the bucket [b] in [[0, 63]] with
    [2^b <= ns < 2^(b+1)]. *)
Theorem bucket_bounds ns :
  0 <= ns <= uint64_max →
  0 <= Pow2Histogram.bucket ns <= 63 ∧
  (ns = 0 → Pow2Histogram.bucket ns = 0) ∧
  (0 < ns →
   2 ^ Pow2Histogram.bucket ns <= ns < 2 ^ (Pow2Histogram.bucket ns + 1)).
Proof.
  intros Hns. split_and!.
  - by apply bucket_range.
  - by apply bucket_range.
  - by intros ->.
  - intros Hpos. rewrite bucket_log2 by lia.
    pose proof (Z.log2_spec ns Hpos) as Hs.
    replace (Z.log2 ns + 1) with (Z.succ (Z.log2 ns)) by lia. lia.
Qed.

Lemma bucket_bounds_witness :
  0 <= Pow2Histogram.bucket 1000 <= 63 ∧
  (1000 = 0 → Pow2Histogram.bucket 1000 = 0) ∧
  (0 < 1000 →
   2 ^ Pow2Histogram.bucket 1000 <= 1000 < 2 ^ (Pow2Histogram.bucket 1000 + 1)).
Proof. apply (bucket_bounds 1000). unfold uint64_max. lia. Defined.

Section histogram_samples.
Import Pow2Histogram.

Lemma sum_nonneg (cs : list Z) : Forall (λ x, 0 <= x) cs → 0 <= foldr Z.add 0 cs.
Proof. induction 1; simpl; lia. Qed.

Lemma elem_le_sum (cs : list Z) (x : Z) :
  Forall (λ x, 0 <= x) cs → x ∈ cs → x <= foldr Z.add 0 cs.
Proof.
  induction 1 as [|y l Hy Hl IH]; intros Hx; [by apply elem_of_nil in Hx|].
  simpl. pose proof (sum_nonneg l Hl).
  apply elem_of_cons in Hx as [->|Hx]; [lia|]. specialize (IH Hx). lia.
Qed.

Lemma sum_alter_succ (cs : list Z) (i : nat) f :
  (i < length cs)%nat → (∀ x, f x = x + 1) →
  foldr Z.add 0 (alter f i cs) = foldr Z.add 0 cs + 1.
Proof.
  unfold alter. revert i.
  induction cs as [|x cs IH]; intros i Hi Hf; simpl in *; [lia|].
  destruct i as [|i]; simpl; [rewrite Hf; lia|]. rewrite IH; [lia|lia|done].
Qed.

Lemma samples_alter_succ (cs : list Z) (i : nat) (b : Z) f :
  (i < length cs)%nat → Forall (λ x, 0 <= x) cs →
  (∀ x, 0 <= x → f x = x + 1) →
  samples_from (alter f i cs) b ≡ₚ (b + Z.of_nat i) :: samples_from cs b.
Proof.
  unfold alter. revert i b.
  induction cs as [|x cs IH]; intros i b Hi Hpos Hf; simpl in *; [lia|].
  apply Forall_cons in Hpos as [Hx Hpos].
  destruct i as [|i]; simpl.
  - rewrite Hf by done. replace (Z.to_nat (x + 1)) with (S (Z.to_nat x)) by lia.
    simpl. by rewrite Z.add_0_r.
  - rewrite IH by (done || lia).
    replace (b + 1 + Z.of_nat i) with (b + Z.of_nat (S i)) by lia.
    by rewrite Permutation_middle.
Qed.

Lemma samples_from_ge (cs : list Z) (b x : Z) : x ∈ samples_from cs b → b <= x.
Proof.
  revert b. induction cs as [|c cs IH]; intros b Hx; simpl in Hx;
    [by apply elem_of_nil in Hx|].
  apply elem_of_app in Hx as [Hx|Hx].
  - apply elem_of_replicate in Hx as [-> _]. lia.
  - apply IH in Hx. lia.
Qed.

Lemma samples_from_sorted (cs : list Z) (b : Z) : Sorted Z.le (samples_from cs b).
Proof.
  revert b. induction cs as [|c cs IH]; intros b; simpl; [constructor|].
  induction (Z.to_nat c) as [|k IHk]; simpl; [apply IH|].
  constructor; [done|].
  destruct k; simpl.
  - specialize (IH (b + 1)).
    destruct (samples_from cs (b + 1)) as [|y l] eqn:E; constructor.
    assert (y ∈ samples_from cs (b + 1)) as Hy by (rewrite E; by left).
    apply samples_from_ge in Hy. lia.
  - constructor. lia.
Qed.

(** One [add] on a histogram that is in order and not full. *)
Lemma add_ok (h : t) (ns : Z) :
  ok h → n h < uint64_max → 0 <= ns <= uint64_max →
  ok (add h ns) ∧ n (add h ns) = n h + 1 ∧
  samples (add h ns) ≡ₚ bucket ns :: samples h.
Proof.
  intros (Hlen & Hpos & Hn & Hmax) Hfull Hns.
  pose proof (bucket_range ns Hns) as Hb.
  assert (Z.to_nat (bucket ns) < length (c h))%nat as Hi
    by (rewrite Hlen; unfold K; lia).
  assert (∀ x, x ∈ c h → 0 <= x <= n h) as Hle.
  { intros x Hx. split; [by apply (proj1 (Forall_forall _ _) Hpos)|].
    rewrite Hn. by apply elem_le_sum. }
  assert (alter (λ x, wrap64u (x + 1)) (Z.to_nat (bucket ns)) (c h)
          = alter (λ x, x + 1) (Z.to_nat (bucket ns)) (c h)) as Halter.
  { apply list_eq. intros j. rewrite !list_lookup_alter.
    destruct (decide (Z.to_nat (bucket ns) = j)) as [<-|Hne]; [|done].
    destruct (c h !! Z.to_nat (bucket ns)) as [x|] eqn:E; [|done]. simpl. f_equal.
    apply list_elem_of_lookup_2 in E. apply Hle in E.
    unfold wrap64u. unfold uint64_max in *. apply Z.mod_small. lia. }
  unfold add, samples, ok. simpl. rewrite Halter.
  assert (wrap64u (n h + 1) = n h + 1) as ->.
  { unfold wrap64u. unfold uint64_max in *. apply Z.mod_small.
    pose proof (sum_nonneg _ Hpos). lia. }
  split_and!.
  - by rewrite length_alter.
  - apply Forall_forall. intros x Hx.
    apply list_elem_of_lookup in Hx as [j Hj]. rewrite list_lookup_alter in Hj.
    destruct (decide (Z.to_nat (bucket ns) = j)) as [<-|Hne].
    + destruct (c h !! Z.to_nat (bucket ns)) as [y|] eqn:E; [|done].
      injection Hj as <-. apply list_elem_of_lookup_2 in E. apply Hle in E. lia.
    + apply list_elem_of_lookup_2 in Hj. apply Hle in Hj. lia.
  - rewrite sum_alter_succ by done. lia.
  - lia.
  - done.
  - rewrite samples_alter_succ by done.
    by replace (0 + Z.of_nat (Z.to_nat (bucket ns))) with (bucket ns) by lia.
Qed.

Lemma init_ok : ok init ∧ samples init = [].
Proof. split; [|reflexivity]. split_and!; [reflexivity| |reflexivity|by vm_compute].
  apply Forall_forall. intros x Hx. apply elem_of_replicate in Hx as [-> _]. lia. Qed.

Lemma add_all_ok (nss : list Z) : ∀ h,
  ok h → n h + Z.of_nat (length nss) <= uint64_max →
  Forall (λ ns, 0 <= ns <= uint64_max) nss →
  ok (foldl add h nss) ∧
  n (foldl add h nss) = n h + Z.of_nat (length nss) ∧
  samples (foldl add h nss) ≡ₚ map bucket nss ++ samples h.
Proof.
  induction nss as [|ns nss IH]; intros h Hok Hlen Hns; simpl.
  - split_and!; [done|lia|done].
  - apply Forall_cons in Hns as [Hns Hrest].
    simpl in Hlen.
    destruct (add_ok h ns Hok) as (Hok' & Hn' & Hs'); [lia|done|].
    destruct (IH (add h ns) Hok') as (Hok'' & Hn'' & Hs''); [lia|done|].
    split_and!; [done|lia|].
    rewrite Hs'', Hs'. by rewrite Permutation_middle.
Qed.
End histogram_samples.

(** X9. Recording durations [nss] (each a [uint64_t], fewer than [2^64]
    of them) in a fresh histogram leaves [n] equal to their number and the
    counters holding exactly their buckets: the samples read off the
    counters in increasing bucket order are the buckets of [nss], sorted. *)
Theorem add_records_buckets (nss : list Z) :
  Forall (λ ns, 0 <= ns <= uint64_max) nss →
  Z.of_nat (length nss) <= uint64_max →
  let h := foldl Pow2Histogram.add Pow2Histogram.init nss in
  Pow2Histogram.ok h ∧
  Pow2Histogram.n h = Z.of_nat (length nss) ∧
  Pow2Histogram.samples h ≡ₚ map Pow2Histogram.bucket nss ∧
  Sorted Z.le (Pow2Histogram.samples h).
Proof.
  intros Hns Hlen.
  destruct init_ok as [Hok Hs0].
  destruct (add_all_ok nss Pow2Histogram.init Hok) as (Hok' & Hn' & Hs'); [done|done|].
  split_and!; [done|done| |apply samples_from_sorted].
  rewrite Hs', Hs0. by rewrite app_nil_r.
Qed.

Lemma add_records_buckets_witness :
  let h := foldl Pow2Histogram.add Pow2Histogram.init [40; 1; 32] in
  Pow2Histogram.ok h ∧
  Pow2Histogram.n h = Z.of_nat (length [40; 1; 32]) ∧
  Pow2Histogram.samples h ≡ₚ map Pow2Histogram.bucket [40; 1; 32] ∧
  Sorted Z.le (Pow2Histogram.samples h).
Proof.
  apply (add_records_buckets [40; 1; 32]).
  - unfold uint64_max. repeat constructor; lia.
  - unfold uint64_max. simpl. lia.
Defined.

(** ** The latency histogram: percentiles *)

Lemma upper_bound_mono b1 b2 :
  b1 <= b2 → Pow2Histogram.upper_bound b1 <= Pow2Histogram.upper_bound b2.
Proof.
  intros Hle. unfold Pow2Histogram.upper_bound.
  destruct (b1 >=? 63) eqn:E1; destruct (b2 >=? 63) eqn:E2; try lia.
  - destruct (decide (0 <= b1 + 1)) as [H0|H0].
    + apply Z.pow_le_mono_r; lia.
    + rewrite (Z.pow_neg_r 2 (b1 + 1)) by lia. lia.
  - destruct (decide (0 <= b1 + 1)) as [H0|H0].
    + apply Z.pow_le_mono_r; lia.
    + rewrite (Z.pow_neg_r 2 (b1 + 1)) by lia. apply Z.pow_nonneg. lia.
Qed.

(** The loop reports the bound of a bucket at or after the one it starts
    from, or the cap. *)
Lemma scan_shape cs : ∀ b cum t,
  ∃ bk, b <= bk ∧ Pow2Histogram.scan cs b cum t = Pow2Histogram.upper_bound bk.
Proof.
  induction cs as [|x cs IH]; intros b cum t; simpl.
  - exists (Z.max b 63). split; [lia|].
    unfold Pow2Histogram.upper_bound.
    destruct (Z.max b 63 >=? 63) eqn:E; [done|lia].
  - destruct (wrap64u (cum + x) >=? t).
    + exists b. split; [lia|]. unfold Pow2Histogram.upper_bound.
      by rewrite !Z.shiftl_1_l.
    + destruct (IH (b + 1) (wrap64u (cum + x)) t) as (bk & Hb & ->).
      exists bk. split; [lia|done].
Qed.

Lemma scan_mono cs : ∀ b cum t1 t2,
  t1 <= t2 → Pow2Histogram.scan cs b cum t1 <= Pow2Histogram.scan cs b cum t2.
Proof.
  induction cs as [|x cs IH]; intros b cum t1 t2 Hle; simpl; [lia|].
  destruct (wrap64u (cum + x) >=? t2) eqn:E2.
  - destruct (wrap64u (cum + x) >=? t1) eqn:E1; [lia|lia].
  - destruct (wrap64u (cum + x) >=? t1) eqn:E1; [|by apply IH].
    destruct (scan_shape cs (b + 1) (wrap64u (cum + x)) t2) as (bk & Hb & ->).
    transitivity (Pow2Histogram.upper_bound b).
    + unfold Pow2Histogram.upper_bound. rewrite !Z.shiftl_1_l. lia.
    + apply upper_bound_mono. lia.
Qed.

(** X10. [percentile] grows with the rank it looks for: when the rank
    computed for [p1] is at most the one computed for [p2], the result for
    [p1] is at most the result for [p2]; and on a histogram with samples
    every result is a power of two between [2] and [2^63]. *)
Theorem percentile_monotone h p1 p2 t1 t2 :
  Pow2Histogram.target p1 (Pow2Histogram.n h) = Some t1 →
  Pow2Histogram.target p2 (Pow2Histogram.n h) = Some t2 →
  t1 <= t2 →
  ∃ v1 v2,
    Pow2Histogram.percentile h p1 = Some v1 ∧
    Pow2Histogram.percentile h p2 = Some v2 ∧
    v1 <= v2 ∧
    (Pow2Histogram.n h ≠ 0 → ∃ k, 1 <= k <= 63 ∧ v2 = 2 ^ k).
Proof.
  intros H1 H2 Hle. unfold Pow2Histogram.percentile.
  destruct (Pow2Histogram.n h =? 0) eqn:E.
  - exists 0, 0. split_and!; [done|done|lia|]. intros Hn. apply Z.eqb_eq in E. done.
  - rewrite H1, H2. simpl. eexists _, _. split_and!; [done|done|by apply scan_mono|].
    intros _. destruct (scan_shape (Pow2Histogram.c h) 0 0 t2) as (bk & Hb & ->).
    unfold Pow2Histogram.upper_bound. destruct (bk >=? 63) eqn:E63.
    + exists 63. split; [lia|done].
    + exists (bk + 1). split; [lia|done].
Qed.

Lemma percentile_monotone_witness :
  ∃ v1 v2,
    Pow2Histogram.percentile hist_1_32_40 0.5%float = Some v1 ∧
    Pow2Histogram.percentile hist_1_32_40 1%float = Some v2 ∧
    v1 <= v2 ∧
    (Pow2Histogram.n hist_1_32_40 ≠ 0 → ∃ k, 1 <= k <= 63 ∧ v2 = 2 ^ k).
Proof.
  apply (percentile_monotone hist_1_32_40 0.5%float 1%float 1 3).
  - reflexivity.
  - reflexivity.
  - lia.
Defined.

Lemma sorted_rank (l : list Z) :
  StronglySorted Z.le l →
  ∀ (i : nat) (x : Z), l !! i = Some x → (i < length (filter (λ y, (y <= x)%Z) l))%nat.
Proof.
  induction 1 as [|y l Hs IH Hall]; intros i x Hi; [done|].
  rewrite filter_cons. destruct i as [|i]; simpl in Hi.
  - injection Hi as ->. destruct (decide (x <= x)); [simpl; lia|lia].
  - assert (y <= x) as Hyx.
    { rewrite Forall_forall in Hall. apply Hall. by eapply list_elem_of_lookup_2. }
    destruct (decide (y <= x)); [|lia]. simpl. specialize (IH _ _ Hi). lia.
Qed.

Lemma filter_length_impl {A} (P Q : A → Prop) `{∀ x, Decision (P x)} `{∀ x, Decision (Q x)}
    (l : list A) :
  (∀ x, x ∈ l → P x → Q x) → (length (filter P l) ≤ length (filter Q l))%nat.
Proof.
  induction l as [|x l IH]; intros HPQ; [done|].
  rewrite !filter_cons.
  assert (length (filter P l) ≤ length (filter Q l))%nat as Hl
    by (apply IH; intros y Hy; apply HPQ; by right).
  destruct (decide (P x)) as [HP|HP].
  - destruct (decide (Q x)) as [HQ|HQ]; [simpl; lia|].
    exfalso. apply HQ. apply HPQ; [by left|done].
  - destruct (decide (Q x)); simpl; lia.
Qed.

Lemma filter_map_length {A B} (f : A → B) (P : B → Prop) (Q : A → Prop)
    `{∀ y, Decision (P y)} `{∀ x, Decision (Q x)} (l : list A) :
  (∀ x, Q x ↔ P (f x)) →
  length (filter P (map f l)) = length (filter Q l).
Proof.
  intros HPQ. induction l as [|x l IH]; [done|]. simpl. rewrite !filter_cons.
  destruct (decide (P (f x))) as [HP|HP]; destruct (decide (Q x)) as [HQ|HQ];
    simpl; rewrite ?IH; try done.
  - exfalso. apply HQ. by apply HPQ.
  - exfalso. apply HP. by apply HPQ.
Qed.

Lemma bucket_lt_upper ns bk :
  0 <= ns < 2 ^ 63 → Pow2Histogram.bucket ns <= bk →
  ns < Pow2Histogram.upper_bound bk.
Proof.
  intros [H0 Hmax] Hb. unfold Pow2Histogram.upper_bound.
  destruct (bk >=? 63) eqn:E; [done|].
  destruct (decide (ns = 0)) as [->|Hne].
  - change (Pow2Histogram.bucket 0) with 0 in Hb. apply Z.pow_pos_nonneg; lia.
  - rewrite bucket_log2 in Hb by (unfold uint64_max; lia).
    assert (0 < ns) as Hpos by lia.
    pose proof (Z.log2_spec ns Hpos) as [_ Hs].
    eapply Z.lt_le_trans; [exact Hs|].
    apply Z.pow_le_mono_r; lia.
Qed.

(** X11. The value reported by [percentile] is a conservative estimate:
    for fewer than [2^64] durations [nss], each below [2^63], recorded in a
    fresh histogram, and a rank [t <= n] computed for [p], at least [t] of
    the recorded durations lie strictly below the value that
    [percentile(p)] returns. *)
Theorem percentile_conservative (nss : list Z) p t :
  Forall (λ ns, 0 <= ns < 2 ^ 63) nss →
  Z.of_nat (length nss) <= uint64_max →
  let h := foldl Pow2Histogram.add Pow2Histogram.init nss in
  Pow2Histogram.target p (Pow2Histogram.n h) = Some t →
  t <= Pow2Histogram.n h →
  ∃ v, Pow2Histogram.percentile h p = Some v ∧
       t <= Z.of_nat (length (filter (λ ns, ns < v) nss)).
Proof.
  intros Hns Hlen h Ht Hle.
  assert (Forall (λ ns, 0 <= ns <= uint64_max) nss) as Hns'.
  { eapply Forall_impl; [exact Hns|]. unfold uint64_max. simpl. lia. }
  destruct (add_all_ok nss Pow2Histogram.init (proj1 init_ok)) as (Hok & Hn & Hperm);
    [done|done|].
  fold h in Hok, Hn, Hperm. rewrite (proj2 init_ok), app_nil_r in Hperm.
  destruct Hok as (Hlen' & Hpos & Hsum & Hmax).
  pose proof (target_pos _ _ _ Ht) as Ht1.
  destruct (scan_spec (Pow2Histogram.c h) 0 0 t) as (bk & Hbk & Hbk0 & Hscan);
    [done|lia|lia|lia|lia|].
  exists (Pow2Histogram.upper_bound bk). split.
  - unfold Pow2Histogram.percentile. destruct (Pow2Histogram.n h =? 0) eqn:E; [lia|].
    rewrite Ht. simpl. by rewrite Hscan.
  - assert (StronglySorted Z.le (Pow2Histogram.samples h)) as Hsorted.
    { apply Sorted_StronglySorted; [intros ???; lia|]. apply samples_from_sorted. }
    replace (t - 0 - 1) with (t - 1) in Hbk by lia.
    pose proof (sorted_rank _ Hsorted _ _ Hbk) as Hrank.
    assert (length (filter (λ y, y <= bk) (Pow2Histogram.samples h))
            = length (filter (λ ns, Pow2Histogram.bucket ns <= bk) nss)) as Hcount.
    { transitivity (length (filter (λ y, y <= bk) (map Pow2Histogram.bucket nss))).
      - apply Permutation_length. by rewrite Hperm.
      - by apply filter_map_length. }
    rewrite Hcount in Hrank.
    assert (length (filter (λ ns, (Pow2Histogram.bucket ns <= bk)%Z) nss)
            ≤ length (filter (λ ns, (ns < Pow2Histogram.upper_bound bk)%Z) nss))%nat as Hsub.
    { apply filter_length_impl. intros ns Hin Hb.
      rewrite Forall_forall in Hns. specialize (Hns _ Hin). simpl in Hns.
      by apply bucket_lt_upper. }
    lia.
Qed.

(** Of the durations 40, 1 and 32 at least two lie below the value
    reported for [p = 0.7], which is 64. *)
Lemma percentile_conservative_witness :
  ∃ v, Pow2Histogram.percentile
         (foldl Pow2Histogram.add Pow2Histogram.init [40; 1; 32])
         0x1.6666666666666p-1 = Some v ∧
       2 <= Z.of_nat (length (filter (λ ns, ns < v) [40; 1; 32])).
Proof.
  apply (percentile_conservative [40; 1; 32] 0x1.6666666666666p-1 2).
  - repeat constructor; lia.
  - unfold uint64_max. simpl. lia.
  - reflexivity.
  - vm_compute. discriminate.
Defined.

(** ** The writer queue: below capacity, and the bound *)

(** X12. With a writer configured and a capacity [C >= 1], an enqueue
    always succeeds and leaves [min (length q + 1) C] items, so the queue
    never holds more than [C] items after an enqueue, even when it held more
    before; and as long as the items fit ([length q + K <= C]) nothing is
    dropped: the queue is the old content followed by the new items in
    arrival order.  Without a writer the queue is left alone. *)
Theorem enqueue_bounded_and_lossless (C : nat) (q items : list SnapshotWrite)
    (x : SnapshotWrite) :
  (1 ≤ C)%nat →
  (∃ q', Writer.enqueue_snapshot_write true q C (sw_ts_us x) (sw_symbol x) (sw_tob x)
         = Some q' ∧
         length q' = Nat.min (length q + 1) C ∧
         last q' = Some x) ∧
  ((length q + length items ≤ C)%nat →
   Writer.enqueue_all q C items = Some (q ++ items)) ∧
  Writer.enqueue_snapshot_write false q C (sw_ts_us x) (sw_symbol x) (sw_tob x)
  = Some q.
Proof.
  intros HC. split_and!.
  - rewrite enqueue_spec by done. eexists. split; [done|].
    rewrite length_drop, length_app. simpl. split; [lia|].
    rewrite drop_app_le by lia. apply last_snoc.
  - intros Hfit. destruct items as [|y items]; [by rewrite app_nil_r|].
    rewrite enqueue_all_spec by done.
    replace (length (q ++ y :: items) - C)%nat with 0%nat; [done|].
    rewrite length_app. simpl in *. lia.
  - done.
Qed.

Lemma enqueue_bounded_and_lossless_witness :
  (∃ q', Writer.enqueue_snapshot_write true [item 1; item 2; item 3] 2
           (sw_ts_us (item 4)) (sw_symbol (item 4)) (sw_tob (item 4)) = Some q' ∧
         length q' = Nat.min (length [item 1; item 2; item 3] + 1) 2 ∧
         last q' = Some (item 4)) ∧
  ((length [item 1; item 2; item 3] + length [item 5] ≤ 2)%nat →
   Writer.enqueue_all [item 1; item 2; item 3] 2 [item 5]
   = Some ([item 1; item 2; item 3] ++ [item 5])) ∧
  Writer.enqueue_snapshot_write false [item 1; item 2; item 3] 2
    (sw_ts_us (item 4)) (sw_symbol (item 4)) (sw_tob (item 4))
  = Some [item 1; item 2; item 3].
Proof.
  apply (enqueue_bounded_and_lossless 2 [item 1; item 2; item 3] [item 5] (item 4)).
  lia.
Defined.

(** ** The snapshot store: slots do not interfere *)

(** X13. Publishing for one symbol changes what [load_snapshot] returns
    for that symbol only, and leaves the global slot alone; publishing
    globally changes what it returns only for the symbols that have no
    snapshot of their own. *)
Theorem publish_isolation (st : SnapshotStore.t) (sym other s : string) :
  SnapshotStore.load_snapshot (SnapshotStore.publish_snapshot st sym s) sym = Some s ∧
  (other ≠ sym →
   SnapshotStore.load_snapshot (SnapshotStore.publish_snapshot st sym s) other
   = SnapshotStore.load_snapshot st other) ∧
  SnapshotStore.load_snapshot_global (SnapshotStore.publish_snapshot st sym s)
  = SnapshotStore.load_snapshot_global st ∧
  SnapshotStore.load_snapshot_global (SnapshotStore.publish_snapshot_global st s) = Some s ∧
  SnapshotStore.load_snapshot (SnapshotStore.publish_snapshot_global st s) other
  = match SnapshotStore.g_latest_by_symbol st !! other with
    | Some p => p
    | None => Some s
    end.
Proof.
  unfold SnapshotStore.load_snapshot, SnapshotStore.publish_snapshot,
    SnapshotStore.publish_snapshot_global, SnapshotStore.load_snapshot_global. simpl.
  split_and!; try done.
  - by rewrite lookup_insert_eq.
  - intros Hne. by rewrite lookup_insert_ne.
Qed.

(** ** The engine driver: a whole session *)

Section driver_session.
Context (parse_mbo_csv_line : string → option MboEvent)
        (ts_event_to_us : string → Z).

Lemma handle_line_ok st line :
  session_ok st →
  ∃ r st', Driver.handle_line parse_mbo_csv_line ts_event_to_us st line = Some (r, st') ∧
           session_ok st' ∧
           Driver.processed st <= Driver.processed st' <= Driver.processed st + 1.
Proof.
  intros Hok. pose proof Hok as (Hwf & Hsym & Hhas & Hcnt & Hpos).
  unfold Driver.handle_line. cbv zeta.
  destruct (String.eqb (Driver.strip_cr line) "");
    [exists false, st; split; [done|split; [done|lia]]|].
  destruct (String.prefix "ts_event" (Driver.strip_cr line)
            || String.prefix "publisher_id" (Driver.strip_cr line)
            || String.prefix "instrument_id" (Driver.strip_cr line));
    [exists false, st; split; [done|split; [done|lia]]|].
  destruct (parse_mbo_csv_line (Driver.strip_cr line)) as [e|];
    [|eexists false, _; split; [done|split; [done|simpl; lia]]].
  destruct (Driver.has_symbol st) eqn:Eh; simpl.
  - destruct (apply_wf (Driver.book st) e Hwf) as (b' & -> & Hwf' & Hs'). simpl.
    eexists true, _. split; [done|]. simpl.
    split; [|lia]. unfold session_ok; simpl. rewrite ?Eh in *.
    split_and!; [done|congruence|done|lia|lia].
  - destruct (String.eqb (e_symbol e) "") eqn:Ee; simpl.
    + destruct (apply_wf (Driver.book st) e Hwf) as (b' & -> & Hwf' & Hs'). simpl.
      eexists true, _. split; [done|]. simpl.
      split; [|lia]. unfold session_ok; simpl. rewrite ?Eh in *.
      split_and!; [done|congruence|done|lia|lia].
    + destruct (apply_wf (Book.new (e_symbol e)) e (new_wf _)) as (b' & -> & Hwf' & Hs').
      simpl. eexists true, _. split; [done|]. simpl.
      apply String.eqb_neq in Ee.
      split; [|lia]. unfold session_ok; simpl.
      split_and!; [done|done|done|lia|lia].
Qed.

Lemma handle_lines_ok lines : ∀ st,
  session_ok st →
  ∃ st', Driver.handle_lines parse_mbo_csv_line ts_event_to_us st lines = Some st' ∧
         session_ok st' ∧
         Driver.processed st <= Driver.processed st'
           <= Driver.processed st + Z.of_nat (length lines).
Proof.
  induction lines as [|l lines IH]; intros st Hok; simpl.
  - exists st. split; [done|split; [done|lia]].
  - destruct (handle_line_ok st l Hok) as (r & st1 & -> & Hok1 & Hp1). simpl.
    destruct (IH st1 Hok1) as (st2 & -> & Hok2 & Hp2).
    exists st2. split; [done|split; [done|lia]].
Qed.
End driver_session.

(** X14. Whatever the parser and the lines, a session that starts from
    the initial state handles every line without reading a stale iterator,
    and at every point the book is well formed, its symbol is the driver's
    [book_symbol], [has_symbol] holds exactly when that symbol is not
    empty, and [processed] equals [parsed_ok] and is at most the number of
    lines handled. *)
Theorem session_invariants
    (parse_mbo_csv_line : string → option MboEvent) (ts_event_to_us : string → Z)
    (lines : list string) (k : nat) :
  ∃ st,
    Driver.handle_lines parse_mbo_csv_line ts_event_to_us Driver.init (take k lines)
      = Some st ∧
    wf (Driver.book st) ∧
    symbol_ (Driver.book st) = Driver.book_symbol st ∧
    (Driver.has_symbol st = true ↔ Driver.book_symbol st ≠ "") ∧
    Driver.processed st = Driver.parsed_ok st ∧
    0 <= Driver.processed st <= Z.of_nat (length (take k lines)).
Proof.
  destruct (handle_lines_ok parse_mbo_csv_line ts_event_to_us (take k lines) Driver.init)
    as (st & H & (Hwf & Hsym & Hhas & Hcnt & Hpos) & Hp).
  - unfold session_ok; simpl. split_and!; [apply new_wf|done|by split|done|done].
  - exists st. simpl in Hp. split_and!; try done; lia.
Qed.

(** X15. Once a symbol is set it stays: on a state with [has_symbol] the
    driver handles a parsed event, whatever symbol the event carries, by
    applying it to the book it has, and neither [book_symbol] nor the
    book's symbol changes. *)
Theorem symbol_is_sticky
    (parse_mbo_csv_line : string → option MboEvent) (ts_event_to_us : string → Z)
    (st : Driver.state) (line : string) (e : MboEvent) :
  wf (Driver.book st) →
  Driver.has_symbol st = true →
  Driver.strip_cr line ≠ "" →
  String.prefix "ts_event" (Driver.strip_cr line) = false →
  String.prefix "publisher_id" (Driver.strip_cr line) = false →
  String.prefix "instrument_id" (Driver.strip_cr line) = false →
  parse_mbo_csv_line (Driver.strip_cr line) = Some e →
  ∃ st',
    Driver.handle_line parse_mbo_csv_line ts_event_to_us st line = Some (true, st') ∧
    Book.apply (Driver.book st) e = Some (Driver.book st') ∧
    Driver.book_symbol st' = Driver.book_symbol st ∧
    Driver.has_symbol st' = true ∧
    symbol_ (Driver.book st') = symbol_ (Driver.book st) ∧
    Driver.processed st' = Driver.processed st + 1.
Proof.
  intros Hwf Hhas Hne Hp1 Hp2 Hp3 Hparse.
  destruct (apply_wf (Driver.book st) e Hwf) as (b' & Hb' & _ & Hs').
  unfold Driver.handle_line. cbv zeta.
  apply String.eqb_neq in Hne as ->. rewrite Hp1, Hp2, Hp3. simpl.
  rewrite Hparse, Hhas. simpl. rewrite Hb'. simpl.
  eexists. split; [reflexivity|]. simpl. by split_and!.
Qed.

(** After CLX5 was adopted, the toy feed's first line, which carries no
    symbol, is applied to the same book. *)
Lemma symbol_is_sticky_witness :
  ∃ st',
    Driver.handle_line toy_parser (λ _, 0) after_second "first" = Some (true, st') ∧
    Book.apply (Driver.book after_second) (mkEvent "" "A" "B" 100 5 1 "")
      = Some (Driver.book st') ∧
    Driver.book_symbol st' = Driver.book_symbol after_second ∧
    Driver.has_symbol st' = true ∧
    symbol_ (Driver.book st') = symbol_ (Driver.book after_second) ∧
    Driver.processed st' = Driver.processed after_second + 1.
Proof.
  apply (symbol_is_sticky toy_parser (λ _, 0) after_second "first").
  - destruct (handle_lines_ok toy_parser (λ _, 0) ["first"; "second"] Driver.init)
      as (st & H & Hok & _).
    + unfold session_ok; simpl. split_and!; [apply new_wf|done|by split|done|done].
    + assert (st = after_second) as <- by (unfold after_second; by rewrite H).
      apply Hok.
  - reflexivity.
  - discriminate.
  - reflexivity.
  - reflexivity.
  - reflexivity.
  - reflexivity.
Defined.

(** ** The push loop: one thing outstanding at a time *)

Section push_loop.
Context {ptr : Type} `{EqDecision ptr}.

Lemma no_repeat_snoc (l : list ptr) (p : ptr) :
  PushLoop.no_repeat l → last l ≠ Some p → PushLoop.no_repeat (l ++ [p]).
Proof.
  induction l as [|x [|y l] IH]; intros Hn Hl; [done| |].
  - simpl in *. split; [congruence|done].
  - destruct Hn as [Hxy Hn]. split; [done|]. apply IH; [done|].
    by rewrite last_cons_cons in Hl.
Qed.

Local Ltac push_easy :=
  simpl; split_and!; simpl; first [done | lia | by split; intros; (done || lia)].

Lemma step_inv (st : PushLoop.state ptr) ev st' :
  push_inv st → PushLoop.step st ev = Some st' → push_inv st'.
Proof.
  intros (Hone & Hfl & Hlast & Hnr) Hstep. destruct st as [ls wf tp wp sn].
  unfold push_inv. simpl in *. destruct ev as [ec cur|ec]; simpl in Hstep.
  - destruct tp; [|done]. simpl in Hone. assert (wp = 0%nat) as -> by lia.
    assert (wf = false) as ->.
    { destruct wf; [|done]. by destruct Hfl as [Hfl _]; specialize (Hfl eq_refl). }
    injection Hstep as <-. unfold PushLoop.on_tick; simpl.
    destruct ec; [push_easy|].
    destruct cur as [p|]; [|push_easy].
    destruct (bool_decide (ls ≠ None) && bool_decide (Some p = ls)) eqn:E;
      [push_easy|].
    simpl. split_and!; simpl; [lia|done|by rewrite last_snoc|].
    apply no_repeat_snoc; [done|]. rewrite <-Hlast. intros ->.
    rewrite !bool_decide_eq_true_2 in E; done.
  - destruct wp as [|wp]; [done|]. injection Hstep as <-.
    assert (wp = 0%nat) as -> by lia. assert (tp = false) as ->.
    { destruct tp; [simpl in Hone; lia|done]. }
    unfold PushLoop.on_write; simpl.
    destruct ec; push_easy.
Qed.

Lemma run_inv evs : ∀ (st st' : PushLoop.state ptr),
  push_inv st → PushLoop.run st evs = Some st' → push_inv st'.
Proof.
  induction evs as [|ev evs IH]; intros st st' Hi Hr; simpl in Hr.
  - by injection Hr as <-.
  - destruct (PushLoop.step st ev) as [st1|] eqn:E; [|done]. simpl in Hr.
    eapply IH; [|done]. by eapply step_inv.
Qed.

End push_loop.

(** X16. In every run of a session's push loop from [on_accept], whatever
    the store returns and whichever completions fail: at most one of the
    timer wait and a snapshot write is outstanding, [write_in_flight_] is
    set exactly while a snapshot write is outstanding, so the handler
    [on_tick] never runs with [write_in_flight_] set; [last_sent_] is the
    last handle written, and no handle is written twice in a row. *)
Theorem push_loop_one_outstanding {ptr : Type} `{EqDecision ptr}
    (ec0 : bool) (evs : list (PushLoop.event ptr)) (st : PushLoop.state ptr) :
  PushLoop.run (PushLoop.on_accept PushLoop.init ec0) evs = Some st →
  (Nat.b2n (PushLoop.timer_pending st) + PushLoop.writes_pending st ≤ 1)%nat ∧
  (PushLoop.write_in_flight_ st = true ↔ PushLoop.writes_pending st = 1%nat) ∧
  (PushLoop.timer_pending st = true → PushLoop.write_in_flight_ st = false) ∧
  PushLoop.last_sent_ st = last (PushLoop.sent st) ∧
  PushLoop.no_repeat (PushLoop.sent st).
Proof.
  intros Hr. eapply run_inv in Hr as (Hone & Hfl & Hlast & Hnr).
  - split_and!; try done. intros Ht. rewrite Ht in Hone. simpl in Hone.
    destruct (PushLoop.write_in_flight_ st); [|done].
    destruct Hfl as [Hfl _]. specialize (Hfl eq_refl). lia.
  - destruct ec0; unfold push_inv; simpl; split_and!; try done; lia.
Qed.

(** Handle 7 is written; the store still returns it at the next tick, so
    nothing is written; then handle 8 is. *)
Lemma push_loop_one_outstanding_witness :
  let st := PushLoop.mk (Some 8%nat) true false 1 [7%nat; 8%nat] in
  (Nat.b2n (PushLoop.timer_pending st) + PushLoop.writes_pending st ≤ 1)%nat ∧
  (PushLoop.write_in_flight_ st = true ↔ PushLoop.writes_pending st = 1%nat) ∧
  (PushLoop.timer_pending st = true → PushLoop.write_in_flight_ st = false) ∧
  PushLoop.last_sent_ st = last (PushLoop.sent st) ∧
  PushLoop.no_repeat (PushLoop.sent st).
Proof.
  apply (push_loop_one_outstanding false
           [PushLoop.Tick false (Some 7%nat); PushLoop.Written false;
            PushLoop.Tick false (Some 7%nat); PushLoop.Tick false (Some 8%nat)]).
  vm_compute. reflexivity.
Defined.

(** ** Line framing does not depend on the chunking *)

Lemma index_nl_cons c t :
  String.index 0 Replay.nl (String c t) =
    if Ascii.eqb c "010" then Some 0%nat
    else S <$> String.index 0 Replay.nl t.
Proof.
  unfold Replay.nl. cbn [String.index].
  change (String.prefix (String "010" "") (String c t))
    with (match ascii_dec "010" c with
          | left _ => String.prefix "" t
          | right _ => false
          end).
  destruct (ascii_dec "010" c) as [<-|Hne].
  - by destruct t.
  - destruct (Ascii.eqb_spec c "010") as [->|_]; [done|].
    by destruct (String.index 0 _ t).
Qed.

Lemma index_skip pre : ∀ t,
  String.index (String.length pre) Replay.nl (pre +:+ t) =
    (λ k, String.length pre + k)%nat <$> String.index 0 Replay.nl t.
Proof.
  induction pre as [|c pre IH]; intros t; sapp.
  - change (String.index 0 Replay.nl t = (λ k, 0 + k)%nat <$> String.index 0 Replay.nl t).
    by destruct (String.index 0 Replay.nl t).
  - change (match String.index (String.length pre) Replay.nl (pre +:+ t) with
            | Some n => Some (S n)
            | None => None
            end = (λ k, S (String.length pre) + k)%nat <$> String.index 0 Replay.nl t).
    rewrite IH. by destruct (String.index 0 Replay.nl t).
Qed.

Lemma substring_skip pre : ∀ n t,
  String.substring (String.length pre) n (pre +:+ t) = String.substring 0 n t.
Proof. induction pre as [|c pre IH]; intros n t; sapp; simpl; [done|apply IH]. Qed.

Lemma substring_all t : String.substring 0 (String.length t) t = t.
Proof. induction t as [|c t IH]; simpl; [done|by rewrite IH]. Qed.

Lemma substring_front l : ∀ t,
  String.substring 0 (String.length l) (l +:+ t) = l.
Proof.
  induction l as [|c l IH]; intros t; sapp; simpl; [by destruct t|by rewrite IH].
Qed.

Lemma str_length_app s : ∀ t,
  String.length (s +:+ t) = (String.length s + String.length t)%nat.
Proof. induction s as [|c s IH]; intros t; sapp; simpl; [done|by rewrite IH]. Qed.

Lemma erase_front_skip pre t :
  Replay.erase_front (String.length pre) (pre +:+ t) = t.
Proof.
  unfold Replay.erase_front. rewrite substring_skip, str_length_app.
  replace (String.length pre + String.length t - String.length pre)%nat
    with (String.length t) by lia.
  apply substring_all.
Qed.

(** Where the first newline of [t] is, in terms of [pieces]. *)
Lemma pieces_first t :
  match String.index 0 Replay.nl t with
  | None => Replay.pieces t = ([], t)
  | Some k =>
      ∃ l t', t = l +:+ Replay.nl +:+ t' ∧ String.length l = k ∧
              Replay.no_newline l ∧
              Replay.pieces t = (l :: (Replay.pieces t').1, (Replay.pieces t').2)
  end.
Proof.
  induction t as [|c t IH]; [done|].
  rewrite index_nl_cons. cbn [Replay.pieces].
  destruct (Ascii.eqb_spec c "010") as [->|Hne].
  - exists "", t. destruct (Replay.pieces t). by split_and!.
  - destruct (String.index 0 Replay.nl t) as [k|]; simpl.
    + destruct IH as (l & t' & -> & <- & Hl & ->). simpl.
      exists (String c l), t'. split_and!; [done|done| |done].
      unfold Replay.no_newline. rewrite index_nl_cons.
      destruct (Ascii.eqb_spec c "010"); [done|]. by rewrite Hl.
    + by rewrite IH.
Qed.

Lemma take_lines_pieces fuel : ∀ pre t out,
  (String.length t < fuel)%nat →
  Replay.take_lines fuel (pre +:+ t) (String.length pre) out =
    (out ++ (Replay.pieces t).1, (Replay.pieces t).2).
Proof.
  induction fuel as [|fuel IH]; intros pre t out Hf; [lia|].
  cbn [Replay.take_lines]. rewrite index_skip.
  pose proof (pieces_first t) as Hp.
  destruct (String.index 0 Replay.nl t) as [k|]; simpl.
  - destruct Hp as (l & t' & -> & <- & Hl & ->). simpl.
    replace (String.length pre + String.length l - String.length pre)%nat
      with (String.length l) by lia.
    rewrite substring_skip, substring_front.
    replace (S (String.length pre + String.length l))
      with (String.length (pre +:+ l +:+ Replay.nl)).
    2:{ rewrite !str_length_app. simpl. lia. }
    replace (pre +:+ l +:+ Replay.nl +:+ t') with ((pre +:+ l +:+ Replay.nl) +:+ t').
    2:{ by rewrite !app_assoc_s. }
    rewrite IH.
    + by rewrite <-app_assoc.
    + rewrite !str_length_app in Hf. simpl in Hf. lia.
  - rewrite Hp. simpl. by rewrite erase_front_skip, app_nil_r.
Qed.

Lemma pieces_carry s : Replay.no_newline (Replay.pieces s).2.
Proof.
  induction s as [|c s IH]; [done|]. cbn [Replay.pieces].
  destruct (Replay.pieces s) as [ls k]. simpl in IH.
  destruct (Ascii.eqb_spec c "010") as [->|Hne]; [done|].
  destruct ls; simpl; [|done].
  unfold Replay.no_newline. rewrite index_nl_cons.
  destruct (Ascii.eqb_spec c "010"); [done|]. by rewrite IH.
Qed.

Lemma pieces_lines s : Forall Replay.no_newline (Replay.pieces s).1.
Proof.
  induction s as [|c s IH]; [by constructor|]. cbn [Replay.pieces].
  destruct (Replay.pieces s) as [ls k]. simpl in IH.
  destruct (Ascii.eqb_spec c "010") as [->|Hne]; [by constructor|].
  destruct ls as [|l ls]; simpl; [done|].
  apply Forall_cons in IH as [Hl Hls]. constructor; [|done].
  unfold Replay.no_newline. rewrite index_nl_cons.
  destruct (Ascii.eqb_spec c "010"); [done|]. by rewrite Hl.
Qed.

Lemma pieces_unlines s :
  Replay.unlines (Replay.pieces s).1 +:+ (Replay.pieces s).2 = s.
Proof.
  induction s as [|c s IH]; [done|]. cbn [Replay.pieces].
  destruct (Replay.pieces s) as [ls k]. cbn [fst snd] in IH.
  destruct (Ascii.eqb_spec c "010") as [->|Hne].
  - cbn [fst snd Replay.unlines foldr]. fold (Replay.unlines ls).
    unfold Replay.nl. sapp. by rewrite IH.
  - destruct ls as [|l ls]; cbn [fst snd Replay.unlines foldr] in *.
    + sapp. by rewrite str_app_nil in IH; rewrite IH.
    + fold (Replay.unlines ls) in *. sapp. by rewrite IH.
Qed.

Lemma pieces_no_newline s : Replay.no_newline s → Replay.pieces s = ([], s).
Proof.
  intros H. pose proof (pieces_first s) as Hp. by rewrite H in Hp.
Qed.

Lemma pieces_app s : ∀ t,
  Replay.pieces (s +:+ t) =
    ((Replay.pieces s).1 ++ (Replay.pieces ((Replay.pieces s).2 +:+ t)).1,
     (Replay.pieces ((Replay.pieces s).2 +:+ t)).2).
Proof.
  induction s as [|c s IH]; intros t; sapp.
  - cbn [Replay.pieces fst snd]. sapp. by destruct (Replay.pieces t).
  - cbn [Replay.pieces]. rewrite IH. destruct (Replay.pieces s) as [ls k].
    cbn [fst snd].
    destruct (Ascii.eqb_spec c "010") as [->|Hne]; [done|].
    destruct ls as [|l ls]; cbn [fst snd app]; [|done].
    sapp. cbn [Replay.pieces].
    destruct (Replay.pieces (k +:+ t)) as [ls2 k2].
    destruct (Ascii.eqb_spec c "010"); [done|]. by destruct ls2.
Qed.

Lemma on_chunk_pieces carry chunk :
  Replay.no_newline carry →
  Replay.on_chunk carry chunk = Replay.pieces (carry +:+ chunk).
Proof.
  intros Hc. unfold Replay.on_chunk.
  destruct (String.eqb_spec chunk "") as [->|Hne].
  - by rewrite app_nil_r_s, pieces_no_newline.
  - rewrite (take_lines_pieces _ "" (carry +:+ chunk) []); [|simpl; lia].
    by destruct (Replay.pieces _).
Qed.

Lemma on_chunks_pieces chunks : ∀ carry,
  Replay.no_newline carry →
  Replay.on_chunks carry chunks = Replay.pieces (carry +:+ Replay.stream chunks).
Proof.
  induction chunks as [|c cs IH]; intros carry Hc; simpl.
  - by rewrite app_nil_r_s, pieces_no_newline.
  - rewrite on_chunk_pieces by done.
    rewrite <-app_assoc_s, (pieces_app (carry +:+ c)).
    pose proof (pieces_carry (carry +:+ c)) as Hk.
    destruct (Replay.pieces (carry +:+ c)) as [l1 k1]. simpl in *.
    rewrite IH by done. by destruct (Replay.pieces (k1 +:+ _)).
Qed.

(** X17. The lines that the read loop hands on do not depend on how the
    stream arrives in chunks: followed by their newlines and then by the
    carry they spell the whole stream, no line and no carry holds a
    newline, and reading the stream as one chunk gives the same lines and
    the same carry. *)
Theorem framing_chunk_independent (chunks : list string) :
  let r := Replay.on_chunks "" chunks in
  Replay.unlines r.1 +:+ r.2 = Replay.stream chunks ∧
  Forall Replay.no_newline r.1 ∧
  Replay.no_newline r.2 ∧
  Replay.on_chunks "" [Replay.stream chunks] = r.
Proof.
  cbv zeta. rewrite !on_chunks_pieces by done. simpl.
  split_and!.
  - apply pieces_unlines.
  - apply pieces_lines.
  - apply pieces_carry.
  - by rewrite app_nil_r_s.
Qed.

(** ** Splitting a CSV line *)


Lemma get_skip pre : ∀ c r,
  String.get (String.length pre) (pre +:+ String c r) = Some c.
Proof. induction pre as [|x pre IH]; intros c r; sapp; simpl; [done|apply IH]. Qed.

Lemma get_end s : String.get (String.length s) s = None.
Proof. induction s as [|x s IH]; simpl; [done|apply IH]. Qed.

Lemma fields_length s : length (Csv.fields s) = S (Csv.commas s).
Proof.
  induction s as [|c s IH]; [done|]. cbn [Csv.fields Csv.commas].
  destruct (Ascii.eqb c ","); simpl; [by rewrite IH|].
  destruct (Csv.fields s); simpl in *; lia.
Qed.

Lemma split_loop_S fuel s i start out :
  Csv.split_loop (S fuel) s i start out =
    if (i =? String.length s)%nat || Csv.is_comma_at i s
    then Csv.split_loop fuel s (S i) (S i)
           (out ++ [String.substring start (i - start) s])
    else Csv.split_loop fuel s (S i) start out.
Proof. reflexivity. Qed.

Lemma split_loop_fields t : ∀ s i start pre cur out,
  s = pre +:+ cur +:+ t →
  i = (String.length pre + String.length cur)%nat →
  start = String.length pre →
  Csv.split_loop (S (String.length t)) s i start out
  = out ++ Csv.glue cur (Csv.fields t).
Proof.
  induction t as [|c t IH]; intros s i start pre cur out -> -> ->.
  - rewrite split_loop_S. cbn [String.length Csv.split_loop].
    rewrite app_nil_r_s, <-str_length_app.
    rewrite Nat.eqb_refl. cbn [orb].
    rewrite str_length_app.
    replace (String.length pre + String.length cur - String.length pre)%nat
      with (String.length cur) by lia.
    rewrite substring_skip, substring_all. simpl. by rewrite app_nil_r_s.
  - rewrite split_loop_S.
    assert ((String.length pre + String.length cur =?
             String.length (pre +:+ cur +:+ String c t))%nat = false) as ->.
    { apply Nat.eqb_neq. rewrite !str_length_app. simpl. lia. }
    cbn [orb]. unfold Csv.is_comma_at.
    replace (String.get (String.length pre + String.length cur)
               (pre +:+ cur +:+ String c t)) with (Some c).
    2:{ rewrite <-str_length_app, <-app_assoc_s. by rewrite get_skip. }
    replace (String.length pre + String.length cur - String.length pre)%nat
      with (String.length cur) by lia.
    rewrite substring_skip, substring_front.
    destruct (Ascii.eqb_spec c ",") as [->|Hne].
    + rewrite (IH _ _ _ (pre +:+ cur +:+ ",") "" _).
      * rewrite <-app_assoc. cbn [Csv.fields]. rewrite Ascii.eqb_refl.
        pose proof (fields_length t) as Hl.
        destruct (Csv.fields t) as [|f fs]; [done|].
        cbn [Csv.glue app]. sapp. by rewrite app_nil_r_s.
      * rewrite !app_assoc_s. by sapp.
      * rewrite !str_length_app. simpl. lia.
      * rewrite !str_length_app. simpl. lia.
    + rewrite (IH _ _ _ pre (cur +:+ String c "") _).
      * cbn [Csv.fields]. destruct (Ascii.eqb_spec c ","); [done|].
        destruct (Csv.fields t) as [|f fs]; cbn [Csv.glue].
        -- done.
        -- rewrite app_assoc_s. by sapp.
      * rewrite !app_assoc_s. by sapp.
      * rewrite !str_length_app. simpl. lia.
      * done.
Qed.

Lemma split_csv_simple_fields s : Csv.split_csv_simple s = Csv.fields s.
Proof.
  unfold Csv.split_csv_simple.
  rewrite (split_loop_fields s s 0%nat 0%nat "" "" []); [|done..]. cbn [app].
  pose proof (fields_length s) as Hl.
  destruct (Csv.fields s); [done|]. cbn [Csv.glue]. by sapp.
Qed.

Lemma concat_cons2 sep (x y : string) l :
  String.concat sep (x :: y :: l) = x +:+ sep +:+ String.concat sep (y :: l).
Proof. reflexivity. Qed.

Lemma fields_concat s : String.concat "," (Csv.fields s) = s.
Proof.
  induction s as [|c s IH]; [done|]. cbn [Csv.fields].
  pose proof (fields_length s) as Hl.
  destruct (Ascii.eqb_spec c ",") as [->|Hne].
  - destruct (Csv.fields s) as [|f fs]; [done|].
    rewrite concat_cons2, IH. by sapp.
  - destruct (Csv.fields s) as [|f [|g fs]]; [done| |].
    + simpl in *. by rewrite IH.
    + rewrite concat_cons2 in *. rewrite str_app_cons. by rewrite IH.
Qed.

Lemma fields_no_comma s : Forall (λ f, Csv.commas f = 0%nat) (Csv.fields s).
Proof.
  induction s as [|c s IH]; [by repeat constructor|]. cbn [Csv.fields].
  destruct (Ascii.eqb_spec c ",") as [->|Hne]; [by constructor|].
  destruct (Csv.fields s) as [|f fs].
  - repeat constructor. cbn [Csv.commas]. by destruct (Ascii.eqb_spec c ",").
  - apply Forall_cons in IH as [Hf Hfs]. constructor; [|done].
    cbn [Csv.commas]. by destruct (Ascii.eqb_spec c ",").
Qed.

Lemma split_csv_simple_round_trip_aux s :
  length (Csv.split_csv_simple s) = S (Csv.commas s) ∧
  Forall (λ f, Csv.commas f = 0%nat) (Csv.split_csv_simple s).
Proof.
  rewrite split_csv_simple_fields. split; [apply fields_length|apply fields_no_comma].
Qed.

(** X18. [split_csv_simple] cuts a line at every comma and nowhere
    else: it returns one field more than the line has commas (so at least
    one, the empty line giving one empty field), no field holds a comma,
    and the fields joined by commas are the line again. *)
Theorem split_csv_simple_round_trip (s : string) :
  length (Csv.split_csv_simple s) = S (Csv.commas s) ∧
  Forall (λ f, Csv.commas f = 0%nat) (Csv.split_csv_simple s) ∧
  String.concat "," (Csv.split_csv_simple s) = s.
Proof.
  rewrite split_csv_simple_fields.
  split_and!; [apply fields_length|apply fields_no_comma|apply fields_concat].
Qed.

(** X19. A line is parsed only if, after a trailing carriage return is
    dropped, it is not empty, does not start with [ts_recv,] and has at
    least fourteen commas, whatever the number conversions answer.  The
    event then carries the second field as its event time and the
    fifteenth as its symbol, which holds no comma, and its action and side
    are the first characters of the sixth and seventh fields, [N] for an
    empty field. *)
Theorem parse_needs_fifteen_fields
    (from_chars_int32 from_chars_int64 from_chars_uint32 : string → option Z)
    (stod : string → option float) (llround : float → Z)
    (line : string) (e : MboEvent) :
  Csv.parse_mbo_csv_line from_chars_int32 from_chars_int64 from_chars_uint32
    stod llround line = Some e →
  let s := Driver.strip_cr line in
  let f := Csv.split_csv_simple s in
  s ≠ "" ∧ String.prefix "ts_recv," s = false ∧
  (14 ≤ Csv.commas s)%nat ∧
  f !! 1%nat = Some (e_ts_event e) ∧
  f !! 14%nat = Some (e_symbol e) ∧
  Csv.commas (e_symbol e) = 0%nat ∧
  (Csv.first_char_or_N <$> f !! 5%nat) = Some (e_action e) ∧
  (Csv.first_char_or_N <$> f !! 6%nat) = Some (e_side e).
Proof.
  intros Hp. cbv zeta. unfold Csv.parse_mbo_csv_line in Hp. cbv zeta in Hp.
  destruct (String.eqb_spec (Driver.strip_cr line) "") as [|Hne]; [done|].
  destruct (String.prefix "ts_recv," (Driver.strip_cr line)); [done|].
  destruct (Nat.ltb_spec (length (Csv.split_csv_simple (Driver.strip_cr line))) 15)
    as [|Hlen]; [done|].
  destruct (split_csv_simple_round_trip_aux (Driver.strip_cr line)) as (Hl & Hc).
  set (f := Csv.split_csv_simple (Driver.strip_cr line)) in *.
  assert (∀ i, (i < 15)%nat → f !! i = Some (nth i f "")) as Hnth.
  { intros i Hi. destruct (lookup_lt_is_Some_2 f i) as [x Hx]; [lia|].
    by rewrite (nth_lookup_Some _ _ "" _ Hx). }
  repeat match type of Hp with
         | mbind _ ?m = Some _ => destruct m; [cbn [mbind option_bind] in Hp|done]
         end.
  injection Hp as <-. cbn [e_ts_event e_symbol e_action e_side].
  split_and!; try done.
  - lia.
  - apply Hnth; lia.
  - apply Hnth; lia.
  - eapply Forall_lookup_1 in Hc; [exact Hc|]. apply Hnth; lia.
  - by rewrite Hnth by lia.
  - by rewrite Hnth by lia.
Qed.

Lemma parse_needs_fifteen_fields_witness :
  let e := mkEvent "e" "A" "B" 648300 5 42 "CLX5" in
  let f := Csv.split_csv_simple line_CLX5 in
  line_CLX5 ≠ "" ∧ String.prefix "ts_recv," line_CLX5 = false ∧
  (14 ≤ Csv.commas line_CLX5)%nat ∧
  f !! 1%nat = Some (e_ts_event e) ∧
  f !! 14%nat = Some (e_symbol e) ∧
  Csv.commas (e_symbol e) = 0%nat ∧
  (Csv.first_char_or_N <$> f !! 5%nat) = Some (e_action e) ∧
  (Csv.first_char_or_N <$> f !! 6%nat) = Some (e_side e).
Proof.
  apply (parse_needs_fifteen_fields toy_from_chars toy_from_chars toy_from_chars
           toy_stod toy_llround line_CLX5).
  vm_compute. reflexivity.
Defined.

(** ** A replay session *)

Lemma top_of_book_total b scale :
  wf b → is_Some (BookView.top_of_book b scale).
Proof.
  intros Hwf. unfold BookView.top_of_book.
  pose proof (book_order_head true (bids_ b)) as Hb.
  pose proof (book_order_head false (asks_ b)) as Ha.
  assert (∀ s px l, Book.side_of b s !! px = Some l → is_Some (BookView.sum_qty b l)) as Hsum.
  { intros s px l Hl. apply sum_qty_live. intros h Hh.
    destruct (wf_level b Hwf _ _ _ _ Hl Hh) as (o & -> & _). by eexists. }
  destruct (BookView.book_order true (bids_ b)) as [|[pb lb] restb];
    destruct (BookView.book_order false (asks_ b)) as [|[pa la] resta]; simpl in *.
  - by eexists.
  - destruct Ha as [Hla _]. destruct (Hsum false _ _ Hla) as [sa ->]. by eexists.
  - destruct Hb as [Hlb _]. destruct (Hsum true _ _ Hlb) as [sb ->]. by eexists.
  - destruct Hb as [Hlb _]. destruct (Hsum true _ _ Hlb) as [sb ->].
    destruct Ha as [Hla _]. destruct (Hsum false _ _ Hla) as [sa ->]. by eexists.
Qed.

Lemma enqueue_total pg q C ts sym tob :
  (1 ≤ C)%nat →
  ∃ q', Writer.enqueue_snapshot_write pg q C ts sym tob = Some q' ∧
        (pg = false → q' = q) ∧
        (∀ x, x ∈ q' → x ∈ q ∨ x = mkSnapshotWrite ts sym tob).
Proof.
  intros HC. destruct pg.
  - pose proof (enqueue_spec q C (mkSnapshotWrite ts sym tob) HC) as H. simpl in H.
    rewrite H. eexists. split; [done|]. split; [done|].
    intros x Hx. apply subseteq_drop in Hx. apply elem_of_app in Hx as [Hx|Hx]; [by left|].
    right. by apply list_elem_of_singleton in Hx.
  - exists q. by split_and!; [| |left].
Qed.

(** What one line does to the driver's state: either it is counted as
    processed, or nothing but [lines_total] moves. *)
Lemma driver_line_cases parse ts st line :
  session_ok st →
  ∃ r st', Driver.handle_line parse ts st line = Some (r, st') ∧ session_ok st' ∧
    (if r then Driver.processed st' = Driver.processed st + 1 ∧
               (Driver.has_symbol st = true →
                Driver.has_symbol st' = true ∧
                Driver.book_symbol st' = Driver.book_symbol st)
     else Driver.book st' = Driver.book st ∧
          Driver.book_symbol st' = Driver.book_symbol st ∧
          Driver.has_symbol st' = Driver.has_symbol st ∧
          Driver.processed st' = Driver.processed st ∧
          Driver.last_ts_us st' = Driver.last_ts_us st).
Proof.
  intros Hok. destruct (handle_line_ok parse ts st line Hok) as (r & st' & Hr & Hok' & Hp).
  exists r, st'. split; [done|]. split; [done|].
  unfold Driver.handle_line in Hr. cbv zeta in Hr.
  destruct (String.eqb (Driver.strip_cr line) ""); [by injection Hr as <- <-|].
  destruct (String.prefix "ts_event" (Driver.strip_cr line)
            || String.prefix "publisher_id" (Driver.strip_cr line)
            || String.prefix "instrument_id" (Driver.strip_cr line));
    [by injection Hr as <- <-|].
  destruct (parse (Driver.strip_cr line)) as [e|]; [|by injection Hr as <- <-].
  destruct (negb (Driver.has_symbol st) && negb (String.eqb (e_symbol e) "")) eqn:E.
  - destruct (Book.apply (Book.new (e_symbol e)) e) as [b'|]; [|done].
    simpl in Hr. injection Hr as <- <-. simpl. split; [done|].
    intros Hh. by rewrite Hh in E.
  - destruct (Book.apply (Driver.book st) e) as [b'|]; [|done].
    simpl in Hr. injection Hr as <- <-. simpl. by split.
Qed.

Section session_inv.
Context (parse : string → option MboEvent) (ts : string → Z)
        (to_json : MboOrderBook → Z → string)
        (depth snapshot_every max_msgs : Z) (pg : bool) (max_q : nat)
        (store0 : SnapshotStore.t) (q0 : list SnapshotWrite)
        (feed0 : option Session.JsonlWriter).
Context (Hmax : (1 ≤ max_q)%nat).

Local Abbreviation inv := (Session.inv to_json depth snapshot_every pg store0 q0 feed0).

Lemma served_after_publish st sto qq fd :
  Session.served
    (Session.mk st
       (if negb (String.eqb (Driver.book_symbol st) "")
        then SnapshotStore.publish_snapshot sto (Driver.book_symbol st)
               (to_json (Driver.book st) depth)
        else SnapshotStore.publish_snapshot_global sto (to_json (Driver.book st) depth))
       qq fd)
  = Some (to_json (Driver.book st) depth).
Proof.
  unfold Session.served. simpl.
  destruct (String.eqb (Driver.book_symbol st) ""); simpl; [done|].
  unfold SnapshotStore.load_snapshot, SnapshotStore.publish_snapshot. simpl.
  by rewrite lookup_insert_eq.
Qed.

(** A snapshot or a flush on a state that has processed something. *)
Lemma fanout_inv (final : bool) st sto qq fd :
  session_ok st → 0 < Driver.processed st →
  Forall (Session.keyed q0 st) qq →
  (pg = false → qq = q0) → (feed0 = None → fd = None) →
  ∃ w', (if final then Session.final_flush to_json depth pg max_q
         else Session.snapshot to_json depth pg max_q) (Session.mk st sto qq fd)
        = Some w' ∧
        Session.drv w' = st ∧
        Session.served w' = Some (to_json (Driver.book st) depth) ∧
        Forall (Session.keyed q0 st) (Session.q w') ∧
        (pg = false → Session.q w' = q0) ∧
        (feed0 = None → Session.feed w' = None).
Proof.
  intros Hok Hpos Hq Hpg Hfd.
  pose proof Hok as (Hwf & Hsym & Hhas & _).
  destruct (top_of_book_total (Driver.book st) Session.price_scale Hwf) as [tob Htob].
  destruct (enqueue_total pg qq max_q (Driver.last_ts_us st) (Driver.book_symbol st) tob Hmax)
    as (q' & Hq' & Hq'pg & Hq'in).
  assert (Hfeed : ∀ fd' : option Session.JsonlWriter,
            match fd with Some _ => is_Some fd' | None => fd' = None end →
            feed0 = None → fd' = None).
  { intros fd' Hm H0. rewrite (Hfd H0) in Hm. done. }
  destruct final; unfold Session.final_flush, Session.snapshot; cbv zeta; simpl.
  - destruct pg eqn:Epg; simpl.
    + destruct (negb (String.eqb (Driver.book_symbol st) "") && (Driver.last_ts_us st >? 0))
        eqn:E; simpl.
      * rewrite Htob. simpl. rewrite Hq'. simpl. eexists. split; [done|]. simpl.
        split_and!; [done|apply served_after_publish| |done|].
        -- apply Forall_forall. intros x Hx. destruct (Hq'in x Hx) as [Hx'| ->].
           ++ by eapply Forall_forall in Hq.
           ++ right. simpl. apply andb_true_iff in E as [E1 E2].
              apply negb_true_iff, String.eqb_neq in E1.
              split_and!; [by apply Hhas|done|lia].
        -- apply Hfeed. destruct fd; [|done].
           destruct (_ && _); by eexists.
      * eexists. split; [done|]. simpl.
        split_and!; [done|apply served_after_publish|done|done|].
        apply Hfeed. destruct fd; [|done]. destruct (_ && _); by eexists.
    + eexists. split; [done|]. simpl.
      split_and!; [done|apply served_after_publish|done|done|].
      apply Hfeed. destruct fd; [|done]. destruct (_ && _); by eexists.
  - destruct (negb (String.eqb (Driver.book_symbol st) "") && (Driver.last_ts_us st >? 0))
      eqn:E; simpl.
    + rewrite Htob. simpl. rewrite Hq'. simpl. eexists. split; [done|]. simpl.
      split_and!; [done|apply served_after_publish| |intros Hf; by rewrite Hq'pg, Hpg|].
      * apply Forall_forall. intros x Hx. destruct (Hq'in x Hx) as [Hx'| ->].
        -- by eapply Forall_forall in Hq.
        -- right. simpl. apply andb_true_iff in E as [E1 E2].
           apply negb_true_iff, String.eqb_neq in E1.
           split_and!; [by apply Hhas|done|lia].
      * apply Hfeed. destruct fd; [|done]. by eexists.
    + eexists. split; [done|]. simpl.
      split_and!; [done|apply served_after_publish|done|done|].
      apply Hfeed. destruct fd; [|done]. by eexists.
Qed.

Lemma keyed_step st st' qq :
  (Driver.has_symbol st = true →
   Driver.has_symbol st' = true ∧ Driver.book_symbol st' = Driver.book_symbol st) →
  Forall (Session.keyed q0 st) qq → Forall (Session.keyed q0 st') qq.
Proof.
  intros Hs Hq. eapply Forall_impl; [exact Hq|].
  intros x [Hx|(Hh & Hsym & Hts)]; [by left|].
  right. destruct (Hs Hh) as [-> ->]. done.
Qed.

Lemma handle_line_inv w line :
  inv w →
  ∃ r w', Session.handle_line parse ts to_json depth snapshot_every pg max_q w line
            = Some (r, w') ∧ inv w'.
Proof.
  intros (Hok & Hzero & Hserved & Hq & Hpg & Hfd). destruct w as [st sto qq fd].
  simpl in *. unfold Session.handle_line. simpl.
  destruct (driver_line_cases parse ts st line Hok) as (r & st' & -> & Hok' & Hc).
  cbn [mbind option_bind fst snd]. destruct r; cbn [andb].
  - destruct Hc as [Hp Hsym]. pose proof Hok as (_ & _ & _ & _ & Hpos).
    destruct ((snapshot_every >? 0) && (Z.rem (Driver.processed st') snapshot_every =? 0))
      eqn:E.
    + destruct (fanout_inv false st' sto qq fd) as (w' & Hw' & Hd & Hs & Hq' & Hpg' & Hfd');
        [done|lia|by eapply keyed_step|done|done|].
      rewrite Hw'. simpl. exists true, w'. split; [done|].
      unfold Session.inv. rewrite Hd. split_and!; [done|lia|done|done|done|done].
    + exists true, (Session.mk st' sto qq fd). split; [done|].
      unfold Session.inv. simpl. split_and!; [done|lia| |by eapply keyed_step|done|done].
      intros _ Hse Hrem. apply andb_false_iff in E as [E|E]; [lia|].
      apply Z.eqb_neq in E. done.
  - destruct Hc as (Hb & Hs & Hh & Hp & Hl).
    exists false, (Session.mk st' sto qq fd). split; [done|].
    unfold Session.inv, Session.served in *. simpl in *.
    rewrite Hb, Hs, Hp. split_and!; [done|done|done| |done|done].
    eapply keyed_step; [|done]. intros Hh'. by rewrite Hh, Hs.
Qed.

Lemma on_line_inv w line :
  inv w →
  ∃ w', Session.on_line parse ts to_json depth snapshot_every max_msgs pg max_q w line
          = Some w' ∧ inv w'.
Proof.
  intros Hi. unfold Session.on_line. destruct (Session.below_max max_msgs w).
  - destruct (handle_line_inv w line Hi) as (r & w' & -> & Hi'). by exists w'.
  - eexists. split; [done|]. destruct w as [st sto qq fd].
    destruct Hi as (Hok & Hzero & Hserved & Hq & Hpg & Hfd).
    unfold Session.inv, Session.served in *. simpl in *.
    split_and!; try done.
Qed.

Lemma on_lines_inv lines : ∀ w,
  inv w →
  ∃ w', Session.on_lines parse ts to_json depth snapshot_every max_msgs pg max_q w lines
          = Some w' ∧ inv w'.
Proof.
  induction lines as [|l ls IH]; intros w Hi; simpl; [by exists w|].
  destruct (on_line_inv w l Hi) as (w1 & -> & Hi1). simpl. by apply IH.
Qed.

Lemma session_inv chunks :
  ∃ w, Session.run_one_replay_session parse ts to_json depth snapshot_every max_msgs
         pg max_q store0 q0 feed0 chunks = Some w ∧
       session_ok (Session.drv w) ∧
       (Driver.processed (Session.drv w) = 0 →
        Session.store w = store0 ∧ Session.q w = q0 ∧ Session.feed w = feed0) ∧
       (0 < Driver.processed (Session.drv w) →
        Session.served w = Some (to_json (Driver.book (Session.drv w)) depth)) ∧
       Forall (Session.keyed q0 (Session.drv w)) (Session.q w) ∧
       (pg = false → Session.q w = q0) ∧
       (feed0 = None → Session.feed w = None).
Proof.
  unfold Session.run_one_replay_session. cbv zeta.
  destruct (on_lines_inv (Replay.on_chunks "" chunks).1
              (Session.mk Driver.init store0 q0 feed0)) as (w1 & -> & Hi1).
  { unfold Session.inv, session_ok. simpl.
    split_and!; try done; try lia.
    all: try apply new_wf.
    all: try (apply Forall_forall; intros x Hx; by left). }
  cbn [mbind option_bind].
  assert (∃ w2, (if negb (String.eqb (Replay.on_chunks "" chunks).2 "")
                    && Session.below_max max_msgs w1
                 then r' ← Session.handle_line parse ts to_json depth snapshot_every
                            pg max_q w1 (Replay.on_chunks "" chunks).2; Some r'.2
                 else Some w1) = Some w2 ∧ inv w2) as (w2 & -> & Hi2).
  { destruct (_ && _); [|by exists w1].
    destruct (handle_line_inv w1 (Replay.on_chunks "" chunks).2 Hi1) as (r & w' & -> & Hi').
    by exists w'. }
  cbn [mbind option_bind].
  destruct Hi2 as (Hok & Hzero & Hserved & Hq & Hpg & Hfd).
  destruct ((Driver.processed (Session.drv w2) >? 0) &&
            ((snapshot_every <=? 0) ||
             negb (Z.rem (Driver.processed (Session.drv w2)) snapshot_every =? 0))) eqn:E.
  - apply andb_true_iff in E as [E1 E2]. destruct w2 as [st sto qq fd]. simpl in *.
    destruct (fanout_inv true st sto qq fd) as (w' & Hw' & Hd & Hs & Hq' & Hpg' & Hfd');
      [done|lia|done|done|done|].
    exists w'. split; [done|]. rewrite Hd. split_and!; [done|lia|done|done|done|done].
  - exists w2. split; [done|]. split_and!; try done.
    intros Hpos. apply andb_false_iff in E as [E|E]; [lia|].
    apply orb_false_iff in E as [E1 E2]. apply negb_false_iff, Z.eqb_eq in E2.
    apply Hserved; [done|lia|done].
Qed.

End session_inv.

(** X20. A replay session runs to its end whatever the feed holds, and
    when it has processed at least one event, what the store then serves
    for the session's symbol (the global slot when the symbol is empty) is
    the final book, printed at the configured depth: by the periodic
    snapshot when the count of processed events is a multiple of
    [snapshot_every], by the forced flush otherwise.  A session that
    processed nothing leaves the store, the queue and the feed file as they
    were. *)
Theorem session_serves_final_book
    (parse : string → option MboEvent) (ts : string → Z)
    (to_json : MboOrderBook → Z → string)
    (depth snapshot_every max_msgs : Z) (pg : bool) (max_q : nat)
    (store0 : SnapshotStore.t) (q0 : list SnapshotWrite)
    (feed0 : option Session.JsonlWriter) (chunks : list string) :
  (1 ≤ max_q)%nat →
  ∃ w, Session.run_one_replay_session parse ts to_json depth snapshot_every max_msgs
         pg max_q store0 q0 feed0 chunks = Some w ∧
       (0 < Driver.processed (Session.drv w) →
        Session.served w = Some (to_json (Driver.book (Session.drv w)) depth)) ∧
       (Driver.processed (Session.drv w) = 0 →
        Session.store w = store0 ∧ Session.q w = q0 ∧ Session.feed w = feed0).
Proof.
  intros Hmax.
  destruct (session_inv parse ts to_json depth snapshot_every max_msgs pg max_q
              store0 q0 feed0 Hmax chunks) as (w & Hr & _ & Hzero & Hserved & _).
  by exists w.
Qed.

Lemma session_serves_final_book_witness :
  ∃ w, Session.run_one_replay_session stamped_parser (λ _, 5) toy_to_json 5 2 (-1)
         true 2 SnapshotStore.init [] None toy_chunks = Some w ∧
       (0 < Driver.processed (Session.drv w) →
        Session.served w = Some (toy_to_json (Driver.book (Session.drv w)) 5)) ∧
       (Driver.processed (Session.drv w) = 0 →
        Session.store w = SnapshotStore.init ∧ Session.q w = [] ∧ Session.feed w = None).
Proof.
  apply (session_serves_final_book stamped_parser (λ _, 5) toy_to_json 5 2 (-1)
           true 2 SnapshotStore.init [] None toy_chunks).
  lia.
Defined.

(** X21. Every row that a session puts on the writer queue carries the
    session's symbol, which is not empty, and a positive timestamp: at the
    end each row of the queue is one that was there before or such a row.
    With no database writer the queue is left as it was, and with no feed
    writer there is none afterwards either. *)
Theorem session_queue_rows_keyed
    (parse : string → option MboEvent) (ts : string → Z)
    (to_json : MboOrderBook → Z → string)
    (depth snapshot_every max_msgs : Z) (pg : bool) (max_q : nat)
    (store0 : SnapshotStore.t) (q0 : list SnapshotWrite)
    (feed0 : option Session.JsonlWriter) (chunks : list string) :
  (1 ≤ max_q)%nat →
  ∃ w, Session.run_one_replay_session parse ts to_json depth snapshot_every max_msgs
         pg max_q store0 q0 feed0 chunks = Some w ∧
       Forall (λ x, x ∈ q0 ∨
                    (sw_symbol x = Driver.book_symbol (Session.drv w) ∧
                     sw_symbol x ≠ "" ∧ 0 < sw_ts_us x)) (Session.q w) ∧
       (pg = false → Session.q w = q0) ∧
       (feed0 = None → Session.feed w = None).
Proof.
  intros Hmax.
  destruct (session_inv parse ts to_json depth snapshot_every max_msgs pg max_q
              store0 q0 feed0 Hmax chunks) as (w & Hr & Hok & _ & _ & Hq & Hpg & Hfd).
  exists w. split_and!; [done| |done|done].
  eapply Forall_impl; [exact Hq|]. intros x [Hx|(Hh & Hs & Ht)]; [by left|].
  right. destruct Hok as (_ & _ & Hhas & _). split_and!; [done| |done].
  rewrite Hs. by apply Hhas.
Qed.

Lemma session_queue_rows_keyed_witness :
  ∃ w, Session.run_one_replay_session stamped_parser (λ _, 5) toy_to_json 5 1 (-1)
         true 2 SnapshotStore.init [] None toy_chunks = Some w ∧
       Forall (λ x, x ∈ [] ∨
                    (sw_symbol x = Driver.book_symbol (Session.drv w) ∧
                     sw_symbol x ≠ "" ∧ 0 < sw_ts_us x)) (Session.q w) ∧
       (true = false → Session.q w = []) ∧
       ((None : option Session.JsonlWriter) = None → Session.feed w = None).
Proof.
  apply (session_queue_rows_keyed stamped_parser (λ _, 5) toy_to_json 5 1 (-1)
           true 2 SnapshotStore.init [] None toy_chunks).
  lia.
Defined.

(** ** The writer thread: rows reach the database in order *)

Lemma writer_run_sublist max_q ts : ∀ q w,
  (1 ≤ max_q)%nat → (length q ≤ max_q)%nat →
  ∃ q' w', WriterThread.run max_q (q, w) ts = Some (q', w') ∧
           (length q' ≤ max_q)%nat ∧
           ∃ rest, w' = w ++ rest ∧
                   (rest ++ q') `sublist_of` (q ++ WriterThread.produced ts).
Proof.
  induction ts as [|t ts IH]; intros q w HC Hq.
  - exists q, w. split; [done|]. split; [done|]. exists []. by rewrite !app_nil_r.
  - destruct t as [x|]; cbn [WriterThread.run WriterThread.step fst snd].
    + rewrite enqueue_spec by done. cbn [mbind option_bind].
      destruct (IH (drop (length (q ++ [x]) - max_q) (q ++ [x])) w HC)
        as (q' & w' & Hr & Hl & rest & Hw & Hs).
      { rewrite length_drop, length_app. simpl. lia. }
      exists q', w'. split; [done|]. split; [done|]. exists rest. split; [done|].
      etrans; [exact Hs|]. cbn [WriterThread.produced].
      replace (q ++ x :: WriterThread.produced ts)
        with ((q ++ [x]) ++ WriterThread.produced ts) by by rewrite <-app_assoc.
      apply sublist_app; [|done]. apply sublist_drop.
    + destruct q as [|item q]; cbn [WriterThread.take_front mbind option_bind].
      * destruct (IH [] w HC) as (q' & w' & Hr & Hl & rest & Hw & Hs); [simpl; lia|].
        exists q', w'. split; [done|]. split; [done|]. by exists rest.
      * destruct (IH q (w ++ [item]) HC) as (q' & w' & Hr & Hl & rest & Hw & Hs);
          [simpl in Hq; lia|].
        exists q', w'. split; [done|]. split; [done|]. exists (item :: rest).
        split; [by rewrite Hw, <-app_assoc|].
        cbn [WriterThread.produced app]. by apply sublist_skip.
Qed.

(** X22. However the critical sections of the engine thread and of the
    writer thread interleave, the rows handed to the database followed by
    the rows still queued are rows that were produced, each at most once
    and in the order of production; and the queue never holds more than
    [max_q] rows. *)
Theorem writer_thread_fifo (max_q : nat) (ts : list WriterThread.turn) :
  (1 ≤ max_q)%nat →
  ∃ q w, WriterThread.run max_q ([], []) ts = Some (q, w) ∧
         (w ++ q) `sublist_of` WriterThread.produced ts ∧
         (length q ≤ max_q)%nat.
Proof.
  intros HC.
  destruct (writer_run_sublist max_q ts [] [] HC) as (q & w & Hr & Hl & rest & -> & Hs);
    [simpl; lia|].
  exists q, rest. by split_and!.
Qed.

(** Three rows through a queue of two with the writer thread stalled, then
    two turns of the writer thread. *)
Lemma writer_thread_fifo_witness :
  ∃ q w, WriterThread.run 2 ([], [])
           [WriterThread.Produce (item 1); WriterThread.Produce (item 2);
            WriterThread.Produce (item 3); WriterThread.Consume;
            WriterThread.Produce (item 4); WriterThread.Consume] = Some (q, w) ∧
         (w ++ q) `sublist_of` [item 1; item 2; item 3; item 4] ∧
         (length q ≤ 2)%nat.
Proof.
  apply (writer_thread_fifo 2
           [WriterThread.Produce (item 1); WriterThread.Produce (item 2);
            WriterThread.Produce (item 3); WriterThread.Consume;
            WriterThread.Produce (item 4); WriterThread.Consume]).
  lia.
Defined.

(** ** Reading back an integer member *)


Lemma pretty_N_char_digit d :
  (d < 10)%N →
  WsSession.isdigit (pretty_N_char d) = true ∧
  WsSession.code (pretty_N_char d) - 48 = Z.of_N d.
Proof.
  intros Hd.
  assert (d = 0 ∨ d = 1 ∨ d = 2 ∨ d = 3 ∨ d = 4 ∨ d = 5 ∨ d = 6 ∨ d = 7 ∨ d = 8 ∨ d = 9)%N
    as Hc by lia.
  repeat destruct Hc as [->|Hc]; try subst d; by vm_compute.
Qed.

Lemma digits_pretty_go x :
  ∀ s, (x <= 1000000000)%N →
       WsSession.digits (pretty_N_go x s) 0 = WsSession.digits s (Z.of_N x).
Proof.
  induction (N.lt_wf_0 x) as [x _ IH]; intros s Hx.
  assert (x = 0 ∨ 0 < x)%N as [->|Hpos] by lia; [by rewrite pretty_N_go_0|].
  rewrite pretty_N_go_step by done.
  rewrite IH; [|by apply N.div_lt|].
  2:{ etrans; [|exact Hx]. apply N.Div0.div_le_upper_bound. lia. }
  cbn [WsSession.digits].
  destruct (pretty_N_char_digit (x `mod` 10)) as [-> ->]; [by apply N.mod_lt|].
  replace (Z.of_N (x `div` 10) * 10 + Z.of_N (x `mod` 10)) with (Z.of_N x).
  2:{ rewrite (N.div_mod x 10) at 1 by done. lia. }
  destruct (Z.gtb_spec (Z.of_N x) 1000000000); [lia|done].
Qed.

Lemma pretty_go_app x : ∀ s rest,
  pretty_N_go x s +:+ rest = pretty_N_go x (s +:+ rest).
Proof.
  induction (N.lt_wf_0 x) as [x _ IH]; intros s rest.
  assert (x = 0 ∨ 0 < x)%N as [->|Hpos] by lia; [by rewrite !pretty_N_go_0|].
  rewrite !(pretty_N_go_step x) by done. rewrite IH by (by apply N.div_lt). by sapp.
Qed.

Lemma pretty_go_head x : ∀ s,
  (0 < x)%N → ∃ c r, pretty_N_go x s = String c r ∧ WsSession.isdigit c = true.
Proof.
  induction (N.lt_wf_0 x) as [x _ IH]; intros s Hpos.
  rewrite pretty_N_go_step by done.
  destruct (N.eq_0_gt_0_cases (x `div` 10)) as [->|Hd].
  - rewrite pretty_N_go_0. eexists _, _. split; [done|].
    by apply pretty_N_char_digit, N.mod_lt.
  - apply IH; [by apply N.div_lt|done].
Qed.

(** The digit loop reads back what [std::to_string] prints, up to the
    bound of the loop. *)
Lemma digits_to_string n rest :
  0 <= n <= 1000000000 →
  (∀ c r, rest = String c r → WsSession.isdigit c = false) →
  WsSession.digits (WsSession.to_string n +:+ rest) 0 = n ∧
  ∃ c r, WsSession.to_string n +:+ rest = String c r ∧ WsSession.isdigit c = true.
Proof.
  intros Hn Hrest.
  assert (Hstop : ∀ v, WsSession.digits rest v = v).
  { intros v. destruct rest as [|c r]; [done|]. simpl. by rewrite (Hrest c r). }
  unfold WsSession.to_string, pretty, pretty_Z.
  destruct n as [|p|p]; [| |lia].
  - sapp. split; [|by eexists _, _]. simpl. apply Hstop.
  - unfold pretty, pretty_positive, pretty, pretty_N.
    destruct (decide (N.pos p = 0%N)); [done|].
    rewrite pretty_go_app. sapp. split.
    + rewrite digits_pretty_go by lia. rewrite Hstop. lia.
    + by apply pretty_go_head.
Qed.

Lemma index_char_cons a c t :
  String.index 0 (String a "") (String c t) =
    if Ascii.eqb c a then Some 0%nat
    else S <$> String.index 0 (String a "") t.
Proof.
  cbn [String.index].
  change (String.prefix (String a "") (String c t))
    with (match ascii_dec a c with
          | left _ => String.prefix "" t
          | right _ => false
          end).
  destruct (ascii_dec a c) as [<-|Hne].
  - rewrite Ascii.eqb_refl. by destruct t.
  - destruct (Ascii.eqb_spec c a) as [->|_]; [done|].
    by destruct (String.index 0 _ t).
Qed.

Lemma index_char_first a pre : ∀ t,
  occurs a pre = false →
  String.index 0 (String a "") (pre +:+ String a t) = Some (String.length pre).
Proof.
  induction pre as [|c pre IH]; intros t Ho; sapp.
  - by rewrite index_char_cons, Ascii.eqb_refl.
  - simpl in Ho. apply orb_false_iff in Ho as [Hc Ho].
    rewrite index_char_cons, Hc, IH by done. done.
Qed.

Lemma occurs_app a s t : occurs a (s +:+ t) = occurs a s || occurs a t.
Proof.
  induction s as [|c s IH]; sapp; [done|]. simpl. by rewrite IH, orb_assoc.
Qed.

Lemma index_pattern_here c r t :
  String.index 0 (String c r) (String c r +:+ t) = Some 0%nat.
Proof.
  sapp. cbn [String.index].
  assert (String.prefix (String c r) (String c (r +:+ t)) = true) as ->; [|done].
  apply String.prefix_correct. rewrite <-str_app_cons.
  apply substring_front.
Qed.

Lemma isdigit_not_space c : WsSession.isdigit c = true → WsSession.isspace c = false.
Proof.
  unfold WsSession.isdigit, WsSession.isspace. intros H.
  apply andb_true_iff in H as [H1 H2]. apply Z.leb_le in H1. apply Z.leb_le in H2.
  apply orb_false_iff. split; [apply Z.eqb_neq; lia|].
  apply andb_false_iff. right. apply Z.leb_gt. lia.
Qed.

(** X23. The integer reader of the control plane reads back what
    [std::to_string] prints: for a key without a colon and an integer of
    absolute value at most [1000000000], reading the key in the JSON object
    whose only member is that key with that integer gives the integer. *)
Theorem int_member_round_trip (key : string) (n : Z) :
  occurs ":" key = false →
  - 1000000000 <= n <= 1000000000 →
  WsSession.parse_int_value_after_key (int_member key n) key = Some n.
Proof.
  intros Hkey Hn. unfold WsSession.parse_int_value_after_key, int_member.
  set (body := WsSession.to_string n +:+ "}").
  (* the key is found right after the brace *)
  assert (String.index 0 (WsSession.quoted key)
            ("{" +:+ WsSession.quoted key +:+ ":" +:+ body) = Some 1%nat) as ->.
  { sapp. unfold WsSession.quoted at 1.
    cbn [String.index].
    change (String.prefix (String WsSession.dquote (key +:+ String WsSession.dquote ""))
              (String "{" (WsSession.quoted key +:+ String ":" body)))
      with false.
    unfold WsSession.quoted. by rewrite index_pattern_here. }
  cbn [mbind option_bind].
  (* and the colon right after the key *)
  assert (String.index 1 ":" ("{" +:+ WsSession.quoted key +:+ ":" +:+ body)
          = Some (S (String.length (WsSession.quoted key)))) as ->.
  { sapp. cbn [String.index]. rewrite index_char_first; [done|].
    unfold WsSession.quoted. simpl. rewrite occurs_app, Hkey. done. }
  cbn [mbind option_bind].
  set (pre := "{" +:+ WsSession.quoted key +:+ ":").
  assert (Hlen : (S (String.length (WsSession.quoted key)) + 1)%nat = String.length pre).
  { unfold pre. sapp. cbn [String.length]. rewrite str_length_app. simpl. lia. }
  replace ("{" +:+ WsSession.quoted key +:+ ":" +:+ body) with (pre +:+ body).
  2:{ unfold pre. sapp. by rewrite app_assoc_s. }
  rewrite Hlen.
  assert (Hfrom : ∀ k t, WsSession.from (String.length (pre +:+ k)) ((pre +:+ k) +:+ t) = t).
  { intros k t. apply erase_front_skip. }
  destruct (Z.le_gt_cases 0 n) as [Hpos|Hneg].
  - destruct (digits_to_string n "}") as (Hd & c & r & Hc & Hdig); [lia|by intros ?? [= <- <-]|].
    fold body in Hc, Hd.
    assert (WsSession.skip_ws (pre +:+ body) (String.length pre) = String.length pre) as ->.
    { unfold WsSession.skip_ws.
      replace (WsSession.from (String.length pre) (pre +:+ body)) with body.
      2:{ symmetry. apply erase_front_skip. }
      rewrite Hc. simpl. rewrite isdigit_not_space by done. lia. }
    rewrite Hc, get_skip.
    assert (Ascii.eqb c "-" = false) as ->.
    { destruct (Ascii.eqb_spec c "-") as [->|]; [done|done]. }
    rewrite get_skip, Hdig, <-Hc.
    replace (WsSession.from (String.length pre) (pre +:+ body)) with body.
    2:{ symmetry. apply erase_front_skip. }
    rewrite Hd. f_equal. unfold wrap32. rewrite Z.mod_small by lia. lia.
  - destruct (digits_to_string (- n) "}") as (Hd & c & r & Hc & Hdig);
      [lia|by intros ?? [= <- <-]|].
    assert (body = String "-" (WsSession.to_string (- n) +:+ "}")) as Hbody.
    { unfold body, WsSession.to_string, pretty, pretty_Z. destruct n; try lia. by sapp. }
    assert (WsSession.skip_ws (pre +:+ body) (String.length pre) = String.length pre) as ->.
    { unfold WsSession.skip_ws.
      replace (WsSession.from (String.length pre) (pre +:+ body)) with body.
      2:{ symmetry. apply erase_front_skip. }
      rewrite Hbody. simpl. lia. }
    rewrite Hbody, get_skip. rewrite Ascii.eqb_refl.
    replace (pre +:+ String "-" (WsSession.to_string (- n) +:+ "}"))
      with ((pre +:+ "-") +:+ WsSession.to_string (- n) +:+ "}").
    2:{ rewrite app_assoc_s. by sapp. }
    replace (S (String.length pre)) with (String.length (pre +:+ "-")).
    2:{ rewrite str_length_app. simpl. lia. }
    rewrite Hc, get_skip, Hdig, <-Hc.
    replace (WsSession.from (String.length (pre +:+ "-"))
               ((pre +:+ "-") +:+ WsSession.to_string (- n) +:+ "}"))
      with (WsSession.to_string (- n) +:+ "}").
    2:{ symmetry. apply erase_front_skip. }
    rewrite Hd. f_equal. unfold wrap32. rewrite Z.mod_small by lia. lia.
Qed.

Lemma int_member_round_trip_witness :
  WsSession.parse_int_value_after_key (int_member "depth" 25) "depth" = Some 25.
Proof. apply int_member_round_trip; [reflexivity|lia]. Defined.

Lemma index_char_skip a pre : ∀ t,
  String.index (String.length pre) (String a "") (pre +:+ t) =
    (λ k, String.length pre + k)%nat <$> String.index 0 (String a "") t.
Proof.
  induction pre as [|c pre IH]; intros t; sapp.
  - change (String.index 0 (String a "") t
            = (λ k, 0 + k)%nat <$> String.index 0 (String a "") t).
    by destruct (String.index 0 (String a "") t).
  - change (match String.index (String.length pre) (String a "") (pre +:+ t) with
            | Some n => Some (S n)
            | None => None
            end = (λ k, S (String.length pre) + k)%nat <$> String.index 0 (String a "") t).
    rewrite IH. by destruct (String.index 0 (String a "") t).
Qed.

(** X24. The string reader of the control plane reads back a quoted
    value: for a key without a colon and a value without a double quote,
    reading the key in the JSON object whose only member is that key with
    that value gives the value. *)
Theorem string_member_round_trip (key v : string) :
  occurs ":" key = false →
  occurs WsSession.dquote v = false →
  WsSession.parse_string_value_after_key (string_member key v) key = Some v.
Proof.
  intros Hkey Hv. unfold WsSession.parse_string_value_after_key, string_member.
  set (body := WsSession.quoted v +:+ "}").
  assert (String.index 0 (WsSession.quoted key)
            ("{" +:+ WsSession.quoted key +:+ ":" +:+ body) = Some 1%nat) as ->.
  { sapp. unfold WsSession.quoted at 1.
    cbn [String.index].
    change (String.prefix (String WsSession.dquote (key +:+ String WsSession.dquote ""))
              (String "{" (WsSession.quoted key +:+ String ":" body)))
      with false.
    unfold WsSession.quoted. by rewrite index_pattern_here. }
  cbn [mbind option_bind].
  assert (String.index 1 ":" ("{" +:+ WsSession.quoted key +:+ ":" +:+ body)
          = Some (S (String.length (WsSession.quoted key)))) as ->.
  { sapp. cbn [String.index]. rewrite index_char_first; [done|].
    unfold WsSession.quoted. simpl. rewrite occurs_app, Hkey. done. }
  cbn [mbind option_bind].
  set (pre := "{" +:+ WsSession.quoted key +:+ ":").
  assert (Hlen : (S (String.length (WsSession.quoted key)) + 1)%nat = String.length pre).
  { unfold pre. sapp. cbn [String.length]. rewrite str_length_app. simpl. lia. }
  replace ("{" +:+ WsSession.quoted key +:+ ":" +:+ body) with (pre +:+ body).
  2:{ unfold pre. sapp. by rewrite app_assoc_s. }
  rewrite Hlen.
  assert (Hbody : body = String WsSession.dquote (v +:+ String WsSession.dquote "}")).
  { unfold body, WsSession.quoted. sapp. rewrite app_assoc_s. by sapp. }
  assert (WsSession.skip_ws (pre +:+ body) (String.length pre) = String.length pre) as ->.
  { unfold WsSession.skip_ws.
    replace (WsSession.from (String.length pre) (pre +:+ body)) with body.
    2:{ symmetry. apply erase_front_skip. }
    rewrite Hbody. simpl. lia. }
  rewrite Hbody, get_skip. rewrite Ascii.eqb_refl.
  replace (pre +:+ String WsSession.dquote (v +:+ String WsSession.dquote "}"))
    with ((pre +:+ String WsSession.dquote "") +:+ v +:+ String WsSession.dquote "}").
  2:{ rewrite app_assoc_s. by sapp. }
  replace (S (String.length pre)) with (String.length (pre +:+ String WsSession.dquote "")).
  2:{ rewrite str_length_app. simpl. lia. }
  rewrite index_char_skip, index_char_first by done.
  cbn [fmap option_fmap option_map mbind option_bind]. f_equal.
  replace (String.length (pre +:+ String WsSession.dquote "") + String.length v
           - String.length (pre +:+ String WsSession.dquote ""))%nat
    with (String.length v) by lia.
  by rewrite substring_skip, substring_front.
Qed.

Lemma string_member_round_trip_witness :
  WsSession.parse_string_value_after_key (string_member "symbol" "CLX5") "symbol"
  = Some "CLX5".
Proof. apply string_member_round_trip; reflexivity. Defined.
